(** * Metadata Remote: the client-side consistency engine

  A shallow embedding of the selection, path-rewriting, request-sequencing,
  bulk-operation and inline-rename logic of the browser client
  (Files.Manager, Navigation.Tree and UI.Utilities), together with the
  properties of that logic stated in the design document; and of the
  dialog (UI.Dialog), the filter and sort controls, the actions menus and
  the reload of the tree, with the properties their code shows.

  Conventions of the embedding.
  - A JavaScript string is a [string]: a sequence of code units.  The
    case mapping and the trimming of strings belong to the engine: they
    are the methods of the class [Engine], and the code that filters and
    sorts a listing is modelled, and its properties are proved, for every
    engine.  The examples, and the code outside the listings, run with the
    engine of the ASCII range.
  - A JavaScript [Set] of strings is a duplicate-free list in insertion
    order (the order in which [Array.from] and [forEach] enumerate it).
  - A JavaScript object used as a map is an association list in insertion
    order of its keys: the order of [Object.keys] for keys that are no
    array indices, and the lookup for keys that name no member of
    [Object.prototype].
  - The selector engine of the browser is a parameter of the code that
    looks elements up by an unescaped path: a selector text is a selector
    or it is not, and then the lookup throws.
  - An [async] function is cut at its [await]: one definition for what runs
    when the request is issued, one for what runs when the response
    arrives.  A request in flight is a value: it is returned to the caller
    or recorded in the state, and the response may arrive at any later
    point.
  - Presentation-only effects (CSS classes, icons) are left out; what is
    displayed as data (the stats footer, the metadata panel, the progress
    bar, the texts and buttons of the dialog) and the focus inside the
    dialog are part of the state. *)

From Stdlib Require Import String Ascii List Bool Arith ZArith Lia.
From Stdlib Require Import Permutation Sorted RelationClasses OrdersEx.
Import ListNotations.

Local Open Scope list_scope.
Local Open Scope string_scope.

(* ================================================================== *)
(** ** JavaScript strings *)

Module JsString.

(** [s.startsWith(p)] *)
Definition startsWith (s p : string) : bool := String.prefix p s.

(** [s.includes(sub)] *)
Fixpoint includes (s sub : string) : bool :=
  String.prefix sub s ||
  match s with
  | EmptyString => false
  | String _ s' => includes s' sub
  end.

(** [s.slice(n)] and [s.substring(n)] for an index [0 <= n]. *)
Fixpoint slice (s : string) (n : nat) {struct n} : string :=
  match n, s with
  | O, _ => s
  | S _, EmptyString => EmptyString
  | S n', String _ s' => slice s' n'
  end.

Definition between (lo hi : nat) (c : ascii) : bool :=
  let n := nat_of_ascii c in (lo <=? n)%nat && (n <=? hi)%nat.

Definition lower_unit (c : ascii) : ascii :=
  if between 65 90 c then ascii_of_nat (nat_of_ascii c + 32) else c.

Definition upper_unit (c : ascii) : ascii :=
  if between 97 122 c then ascii_of_nat (nat_of_ascii c - 32) else c.

Fixpoint map_units (f : ascii -> ascii) (s : string) : string :=
  match s with
  | EmptyString => EmptyString
  | String c s' => String (f c) (map_units f s')
  end.


(** White space removed by [trim]: TAB, LF, VT, FF, CR and SPACE. *)
Definition is_space (c : ascii) : bool :=
  between 9 13 c || (nat_of_ascii c =? 32)%nat.

Fixpoint trimStart (s : string) : string :=
  match s with
  | EmptyString => EmptyString
  | String c s' => if is_space c then trimStart s' else s
  end.

Fixpoint trimEnd (s : string) : string :=
  match s with
  | EmptyString => EmptyString
  | String c s' =>
      match trimEnd s' with
      | EmptyString => if is_space c then EmptyString else String c EmptyString
      | t => String c t
      end
  end.

(** [String.prototype.toLowerCase], [toUpperCase] and [trim] belong to
    the engine, which knows the case mapping and the white space of all of
    Unicode.  The code that filters and sorts a listing is modelled for
    any engine. *)
Class Engine : Type := mkEngine {
  toLowerCase : string -> string;
  toUpperCase : string -> string;
  trim : string -> string;
  (** the empty string has no letters *)
  toLowerCase_empty : toLowerCase "" = ""
}.

(** The engine restricted to the ASCII range: the letters [A] to [Z] and
    [a] to [z], and the white space TAB, LF, VT, FF, CR and SPACE.  It is
    the engine of the examples and of the code outside the listings. *)
#[global] Instance ascii_engine : Engine := {|
  toLowerCase := map_units lower_unit;
  toUpperCase := map_units upper_unit;
  trim := fun s => trimEnd (trimStart s);
  toLowerCase_empty := eq_refl
|}.

Fixpoint has_unit (sep : ascii) (s : string) : bool :=
  match s with
  | EmptyString => false
  | String c s' => Ascii.eqb c sep || has_unit sep s'
  end.

(** [s.split(sep).pop()]: what follows the last [sep], all of [s] when
    there is none. *)
Fixpoint split_pop (sep : ascii) (s : string) : string :=
  match s with
  | EmptyString => EmptyString
  | String c s' =>
      if Ascii.eqb c sep || has_unit sep s' then split_pop sep s' else s
  end.

(** A string is truthy when it is not empty. *)
Definition truthy (s : string) : bool := negb (String.eqb s "").

Definition quote : ascii := ascii_of_nat 34.

End JsString.

(* ================================================================== *)
(** ** JavaScript sets of strings and objects used as maps *)

Module JsSet.

Definition t := list string.

Definition has (s : t) (x : string) : bool := existsb (String.eqb x) s.

Definition add (s : t) (x : string) : t := if has s x then s else (s ++ [x])%list.

Definition delete (s : t) (x : string) : t :=
  filter (fun y => negb (String.eqb y x)) s.

(** [new Set(iterable)] *)
Definition of_list (l : list string) : t := fold_left add l [].

Definition size (s : t) : nat := List.length s.

End JsSet.

Module JsObj.

Section Obj.
Context {V : Type}.

Definition t := list (string * V).

Fixpoint get (o : t) (k : string) : option V :=
  match o with
  | [] => None
  | (k', v) :: o' => if String.eqb k' k then Some v else get o' k
  end.

(** [o[k] = v]: an existing key keeps its place, a new one goes last. *)
Fixpoint set (o : t) (k : string) (v : V) : t :=
  match o with
  | [] => [(k, v)]
  | (k', v') :: o' =>
      if String.eqb k' k then (k', v) :: o' else (k', v') :: set o' k v
  end.

(** [delete o[k]] *)
Definition delete (o : t) (k : string) : t :=
  filter (fun kv => negb (String.eqb (fst kv) k)) o.

(** [Object.keys(o)] *)
Definition keys (o : t) : list string := map fst o.
End Obj.

Arguments t : clear implicits.

End JsObj.

(* ================================================================== *)
(** ** Nodes *)

(** An entry of a folder listing or of a file listing, as the remote
    service sends it.  [created], [date] and [size] may be missing. *)
Record Item : Type := mkItem {
  path : string;
  name : string;
  type : string;
  created : option Z;
  date : option Z;
  size : option Z
}.

(** [x || 0] on an optional number. *)
Definition or0 (x : option Z) : Z :=
  match x with
  | Some z => z
  | None => 0%Z
  end.

(* ================================================================== *)
(** ** Control-flow helpers *)

(** [for (let i = start; i <= stop; i++) body(i)] *)
Definition for_incl {S : Type} (start stop : nat) (body : nat -> S -> S) (s : S) : S :=
  fold_left (fun acc i => body i acc) (seq start (Datatypes.S stop - start)) s.

(** An exception that leaves a handler: a call of something that is no
    function, or a selector text that is no selector. *)
Inductive JsError : Type :=
| TypeError
| SyntaxError.

(** A settled promise. *)
Inductive Settled (A : Type) : Type :=
| Fulfilled (a : A)
| Rejected.
Arguments Fulfilled {A} a.
Arguments Rejected {A}.

(** [items.findIndex(pred)], [None] for [-1]. *)
Fixpoint findIndex {A : Type} (pred : A -> bool) (items : list A) : option nat :=
  match items with
  | [] => None
  | x :: rest =>
      if pred x then Some O
      else match findIndex pred rest with
           | Some i => Some (S i)
           | None => None
           end
  end.


(** What a save handler of a rename does before any reply of the remote
    service: it cancels the edit, it shows an error of its own, or it calls
    the rename of the remote service for [target] with [newName]. *)
Inductive RenameStep : Type :=
| RenameCancelled
| RenameRejected (message : string)
| RenameRequested (target : option string) (newName : string).

(** [State.foldersSort] and [State.filesSort]. *)
Record SortSetting : Type := mkSort {
  method : string;
  direction : string
}.

(* ================================================================== *)
(** ** Array.prototype.sort *)

(** The sort of the language is stable and, for a comparator that is
    consistent, returns the one sorted arrangement that keeps equal elements
    in their order.  It is modelled by insertion from the right, which has
    both properties.  For a comparator that is not consistent the language
    leaves the result to the engine.  The one such comparator here, that
    of [sortFiles], orders the keys and reports no ties: engines agree on
    the order of the keys and differ in the order they give to elements of
    the same key.  What is proved of that sort, that its result is a
    rearrangement of the input in the order of the keys, holds whatever
    that order is. *)

Section ArraySort.
Context {A : Type}.
Variable cmp : A -> A -> Z.

Fixpoint sort_insert (x : A) (l : list A) : list A :=
  match l with
  | [] => [x]
  | y :: l' => if (cmp x y <=? 0)%Z then x :: l else y :: sort_insert x l'
  end.

Fixpoint Array_sort (l : list A) : list A :=
  match l with
  | [] => []
  | x :: l' => sort_insert x (Array_sort l')
  end.

(** What the language asks of a comparator, as far as it is used here. *)
Record Consistent : Prop := mkConsistent {
  cmp_antisym : forall x y, (0 < cmp x y)%Z <-> (cmp y x < 0)%Z;
  cmp_le_trans : forall x y z, (cmp x y <= 0)%Z -> (cmp y z <= 0)%Z -> (cmp x z <= 0)%Z
}.

Definition cmp_le (x y : A) : Prop := (cmp x y <= 0)%Z.
Definition cmp_tie (z y : A) : bool := (cmp z y =? 0)%Z.

End ArraySort.

(* ================================================================== *)
(** ** Arrays as shared objects *)

(** An array is an object: two variables may hold the same array, and a
    sort in place is seen through both.  The store maps a reference to the
    content of its array; a new array takes the next free reference. *)
Module Heap.

Section Store.
Context {A : Type}.

Definition t := list (list A).
Definition ref := nat.

Definition read (h : t) (r : ref) : list A := nth r h [].

Definition alloc (h : t) (content : list A) : t * ref :=
  ((h ++ [content])%list, List.length h).

Fixpoint write (h : t) (r : ref) (content : list A) : t :=
  match h, r with
  | [], _ => []
  | _ :: h', O => content :: h'
  | c :: h', S r' => c :: write h' r' content
  end.

Definition allocated (h : t) (r : ref) : Prop := (r < List.length h)%nat.

End Store.

Arguments t : clear implicits.

End Heap.

(** The order of strings by code units, as a comparator; it stands in for
    [localeCompare] where a concrete one is needed. *)
Definition codeunit_compare (a b : string) : Z :=
  match OrdersEx.String_as_OT.compare a b with
  | Lt => (-1)%Z
  | Eq => 0%Z
  | Gt => 1%Z
  end.

(* ================================================================== *)
(** ** Range selection: the pivot *)


(** The pivot of a range selection: the index the anchor was found at, the
    index of the target when it was not found. *)
Definition range_pivot (anchorIndex : option nat) (targetIndex : nat) : nat :=
  match anchorIndex with
  | Some a => a
  | None => targetIndex
  end.

(** What it means for [a] to be the pivot, in terms of the visible paths:
    the first place of the anchor path among them, or the target's place
    when there is no anchor or no visible item carries its path. *)
Definition is_pivot (paths : list string) (anchor : option string) (t a : nat) : Prop :=
  match anchor with
  | Some ap =>
      (nth_error paths a = Some ap /\
       forall j, (j < a)%nat -> nth_error paths j <> Some ap)
      \/ (~ In ap paths /\ a = t)
  | None => a = t
  end.

(* ================================================================== *)
(** ** The bulk operation runner: UI.Utilities *)

Module Utilities.

(** What the runner does that can be observed from outside: it shows and
    hides the progress bar, and it starts the operation of an item. *)
Inductive Event (Item : Type) : Type :=
| ShowBulkProgress (label : string) (done total : nat)
| HideBulkProgress
| OnItem (item : Item) (i : nat).
Arguments ShowBulkProgress {Item} label done total.
Arguments HideBulkProgress {Item}.
Arguments OnItem {Item} item i.

Section Bulk.
Context {Item W E : Type}.

(** The operation of one item takes the world to a new world and either
    completes or throws. *)
Variable onItem : Item -> nat -> W -> W * option E.

(** The [for] loop of [runBulkOperation], from index [i] on. *)
Fixpoint bulk_loop
    (label : string) (isBulk : bool) (total : nat)
    (i : nat) (rest : list Item) (w : W) (log : list (Event Item))
  : W * list (Event Item) * option E :=
  match rest with
  | [] => (w, log, None)
  | x :: rest' =>
      let log1 := (log ++ [OnItem x i])%list in
      match onItem x i w with
      | (w1, Some e) => (w1, log1, Some e)
      | (w1, None) =>
          bulk_loop label isBulk total (S i) rest' w1
            (if isBulk then (log1 ++ [ShowBulkProgress label (S i) total])%list else log1)
      end
  end.

(** [runBulkOperation({ label, items, onItem })].  The third component is
    the exception that leaves the function, if any. *)
Definition runBulkOperation
    (label : string) (items : list Item) (w : W) (log : list (Event Item))
  : W * list (Event Item) * option E :=
  let total := List.length items in
  if Nat.eqb total 0 then (w, log, None)
  else
    let isBulk := Nat.ltb 1 total in
    let log0 := if isBulk then (log ++ [ShowBulkProgress label 0 total])%list else log in
    let '(w1, log1, r) := bulk_loop label isBulk total 0 items w log0 in
    (w1, if isBulk then (log1 ++ [HideBulkProgress])%list else log1, r).

(** The items whose operation was started, in the order of the log. *)
Fixpoint started (log : list (Event Item)) : list Item :=
  match log with
  | [] => []
  | OnItem x _ :: log' => x :: started log'
  | _ :: log' => started log'
  end.

(** The log mentions the progress bar. *)
Definition mentions_progress (log : list (Event Item)) : bool :=
  existsb (fun ev => match ev with OnItem _ _ => false | _ => true end) log.

(** The operations of [items], numbered from [i], complete one after the
    other and take [w] to [w']. *)
Inductive completes : nat -> list Item -> W -> W -> Prop :=
| completes_nil : forall i w, completes i [] w w
| completes_cons : forall i x rest w w1 w',
    onItem x i w = (w1, None) ->
    completes (S i) rest w1 w' ->
    completes i (x :: rest) w w'.

End Bulk.

End Utilities.
(* ================================================================== *)
(** ** Path rewriting after a rename or a move *)

Module PathRewrite.
Import JsString.

(** [path === oldPath || path.startsWith(oldPath + '/')] *)
Definition selfOrUnder (oldPath path : string) : bool :=
  String.eqb path oldPath || startsWith path (oldPath ++ "/").

(** [path.startsWith(oldPath + '/')] *)
Definition under (oldPath path : string) : bool :=
  startsWith path (oldPath ++ "/").

(** [newPath + path.slice(oldPath.length)] *)
Definition rebase (oldPath newPath path : string) : string :=
  newPath ++ slice path (String.length oldPath).

(** The callback that [handleDrop] and the merge branch of [saveFolderName]
    map over the expanded paths. *)
Definition movePath (oldPath newPath path : string) : string :=
  if selfOrUnder oldPath path then rebase oldPath newPath path else path.

(** [Array.from(new Set(currentExpanded.map(...)))] *)
Definition handleDrop_expandedPaths
    (oldPath newPath : string) (expandedFolders : JsSet.t) : list string :=
  JsSet.of_list (map (movePath oldPath newPath) expandedFolders).

(** The part of [State] that a folder rename rewrites. *)
Record State : Type := mkState {
  treeData : JsObj.t (list Item);
  expandedFolders : JsSet.t;
  currentPath : string;
  currentFile : option string
}.

Definition set_treeData (st : State) (v : JsObj.t (list Item)) : State :=
  mkState v (expandedFolders st) (currentPath st) (currentFile st).
Definition set_expandedFolders (st : State) (v : JsSet.t) : State :=
  mkState (treeData st) v (currentPath st) (currentFile st).
Definition set_currentPath (st : State) (v : string) : State :=
  mkState (treeData st) (expandedFolders st) v (currentFile st).
Definition set_currentFile (st : State) (v : option string) : State :=
  mkState (treeData st) (expandedFolders st) (currentPath st) v.

(** [handleDrop], after a successful folder move: current folder and
    current file. *)
Definition handleDrop_currentPath (oldPath newPath : string) (st : State) : State :=
  if truthy (currentPath st) && selfOrUnder oldPath (currentPath st)
  then set_currentPath st (rebase oldPath newPath (currentPath st))
  else st.

Definition handleDrop_currentFile (oldPath newPath : string) (st : State) : State :=
  match currentFile st with
  | Some f =>
      if truthy f && selfOrUnder oldPath f
      then set_currentFile st (Some (rebase oldPath newPath f))
      else st
  | None => st
  end.

(** One round of the [Object.keys(State.treeData).forEach] loop of
    [updateFolderReferences]. *)
Definition updateFolderReferences_key
    (oldPath newPath : string) (st : State) (key : string) : State :=
  if under oldPath key then
    let newKey := rebase oldPath newPath key in
    let st1 :=
      match JsObj.get (treeData st) key with
      | Some v => set_treeData st (JsObj.delete (JsObj.set (treeData st) newKey v) key)
      | None => st
      end in
    if JsSet.has (expandedFolders st1) key
    then set_expandedFolders st1
           (JsSet.add (JsSet.delete (expandedFolders st1) key) newKey)
    else st1
  else st.

(** *** The elements that carry a path *)

(** How a rename ends: with the exception that left
    [updateFolderReferences], or with the folder it handed to
    [loadFilesCallback], if any. *)
Inductive RenameEnd : Type :=
| Thrown (e : JsError)
| Reloads (folder : option string).

(** [`[data-path="${value}"]`] for [op] [=], and
    [`[data-path^="${value}"]`] for [op] [^=]: the value is put between
    the quotes as it is. *)
Definition selector (op value : string) : string :=
  "[data-path" ++ op ++ String quote value ++ String quote "]".

Section Dom.
(** The elements of the page that carry [data-path], in document order,
    with [element.dataset.path] read and written. *)
Context {El : Type}.
Variable dataset_path : El -> string.
Variable set_dataset_path : El -> string -> El.
(** The selector engine of the browser: the elements that a selector text
    matches, and [None] for a text that is no selector, for which
    [querySelector] and [querySelectorAll] throw a [SyntaxError]. *)
Variable select : string -> option (El -> bool).

(** [const el = document.querySelector(sel); if (el) f(el)] for a valid
    selector: the first element that matches, if any. *)
Fixpoint update_first (matches : El -> bool) (f : El -> El) (dom : list El) : list El :=
  match dom with
  | [] => []
  | el :: dom' => if matches el then f el :: dom' else el :: update_first matches f dom'
  end.

(** [updateDOMPaths(oldPath, newPath)]: the elements afterwards, and the
    exception that leaves the function, if any. *)
Definition updateDOMPaths (oldPath newPath : string) (dom : list El)
  : list El * option JsError :=
  match select (selector "=" oldPath) with
  | None => (dom, Some SyntaxError)
  | Some renamed =>
      let dom1 := update_first renamed (fun el => set_dataset_path el newPath) dom in
      match select (selector "^=" (oldPath ++ "/")) with
      | None => (dom1, Some SyntaxError)
      | Some below =>
          (map (fun element =>
                  if below element
                  then set_dataset_path element (rebase oldPath newPath (dataset_path element))
                  else element)
               dom1,
           None)
      end
  end.

(** [updateFolderReferences(oldPath, newPath)]: [State] afterwards, the
    elements afterwards, and how the function ends.  [State] is rewritten
    before the elements are. *)
Definition updateFolderReferences
    (oldPath newPath : string) (st : State) (dom : list El)
  : State * (list El * RenameEnd) :=
  let st1 :=
    match JsObj.get (treeData st) oldPath with
    | Some v => set_treeData st (JsObj.delete (JsObj.set (treeData st) newPath v) oldPath)
    | None => st
    end in
  let st2 :=
    if JsSet.has (expandedFolders st1) oldPath
    then set_expandedFolders st1
           (JsSet.add (JsSet.delete (expandedFolders st1) oldPath) newPath)
    else st1 in
  let st3 :=
    if String.eqb (currentPath st2) oldPath then set_currentPath st2 newPath
    else if truthy (currentPath st2) && under oldPath (currentPath st2)
    then set_currentPath st2 (rebase oldPath newPath (currentPath st2))
    else st2 in
  let st4 :=
    match currentFile st3 with
    | Some f =>
        if truthy f && under oldPath f
        then set_currentFile st3 (Some (rebase oldPath newPath f))
        else st3
    | None => st3
    end in
  let st5 :=
    fold_left (updateFolderReferences_key oldPath newPath)
              (JsObj.keys (treeData st4)) st4 in
  (st5,
   match updateDOMPaths oldPath newPath dom with
   | (dom', Some e) => (dom', Thrown e)
   | (dom', None) =>
       (dom',
        Reloads
          (if String.eqb (currentPath st5) newPath
              || (truthy (currentPath st5) && under newPath (currentPath st5))
           then Some (currentPath st5) else None))
   end).

End Dom.

(** *** The expansion set after a rename *)

(** A tree in which folder [a] and its child [a/b] are expanded, while the
    listing of [a/b] is not in the cache: its load failed, or has not
    answered yet. *)
Definition uncached_child_state : State :=
  mkState
    [("", [mkItem "a" "a" "folder" None None None]);
     ("a", [mkItem "a/b" "b" "folder" None None None])]
    ["a"; "a/b"] "a" None.

End PathRewrite.
(* ================================================================== *)
(** ** The folder pane: Navigation.Tree *)

Module Tree.
Import JsString.

(** A [.tree-item] element of the folder tree, as the handlers read it:
    its identity, [dataset.path], whether its content is laid out
    ([offsetParent !== null]), and the state of its [.tree-children]. *)
Record TreeItemEl : Type := mkEl {
  el_id : nat;
  dataset_path : string;
  laid_out : bool;
  children_expanded : bool;
  children_count : nat
}.

(** [element.dataset.path = p] *)
Definition set_dataset_path (el : TreeItemEl) (p : string) : TreeItemEl :=
  mkEl (el_id el) p (laid_out el) (children_expanded el) (children_count el).

(** What [State.selectedTreeItem] holds: a tree item, or the object
    [{ dataset: { path } }] that [reloadTreePreservingState] puts in its
    place until [rebuildTree] has found the element again.  That object
    has a [dataset] and nothing else: no [querySelector]. *)
Inductive SelectedItem : Type :=
| Element (el : TreeItemEl)
| StandIn (path : string).

(** [State.selectedTreeItem.dataset.path] *)
Definition selected_path (s : SelectedItem) : string :=
  match s with
  | Element el => dataset_path el
  | StandIn p => p
  end.

(** The reply of [getFolderStats]. *)
Record Stats : Type := mkStats {
  status : string;
  folderCount : Z;
  fileCount : Z;
  totalSizeBytes : Z
}.

(** The text of the two footers, before number formatting. *)
Inductive Footer : Type :=
| FooterDashes
| FooterCounts (selection : option nat) (folders files bytes : Z).

(** A stats request in flight.  The branch for an empty selection captures
    no request id. *)
Inductive StatsRequest : Type :=
| StatsOfCurrent (folder : string)
| StatsOfSelection (requestId : Z) (uniqueRoots : list string).

(** The state the folder pane works on: the fields of this module's object
    ([selectedFolderPaths], [selectionAnchorPath], [_statsRequestId]), the
    fields of [State] it shares with the file pane, the footer, and the
    requests it has issued, oldest first. *)
Record Nav : Type := mkNav {
  selectedFolderPaths : JsSet.t;
  selectionAnchorPath : option string;
  statsRequestId : option Z;
  selectedTreeItem : option SelectedItem;
  expandedFolders : JsSet.t;
  currentPath : string;
  currentFile : option string;
  footer : Footer;
  statsRequests : list StatsRequest;
  childrenRequests : list string
}.

Definition set_selectedFolderPaths (n : Nav) (v : JsSet.t) : Nav :=
  mkNav v (selectionAnchorPath n) (statsRequestId n) (selectedTreeItem n)
        (expandedFolders n) (currentPath n) (currentFile n) (footer n)
        (statsRequests n) (childrenRequests n).
Definition set_selectionAnchorPath (n : Nav) (v : option string) : Nav :=
  mkNav (selectedFolderPaths n) v (statsRequestId n) (selectedTreeItem n)
        (expandedFolders n) (currentPath n) (currentFile n) (footer n)
        (statsRequests n) (childrenRequests n).
Definition set_statsRequestId (n : Nav) (v : option Z) : Nav :=
  mkNav (selectedFolderPaths n) (selectionAnchorPath n) v (selectedTreeItem n)
        (expandedFolders n) (currentPath n) (currentFile n) (footer n)
        (statsRequests n) (childrenRequests n).
Definition set_selectedTreeItem (n : Nav) (v : option SelectedItem) : Nav :=
  mkNav (selectedFolderPaths n) (selectionAnchorPath n) (statsRequestId n) v
        (expandedFolders n) (currentPath n) (currentFile n) (footer n)
        (statsRequests n) (childrenRequests n).
Definition set_expandedFolders (n : Nav) (v : JsSet.t) : Nav :=
  mkNav (selectedFolderPaths n) (selectionAnchorPath n) (statsRequestId n)
        (selectedTreeItem n) v (currentPath n) (currentFile n) (footer n)
        (statsRequests n) (childrenRequests n).
Definition set_currentPath (n : Nav) (v : string) : Nav :=
  mkNav (selectedFolderPaths n) (selectionAnchorPath n) (statsRequestId n)
        (selectedTreeItem n) (expandedFolders n) v (currentFile n) (footer n)
        (statsRequests n) (childrenRequests n).
Definition set_currentFile (n : Nav) (v : option string) : Nav :=
  mkNav (selectedFolderPaths n) (selectionAnchorPath n) (statsRequestId n)
        (selectedTreeItem n) (expandedFolders n) (currentPath n) v (footer n)
        (statsRequests n) (childrenRequests n).
Definition set_footer (n : Nav) (v : Footer) : Nav :=
  mkNav (selectedFolderPaths n) (selectionAnchorPath n) (statsRequestId n)
        (selectedTreeItem n) (expandedFolders n) (currentPath n) (currentFile n) v
        (statsRequests n) (childrenRequests n).
Definition push_statsRequest (n : Nav) (r : StatsRequest) : Nav :=
  mkNav (selectedFolderPaths n) (selectionAnchorPath n) (statsRequestId n)
        (selectedTreeItem n) (expandedFolders n) (currentPath n) (currentFile n)
        (footer n) (statsRequests n ++ [r])%list (childrenRequests n).
Definition push_childrenRequest (n : Nav) (p : string) : Nav :=
  mkNav (selectedFolderPaths n) (selectionAnchorPath n) (statsRequestId n)
        (selectedTreeItem n) (expandedFolders n) (currentPath n) (currentFile n)
        (footer n) (statsRequests n) (childrenRequests n ++ [p])%list.

(** [FilesManager.updateFolderStatsFooter(stats)]; the second component is
    [stats.selectionCount] when the caller sets it. *)
Definition updateFolderStatsFooter (stats : option (Stats * option nat)) : Footer :=
  match stats with
  | Some (s, sel) =>
      if String.eqb (status s) "success"
      then FooterCounts
             (match sel with
              | Some (S k) => Some (S k)
              | _ => None
              end)
             (folderCount s) (fileCount s) (totalSizeBytes s)
      else FooterDashes
  | None => FooterDashes
  end.

(** [selectedPaths.filter(p => !selectedPaths.some(other =>
      other !== p && p.startsWith(other + '/')))] *)
Definition uniqueRoots (selectedPaths : list string) : list string :=
  filter
    (fun p =>
       negb (existsb
               (fun other => negb (String.eqb other p) && startsWith p (other ++ "/"))
               selectedPaths))
    selectedPaths.

(** [updateSelectedFolderStats()] up to its [await]. *)
Definition updateSelectedFolderStats (n : Nav) : Nav :=
  let selectedPaths := selectedFolderPaths n in
  match selectedPaths with
  | [] => push_statsRequest n (StatsOfCurrent (currentPath n))
  | _ =>
      let roots := uniqueRoots selectedPaths in
      let requestId := (or0 (statsRequestId n) + 1)%Z in
      push_statsRequest (set_statsRequestId n (Some requestId))
                        (StatsOfSelection requestId roots)
  end.

(** [results.reduce(...)] over the replies for the selected roots. *)
Definition mergeStats (results : list (option Stats)) : Stats :=
  fold_left
    (fun acc r =>
       match r with
       | Some s =>
           if String.eqb (status s) "success"
           then mkStats (status acc)
                        (folderCount acc + folderCount s)
                        (fileCount acc + fileCount s)
                        (totalSizeBytes acc + totalSizeBytes s)
           else acc
       | None => acc
       end)
    results (mkStats "success" 0 0 0).

(** [updateSelectedFolderStats()] from its [await] on, for the branch of an
    empty selection. *)
Definition statsOfCurrent_settled (res : Settled Stats) (n : Nav) : Nav :=
  match res with
  | Fulfilled s => set_footer n (updateFolderStatsFooter (Some (s, None)))
  | Rejected => set_footer n (updateFolderStatsFooter None)
  end.

(** [this._statsRequestId === requestId], where the field may still be
    [undefined]. *)
Definition same_id (current : option Z) (requestId : Z) : bool :=
  match current with
  | Some c => Z.eqb c requestId
  | None => false
  end.

(** [updateSelectedFolderStats()] from its [await] on, for a selection. *)
Definition statsOfSelection_settled
    (requestId : Z) (roots : list string)
    (res : Settled (list (option Stats))) (n : Nav) : Nav :=
  match res with
  | Fulfilled results =>
      if negb (same_id (statsRequestId n) requestId) then n
      else set_footer n
             (updateFolderStatsFooter
                (Some (mergeStats results, Some (List.length roots))))
  | Rejected =>
      if negb (same_id (statsRequestId n) requestId) then n
      else set_footer n (updateFolderStatsFooter None)
  end.

(** [getVisibleFolderItems()] over the [.tree-item] elements in document
    order. *)
Definition getVisibleFolderItems (dom : list TreeItemEl) : list TreeItemEl :=
  filter laid_out dom.

(** [items.indexOf(targetItem)]: elements are compared by identity. *)
Definition indexOf (items : list TreeItemEl) (target : TreeItemEl) : option nat :=
  findIndex (fun el => Nat.eqb (el_id el) (el_id target)) items.

Definition clearFolderSelection (n : Nav) : Nav :=
  updateSelectedFolderStats (set_selectedFolderPaths n []).

Definition toggleFolderSelected
    (treeItem : TreeItemEl) (forceSelected : option bool) (n : Nav) : Nav :=
  let p := dataset_path treeItem in
  let isSelected := JsSet.has (selectedFolderPaths n) p in
  let shouldSelect :=
    match forceSelected with
    | None => negb isSelected
    | Some b => b
    end in
  updateSelectedFolderStats
    (set_selectedFolderPaths n
       (if shouldSelect then JsSet.add (selectedFolderPaths n) p
        else JsSet.delete (selectedFolderPaths n) p)).

(** [this.selectionAnchorPath || (State.selectedTreeItem ... dataset.path : null)],
    kept only when truthy, as [anchorPath ? ... : -1] tests it. *)
Definition anchorPath (n : Nav) : option string :=
  let fallback :=
    match selectedTreeItem n with
    | Some it => if truthy (selected_path it) then Some (selected_path it) else None
    | None => None
    end in
  match selectionAnchorPath n with
  | Some a => if truthy a then Some a else fallback
  | None => fallback
  end.

Definition selectFolderRange
    (dom : list TreeItemEl) (targetItem : TreeItemEl) (additive : bool) (n : Nav) : Nav :=
  let items := getVisibleFolderItems dom in
  match items with
  | [] => n
  | _ =>
      match indexOf items targetItem with
      | None => n
      | Some targetIndex =>
          let anchorIndex :=
            match anchorPath n with
            | Some a => findIndex (fun item => String.eqb (dataset_path item) a) items
            | None => None
            end in
          let pivot :=
            match anchorIndex with
            | Some a => a
            | None => targetIndex
            end in
          let startIndex := Nat.min pivot targetIndex in
          let endIndex := Nat.max pivot targetIndex in
          let n1 := if additive then n else set_selectedFolderPaths n [] in
          let n2 :=
            for_incl startIndex endIndex
              (fun i acc =>
                 match nth_error items i with
                 | Some item =>
                     set_selectedFolderPaths acc
                       (JsSet.add (selectedFolderPaths acc) (dataset_path item))
                 | None => acc
                 end)
              n1 in
          updateSelectedFolderStats n2
      end
  end.

Definition selectAllFolders (dom : list TreeItemEl) (n : Nav) : Nav :=
  let items := getVisibleFolderItems dom in
  let n1 := set_selectedFolderPaths n (JsSet.of_list (map dataset_path items)) in
  let n2 :=
    match items with
    | first :: _ => set_selectionAnchorPath n1 (Some (dataset_path first))
    | [] => n1
    end in
  updateSelectedFolderStats n2.

(** *** Deleting the selected folders *)

(** The paths the delete applies to: the selection, or the current tree
    item when the selection is empty. *)
Definition deleteSelectedFolders_selectedPaths (n : Nav) : list string :=
  match selectedFolderPaths n with
  | [] =>
      match selectedTreeItem n with
      | Some it => [selected_path it]
      | None => []
      end
  | l => l
  end.

(** How a confirmed delete ends: with the status message of the failure, or
    with the tree reload it asks for. *)
Inductive DeleteOutcome : Type :=
| DeleteFailed (message : string)
| DeleteReload (expandedPaths : list string) (selectedPath : option string).

Section Delete.
(** The remote service: [API.deleteFolder(path, recursive)] takes the
    remote state to a new one and either resolves or rejects; a rejection
    carries [err.data.error] when the service sent one. *)
Context {Remote : Type}.
Variable deleteFolder : string -> bool -> Remote -> Remote * option (option string).

(** The [onItem] callback of [deleteSelectedFolders]. *)
Definition deleteFolder_onItem (p : string) (i : nat) (w : Nav * Remote)
  : (Nav * Remote) * option (option string) :=
  let '(n, r) := w in
  match deleteFolder p false r with
  | (r1, Some err) => ((n, r1), Some err)
  | (r1, None) =>
      let n1 :=
        if truthy (currentPath n) && PathRewrite.selfOrUnder p (currentPath n)
        then set_currentPath n "" else n in
      let n2 :=
        match currentFile n1 with
        | Some f =>
            if truthy f && PathRewrite.selfOrUnder p f
            then set_currentFile n1 None else n1
        | None => n1
        end in
      ((n2, r1), None)
  end.

(** [deleteSelectedFolders()] from the confirmation on.  Nothing happens
    when nothing is selected. *)
Definition deleteSelectedFolders_confirmed (n : Nav) (r : Remote)
  : (Nav * Remote) * list (Utilities.Event string) * option DeleteOutcome :=
  let selectedPaths := deleteSelectedFolders_selectedPaths n in
  match selectedPaths with
  | [] => ((n, r), [], None)
  | _ =>
      let roots := uniqueRoots selectedPaths in
      match Utilities.runBulkOperation deleteFolder_onItem
              "Deleting folders" roots (n, r) [] with
      | (w, log, Some err) =>
          let message :=
            match err with
            | Some e => if truthy e then e else "Error deleting folder"
            | None => "Error deleting folder"
            end in
          (w, log, Some (DeleteFailed message))
      | ((n1, r1), log, None) =>
          let gone (p : string) := existsb (fun root => PathRewrite.selfOrUnder root p) roots in
          let expandedPaths := filter (fun p => negb (gone p)) (expandedFolders n1) in
          let preservedSelectedPath :=
            match selectedTreeItem n1 with
            | Some it =>
                if truthy (selected_path it) && gone (selected_path it)
                then None else Some (selected_path it)
            | None => None
            end in
          ((clearFolderSelection n1, r1), log,
           Some (DeleteReload expandedPaths preservedSelectedPath))
      end
  end.

End Delete.

Section DeleteRequests.
Context {Remote : Type}.
Variable deleteFolder : string -> bool -> Remote -> Remote * option (option string).

(** The remote service together with a record of the calls of
    [API.deleteFolder] it has received, oldest first, each with its two
    arguments.  A call is recorded whether it resolves or rejects. *)
Definition recording (p : string) (recursive : bool) (w : Remote * list (string * bool))
  : (Remote * list (string * bool)) * option (option string) :=
  let '(r, received) := w in
  let '(r1, res) := deleteFolder p recursive r in
  ((r1, (received ++ [(p, recursive)])%list), res).

(** The calls of [API.deleteFolder] that a confirmed delete makes, in
    order: what the service has received when [deleteSelectedFolders]
    is through with its requests. *)
Definition deleteRequests (n : Nav) (r : Remote) : list (string * bool) :=
  snd (snd (fst (fst (deleteSelectedFolders_confirmed recording n (r, []))))).

End DeleteRequests.

(** *** Clicking a folder *)

Section Click.
(** The callback given to [init]; it is code of the application shell. *)
Variable selectTreeItemCallback : TreeItemEl -> option bool -> Nav -> Nav.

(** [content.onclick] of the tree item [div].  [item] is the entry of the
    listing that [createTreeItem] was called with: the handler closes over
    it and reads [item.path], while the selection works on
    [div.dataset.path].  The second component is the exception that leaves
    the handler, if any: collapsing the previous item starts with
    [previousItem.querySelector], which the stand-in object does not
    have.  The actions menus, which every click closes first, and the
    classes of the elements are not part of this state. *)
Definition content_onclick
    (dom : list TreeItemEl) (div : TreeItemEl) (item : Item)
    (shiftKey ctrlKey : bool) (n : Nav) : Nav * option JsError :=
  if shiftKey then
    (selectTreeItemCallback div (Some false)
       (set_selectionAnchorPath (selectFolderRange dom div ctrlKey n)
          (Some (dataset_path div))), None)
  else if ctrlKey then
    (selectTreeItemCallback div (Some false)
       (set_selectionAnchorPath (toggleFolderSelected div None n)
          (Some (dataset_path div))), None)
  else
    let n1 := clearFolderSelection n in
    let n2 := toggleFolderSelected div (Some true) n1 in
    let n3 := set_selectionAnchorPath n2 (Some (dataset_path div)) in
    let collapse :=
      match selectedTreeItem n3 with
      | Some previousItem =>
          let other :=
            match previousItem with
            | Element el => negb (Nat.eqb (el_id el) (el_id div))
            | StandIn _ => true
            end in
          if other then
            let previousPath := selected_path previousItem in
            let isAncestor :=
              truthy previousPath && truthy (path item)
              && startsWith (path item) (previousPath ++ "/") in
            if truthy previousPath && negb isAncestor
               && JsSet.has (expandedFolders n3) previousPath
            then
              match previousItem with
              | Element _ =>
                  (set_expandedFolders n3 (JsSet.delete (expandedFolders n3) previousPath),
                   None)
              | StandIn _ => (n3, Some TypeError)
              end
            else (n3, None)
          else (n3, None)
      | None => (n3, None)
      end in
    match collapse with
    | (n3', Some err) => (n3', Some err)
    | (n4, None) =>
        let n5 := selectTreeItemCallback div None n4 in
        let isExpanded := children_expanded div in
        (if negb isExpanded then
           let n6 :=
             if Nat.eqb (children_count div) 0
             then push_childrenRequest n5 (path item) else n5 in
           set_expandedFolders n6 (JsSet.add (expandedFolders n6) (path item))
         else
           set_expandedFolders n5 (JsSet.delete (expandedFolders n5) (path item)),
         None)
    end.

End Click.

(** *** Inline rename of a folder *)

(** The state of the navigation state machine, which is code of the
    application shell. *)
Inductive NavMode : Type :=
| NORMAL
| INLINE_EDIT (element : nat).

Record FolderEditData : Type := mkFolderEditData {
  originalName : string;
  edit_path : string;
  edit_element : nat
}.

(** The fields of [State] that record an inline folder rename. *)
Record FolderEdit : Type := mkFolderEdit {
  editingFolder : option nat;
  editingFolderData : option FolderEditData;
  isRenamingFolder : bool;
  navMode : NavMode
}.

Definition startFolderRename
    (folderElement : TreeItemEl) (item : Item) (st : FolderEdit) : FolderEdit :=
  let blocked :=
    match editingFolder st with
    | Some e => negb (Nat.eqb e (el_id folderElement))
    | None => false
    end in
  if blocked then st
  else if isRenamingFolder st then st
  else
    mkFolderEdit
      (Some (el_id folderElement))
      (Some (mkFolderEditData (name item) (path item) (el_id folderElement)))
      true
      (INLINE_EDIT (el_id folderElement)).

Definition cancelFolderRename (st : FolderEdit) : FolderEdit :=
  match editingFolderData st with
  | None => st
  | Some _ => mkFolderEdit None None false NORMAL
  end.

(** The character class of [invalidChars]: less-than, greater-than, colon,
    double quote, bar, question mark, star, and the control characters
    0x00 to 0x1f. *)
Definition invalidChar (c : ascii) : bool :=
  existsb (Ascii.eqb c) ["<"; ">"; ":"; quote; "|"; "?"; "*"]%char
  || (nat_of_ascii c <=? 31)%nat.

Fixpoint invalidChars_test (s : string) : bool :=
  match s with
  | EmptyString => false
  | String c s' => invalidChar c || invalidChars_test s'
  end.

Definition reservedNames : list string :=
  ["CON"; "PRN"; "AUX"; "NUL"; "COM1"; "COM2"; "COM3"; "COM4";
   "COM5"; "COM6"; "COM7"; "COM8"; "COM9"; "LPT1"; "LPT2";
   "LPT3"; "LPT4"; "LPT5"; "LPT6"; "LPT7"; "LPT8"; "LPT9"].

Section Save.
(** The trimming and the case mapping are those of the engine. *)
Context {engine : Engine}.

(** [saveFolderName], up to its first request. *)
Definition saveFolderName (input_value : string) (item : Item) : RenameStep :=
  let newName := trim input_value in
  if negb (truthy newName) || String.eqb newName (name item) then RenameCancelled
  else if includes newName "/" || includes newName "\" || invalidChars_test newName
  then RenameRejected "Invalid name"
  else if existsb (String.eqb (toUpperCase newName)) reservedNames
  then RenameRejected "Reserved name"
  else RenameRequested (Some (path item)) newName.

End Save.

(** *** Filtering and sorting a listing *)

Section Listing.
(** The case mapping is that of the engine. *)
Context {engine : Engine}.
(** [String.prototype.localeCompare], which depends on the locale of the
    browser. *)
Variable localeCompare : string -> string -> Z.

(** The comparator of [sortItems]. *)
Definition sortItems_cmp (s : SortSetting) (a b : Item) : Z :=
  let comparison :=
    if String.eqb (method s) "name"
    then localeCompare (toLowerCase (name a)) (toLowerCase (name b))
    else if String.eqb (method s) "date"
    then (or0 (created a) - or0 (created b))%Z
    else if String.eqb (method s) "size"
    then (or0 (size a) - or0 (size b))%Z
    else 0%Z in
  if String.eqb (direction s) "asc" then comparison else (- comparison)%Z.

(** The predicate of [filterTreeItems] for a filter that is not empty. *)
Definition matchesFilter (filterText : string) (item : Item) : bool :=
  includes (toLowerCase (name item)) (toLowerCase filterText).

Definition isFolder (item : Item) : bool := String.eqb (type item) "folder".

(** [filterTreeItems(items, filterText)]: the array itself when there is
    no filter, a new array otherwise. *)
Definition filterTreeItems
    (h : Heap.t Item) (items : Heap.ref) (filterText : string) : Heap.t Item * Heap.ref :=
  if negb (truthy filterText) then (h, items)
  else Heap.alloc h (filter (matchesFilter filterText) (Heap.read h items)).

(** [sortItems(items)]: sorts the array in place and returns it. *)
Definition sortItems
    (s : SortSetting) (h : Heap.t Item) (items : Heap.ref) : Heap.t Item * Heap.ref :=
  (Heap.write h items (Array_sort (sortItems_cmp s) (Heap.read h items)), items).

(** The subtree cache and what a rebuild reads besides it. *)
Record Cache : Type := mkCache {
  heap : Heap.t Item;
  treeData : JsObj.t Heap.ref;
  expanded : JsSet.t;
  foldersFilter : string;
  foldersSort : SortSetting
}.

Definition set_heap (c : Cache) (h : Heap.t Item) : Cache :=
  mkCache h (treeData c) (expanded c) (foldersFilter c) (foldersSort c).

(** [createTreeItem(item, level)], as far as it touches the cache: the
    children of an expanded folder are filtered, sorted and created in
    turn.  The recursion follows the cached listings; [fuel] bounds its
    depth. *)
Fixpoint createTreeItem (fuel : nat) (item : Item) (c : Cache) : Cache :=
  match fuel with
  | O => c
  | S fuel' =>
      match JsObj.get (treeData c) (path item) with
      | Some r =>
          if (0 <? List.length (Heap.read (heap c) r))%nat
             && JsSet.has (expanded c) (path item)
          then
            let '(h1, filteredChildren) := filterTreeItems (heap c) r (foldersFilter c) in
            let '(h2, sortedItems) := sortItems (foldersSort c) h1 filteredChildren in
            fold_left
              (fun acc child =>
                 if isFolder child then createTreeItem fuel' child acc else acc)
              (Heap.read h2 sortedItems) (set_heap c h2)
          else c
      | None => c
      end
  end.

(** [State.treeData[path] || []] *)
Definition cached_or_empty (c : Cache) (p : string) : Heap.t Item * Heap.ref :=
  match JsObj.get (treeData c) p with
  | Some r => (heap c, r)
  | None => Heap.alloc (heap c) []
  end.

(** [rebuildChildren(path, container, level)]: the new cache, and the
    items for which a tree item is appended to the container, in order. *)
Definition rebuildChildren (fuel : nat) (p : string) (c : Cache) : Cache * list Item :=
  let '(h0, items) := cached_or_empty c p in
  let '(h1, filteredItems) := filterTreeItems h0 items (foldersFilter c) in
  let '(h2, sortedItems) := sortItems (foldersSort c) h1 filteredItems in
  let shown := filter isFolder (Heap.read h2 sortedItems) in
  (fold_left (fun acc item => createTreeItem fuel item acc) shown (set_heap c h2), shown).

(** [buildTreeFromData()], as far as it touches the cache and the tree:
    the same steps on the listing of the root. *)
Definition buildTreeFromData (fuel : nat) (c : Cache) : Cache * list Item :=
  rebuildChildren fuel "" c.

(** *** What a rebuild does to the store, in terms used by the proofs *)


(** What the filter keeps, as a list. *)
Definition filtered (filterText : string) (content : list Item) : list Item :=
  if negb (truthy filterText) then content
  else filter (matchesFilter filterText) content.


(** Filtering and sorting the listing cached under reference [r]: the part
    of a rebuild that writes to the store. *)
Definition filter_sort_step (c : Cache) (r : Heap.ref) : Cache :=
  let '(h1, filteredItems) := filterTreeItems (heap c) r (foldersFilter c) in
  let '(h2, _) := sortItems (foldersSort c) h1 filteredItems in
  set_heap c h2.

(** A rebuild changes the store only. *)
Definition same_settings (c c' : Cache) : Prop :=
  treeData c' = treeData c /\ expanded c' = expanded c /\
  foldersFilter c' = foldersFilter c /\ foldersSort c' = foldersSort c.

(** With a filter, the old arrays keep their content: the store only gains
    arrays. *)
Definition keeps_old (h h' : Heap.t Item) : Prop :=
  (List.length h <= List.length h')%nat /\
  forall r, Heap.allocated h r -> Heap.read h' r = Heap.read h r.

Definition filtered_rebuild (c c' : Cache) : Prop :=
  same_settings c c' /\
  (truthy (foldersFilter c) = true -> keeps_old (heap c) (heap c')).

(** Without a filter, every array holds what it held or that sorted. *)
Definition sorted_or_same (cmp : Item -> Item -> Z) (h h' : Heap.t Item) : Prop :=
  forall r, Heap.read h' r = Heap.read h r \/
            Heap.read h' r = Array_sort cmp (Heap.read h r).

Definition unfiltered_rebuild (c c' : Cache) : Prop :=
  same_settings c c' /\
  (truthy (foldersFilter c) = false ->
   sorted_or_same (sortItems_cmp (foldersSort c)) (heap c) (heap c')).

End Listing.

(** *** Example states *)


(** The selection holds the folders [Z], [Z/A] and [Z/A/B]. *)
Definition nested_selection : Nav :=
  mkNav ["Z"; "Z/A"; "Z/A/B"] (Some "Z") (Some 3%Z) None [] "" None
        FooterDashes [] [].

(** A remote service that deletes whatever it is asked to. *)
Definition deletes_all (p : string) (recursive : bool) (remote : list string)
  : list string * option (option string) :=
  (filter (fun q => negb (PathRewrite.selfOrUnder p q)) remote, None).


(** The shell's callback, as far as the folder pane can tell: it records
    the clicked item as the current one. *)
Definition shell_selectTreeItem
    (el : TreeItemEl) (flag : option bool) (n : Nav) : Nav :=
  set_selectedTreeItem n (Some (Element el)).

(** Folder [A] is current and expanded; its child [A/sub] and its sibling
    [B] are visible. *)
Definition A_expanded : Nav :=
  mkNav ["A"] (Some "A") (Some 1%Z) (Some (Element (mkEl 1 "A" true true 1)))
        ["A"] "A" None (FooterCounts (Some 1%nat) 1 10 100) [] [].

End Tree.

(* ================================================================== *)
(** ** The file pane: Files.Manager *)

Module Files.
Import JsString.

(** An [li] of the file list, as the handlers read it. *)
Record ListItemEl : Type := mkLi {
  li_id : nat;
  dataset_filepath : string;
  aria_hidden : bool;
  keyboard_focus : bool
}.

(** The reply of [getMetadata].  A missing standard field reads as the
    empty string, a missing [all_fields] as no entries. *)
Record Metadata : Type := mkMetadata {
  md_title : string;
  md_artist : string;
  md_album : string;
  md_albumartist : string;
  md_date : string;
  md_genre : string;
  md_composer : string;
  md_track : string;
  md_disc : string;
  md_all_fields : list (string * option string);
  md_format : string;
  md_hasLimitedMetadata : bool;
  md_supportsAlbumArt : bool;
  md_supportedFields : option (list string);
  md_hasArt : bool;
  md_art : string
}.

(** What the album art box shows. *)
Inductive ArtDisplay : Type :=
| ArtUntouched
| ArtUnsupported (format : string)
| ArtImage (base64 : string)
| ArtPlaceholder.

(** Calls into the collaborators: the audio player, the inference and
    transition modules, the button status module, the metadata editor, the
    history, the timers, and the reloading of the file list. *)
Inductive Call : Type :=
| StopPlayback
| HideInferenceSuggestions (field : string)
| StopAllMonitoring
| ClearTimeout (timer : nat)
| ClearAllButtonStatuses
| RenderMetadataFields (data : Metadata)
| LoadFiles (folder : string)
| LoadHistory.

(** What the metadata panel shows. *)
Record Panel : Type := mkPanel {
  filenameText : string;
  sectionShown : bool;
  filenameEditing : bool;
  loading : bool;
  formEnabled : bool;
  applyControlsVisible : bool;
  disabledFields : list string;
  art : ArtDisplay;
  uploadEnabled : bool;
  deleteArtShown : bool
}.

Definition set_filenameText (p : Panel) (v : string) : Panel :=
  mkPanel v (sectionShown p) (filenameEditing p) (loading p) (formEnabled p)
          (applyControlsVisible p) (disabledFields p) (art p)
          (uploadEnabled p) (deleteArtShown p).
Definition set_sectionShown (p : Panel) (v : bool) : Panel :=
  mkPanel (filenameText p) v (filenameEditing p) (loading p) (formEnabled p)
          (applyControlsVisible p) (disabledFields p) (art p)
          (uploadEnabled p) (deleteArtShown p).
Definition set_filenameEditing (p : Panel) (v : bool) : Panel :=
  mkPanel (filenameText p) (sectionShown p) v (loading p) (formEnabled p)
          (applyControlsVisible p) (disabledFields p) (art p)
          (uploadEnabled p) (deleteArtShown p).
Definition set_loading (p : Panel) (v : bool) : Panel :=
  mkPanel (filenameText p) (sectionShown p) (filenameEditing p) v
          (formEnabled p) (applyControlsVisible p) (disabledFields p) (art p)
          (uploadEnabled p) (deleteArtShown p).
Definition set_formEnabled (p : Panel) (v : bool) : Panel :=
  mkPanel (filenameText p) (sectionShown p) (filenameEditing p) (loading p) v
          (applyControlsVisible p) (disabledFields p) (art p)
          (uploadEnabled p) (deleteArtShown p).
Definition set_applyControlsVisible (p : Panel) (v : bool) : Panel :=
  mkPanel (filenameText p) (sectionShown p) (filenameEditing p) (loading p)
          (formEnabled p) v (disabledFields p) (art p) (uploadEnabled p)
          (deleteArtShown p).
Definition set_disabledFields (p : Panel) (v : list string) : Panel :=
  mkPanel (filenameText p) (sectionShown p) (filenameEditing p) (loading p)
          (formEnabled p) (applyControlsVisible p) v (art p) (uploadEnabled p)
          (deleteArtShown p).
Definition set_art (p : Panel) (v : ArtDisplay) : Panel :=
  mkPanel (filenameText p) (sectionShown p) (filenameEditing p) (loading p)
          (formEnabled p) (applyControlsVisible p) (disabledFields p) v
          (uploadEnabled p) (deleteArtShown p).
Definition set_uploadEnabled (p : Panel) (v : bool) : Panel :=
  mkPanel (filenameText p) (sectionShown p) (filenameEditing p) (loading p)
          (formEnabled p) (applyControlsVisible p) (disabledFields p) (art p)
          v (deleteArtShown p).
Definition set_deleteArtShown (p : Panel) (v : bool) : Panel :=
  mkPanel (filenameText p) (sectionShown p) (filenameEditing p) (loading p)
          (formEnabled p) (applyControlsVisible p) (disabledFields p) (art p)
          (uploadEnabled p) v.

(** The fields of this module's object and of [State] that the file pane
    works on, the status line, and the calls made so far. *)
Record Mgr : Type := mkMgr {
  selectedFilePaths : JsSet.t;
  selectionAnchorPath : option string;
  selectedListItem : option ListItemEl;
  currentPath : string;
  currentFile : option string;
  originalFilename : string;
  loadFileRequestId : Z;
  loadFileDebounceTimer : option nat;
  originalMetadata : JsObj.t string;
  metadata : option Metadata;
  currentAlbumArt : option string;
  pendingAlbumArt : option string;
  panel : Panel;
  statusLine : option (string * string);
  calls : list Call
}.

Definition set_selectedFilePaths (m : Mgr) (v : JsSet.t) : Mgr :=
  mkMgr v (selectionAnchorPath m) (selectedListItem m) (currentPath m)
        (currentFile m) (originalFilename m) (loadFileRequestId m)
        (loadFileDebounceTimer m) (originalMetadata m) (metadata m)
        (currentAlbumArt m) (pendingAlbumArt m) (panel m) (statusLine m)
        (calls m).
Definition set_selectionAnchorPath (m : Mgr) (v : option string) : Mgr :=
  mkMgr (selectedFilePaths m) v (selectedListItem m) (currentPath m)
        (currentFile m) (originalFilename m) (loadFileRequestId m)
        (loadFileDebounceTimer m) (originalMetadata m) (metadata m)
        (currentAlbumArt m) (pendingAlbumArt m) (panel m) (statusLine m)
        (calls m).
Definition set_selectedListItem (m : Mgr) (v : option ListItemEl) : Mgr :=
  mkMgr (selectedFilePaths m) (selectionAnchorPath m) v (currentPath m)
        (currentFile m) (originalFilename m) (loadFileRequestId m)
        (loadFileDebounceTimer m) (originalMetadata m) (metadata m)
        (currentAlbumArt m) (pendingAlbumArt m) (panel m) (statusLine m)
        (calls m).
Definition set_currentPath (m : Mgr) (v : string) : Mgr :=
  mkMgr (selectedFilePaths m) (selectionAnchorPath m) (selectedListItem m) v
        (currentFile m) (originalFilename m) (loadFileRequestId m)
        (loadFileDebounceTimer m) (originalMetadata m) (metadata m)
        (currentAlbumArt m) (pendingAlbumArt m) (panel m) (statusLine m)
        (calls m).
Definition set_currentFile (m : Mgr) (v : option string) : Mgr :=
  mkMgr (selectedFilePaths m) (selectionAnchorPath m) (selectedListItem m)
        (currentPath m) v (originalFilename m) (loadFileRequestId m)
        (loadFileDebounceTimer m) (originalMetadata m) (metadata m)
        (currentAlbumArt m) (pendingAlbumArt m) (panel m) (statusLine m)
        (calls m).
Definition set_originalFilename (m : Mgr) (v : string) : Mgr :=
  mkMgr (selectedFilePaths m) (selectionAnchorPath m) (selectedListItem m)
        (currentPath m) (currentFile m) v (loadFileRequestId m)
        (loadFileDebounceTimer m) (originalMetadata m) (metadata m)
        (currentAlbumArt m) (pendingAlbumArt m) (panel m) (statusLine m)
        (calls m).
Definition set_loadFileRequestId (m : Mgr) (v : Z) : Mgr :=
  mkMgr (selectedFilePaths m) (selectionAnchorPath m) (selectedListItem m)
        (currentPath m) (currentFile m) (originalFilename m) v
        (loadFileDebounceTimer m) (originalMetadata m) (metadata m)
        (currentAlbumArt m) (pendingAlbumArt m) (panel m) (statusLine m)
        (calls m).
Definition set_loadFileDebounceTimer (m : Mgr) (v : option nat) : Mgr :=
  mkMgr (selectedFilePaths m) (selectionAnchorPath m) (selectedListItem m)
        (currentPath m) (currentFile m) (originalFilename m)
        (loadFileRequestId m) v (originalMetadata m) (metadata m)
        (currentAlbumArt m) (pendingAlbumArt m) (panel m) (statusLine m)
        (calls m).
Definition set_originalMetadata (m : Mgr) (v : JsObj.t string) : Mgr :=
  mkMgr (selectedFilePaths m) (selectionAnchorPath m) (selectedListItem m)
        (currentPath m) (currentFile m) (originalFilename m)
        (loadFileRequestId m) (loadFileDebounceTimer m) v (metadata m)
        (currentAlbumArt m) (pendingAlbumArt m) (panel m) (statusLine m)
        (calls m).
Definition set_metadata (m : Mgr) (v : option Metadata) : Mgr :=
  mkMgr (selectedFilePaths m) (selectionAnchorPath m) (selectedListItem m)
        (currentPath m) (currentFile m) (originalFilename m)
        (loadFileRequestId m) (loadFileDebounceTimer m) (originalMetadata m) v
        (currentAlbumArt m) (pendingAlbumArt m) (panel m) (statusLine m)
        (calls m).
Definition set_currentAlbumArt (m : Mgr) (v : option string) : Mgr :=
  mkMgr (selectedFilePaths m) (selectionAnchorPath m) (selectedListItem m)
        (currentPath m) (currentFile m) (originalFilename m)
        (loadFileRequestId m) (loadFileDebounceTimer m) (originalMetadata m)
        (metadata m) v (pendingAlbumArt m) (panel m) (statusLine m) (calls m).
Definition set_pendingAlbumArt (m : Mgr) (v : option string) : Mgr :=
  mkMgr (selectedFilePaths m) (selectionAnchorPath m) (selectedListItem m)
        (currentPath m) (currentFile m) (originalFilename m)
        (loadFileRequestId m) (loadFileDebounceTimer m) (originalMetadata m)
        (metadata m) (currentAlbumArt m) v (panel m) (statusLine m) (calls m).
Definition set_panel (m : Mgr) (v : Panel) : Mgr :=
  mkMgr (selectedFilePaths m) (selectionAnchorPath m) (selectedListItem m)
        (currentPath m) (currentFile m) (originalFilename m)
        (loadFileRequestId m) (loadFileDebounceTimer m) (originalMetadata m)
        (metadata m) (currentAlbumArt m) (pendingAlbumArt m) v (statusLine m)
        (calls m).
Definition set_statusLine (m : Mgr) (v : option (string * string)) : Mgr :=
  mkMgr (selectedFilePaths m) (selectionAnchorPath m) (selectedListItem m)
        (currentPath m) (currentFile m) (originalFilename m)
        (loadFileRequestId m) (loadFileDebounceTimer m) (originalMetadata m)
        (metadata m) (currentAlbumArt m) (pendingAlbumArt m) (panel m) v
        (calls m).
Definition set_calls (m : Mgr) (v : list Call) : Mgr :=
  mkMgr (selectedFilePaths m) (selectionAnchorPath m) (selectedListItem m)
        (currentPath m) (currentFile m) (originalFilename m)
        (loadFileRequestId m) (loadFileDebounceTimer m) (originalMetadata m)
        (metadata m) (currentAlbumArt m) (pendingAlbumArt m) (panel m)
        (statusLine m) v.

Definition call (m : Mgr) (c : Call) : Mgr := set_calls m (calls m ++ [c])%list.

(** The nine fields that every format has an input for. *)
Definition standardFields : list string :=
  ["title"; "artist"; "album"; "albumartist"; "date"; "genre"; "composer";
   "track"; "disc"].

(** [UIUtils.showStatus], [UIUtils.hideStatus], [UIUtils.setFormEnabled],
    as far as the metadata panel shows them.  [setFormEnabled] writes
    [disabled] of every input of the form, those of the nine fields among
    them: enabling the form also enables an input that was disabled
    because the format does not support its field. *)
Definition showStatus (message kind : string) (m : Mgr) : Mgr :=
  set_statusLine m (Some (message, kind)).
Definition hideStatus (m : Mgr) : Mgr := set_statusLine m None.
Definition setFormEnabled (b : bool) (m : Mgr) : Mgr :=
  set_panel m
    (set_disabledFields (set_formEnabled (panel m) b)
       (if b then [] else standardFields)).

Definition cancelFilenameEdit (m : Mgr) : Mgr :=
  set_panel m (set_filenameEditing (panel m) false).

(** *** Selection *)

Definition getVisibleFileItems (dom : list ListItemEl) : list ListItemEl :=
  filter (fun li => negb (aria_hidden li) && truthy (dataset_filepath li)) dom.

Definition indexOf (items : list ListItemEl) (target : ListItemEl) : option nat :=
  findIndex (fun li => Nat.eqb (li_id li) (li_id target)) items.

Definition clearFileSelection (m : Mgr) : Mgr := set_selectedFilePaths m [].

Definition toggleFileSelected
    (listItem : ListItemEl) (forceSelected : option bool) (m : Mgr) : Mgr :=
  let p := dataset_filepath listItem in
  let isSelected := JsSet.has (selectedFilePaths m) p in
  let shouldSelect :=
    match forceSelected with
    | None => negb isSelected
    | Some b => b
    end in
  set_selectedFilePaths m
    (if shouldSelect then JsSet.add (selectedFilePaths m) p
     else JsSet.delete (selectedFilePaths m) p).

(** [this.selectionAnchorPath || (State.selectedListItem ... dataset.filepath : null)],
    kept only when truthy. *)
Definition anchorPath (m : Mgr) : option string :=
  let fallback :=
    match selectedListItem m with
    | Some li => if truthy (dataset_filepath li) then Some (dataset_filepath li) else None
    | None => None
    end in
  match selectionAnchorPath m with
  | Some a => if truthy a then Some a else fallback
  | None => fallback
  end.

Definition selectFileRange
    (dom : list ListItemEl) (targetItem : ListItemEl) (additive : bool) (m : Mgr) : Mgr :=
  let items := getVisibleFileItems dom in
  match items with
  | [] => m
  | _ =>
      match indexOf items targetItem with
      | None => m
      | Some targetIndex =>
          let anchorIndex :=
            match anchorPath m with
            | Some a => findIndex (fun item => String.eqb (dataset_filepath item) a) items
            | None => None
            end in
          let pivot :=
            match anchorIndex with
            | Some a => a
            | None => targetIndex
            end in
          let startIndex := Nat.min pivot targetIndex in
          let endIndex := Nat.max pivot targetIndex in
          let m1 := if additive then m else clearFileSelection m in
          for_incl startIndex endIndex
            (fun i acc =>
               match nth_error items i with
               | Some item => toggleFileSelected item (Some true) acc
               | None => acc
               end)
            m1
      end
  end.

Definition selectAllFiles (dom : list ListItemEl) (m : Mgr) : Mgr :=
  let items := getVisibleFileItems dom in
  let m1 := set_selectedFilePaths m (JsSet.of_list (map dataset_filepath items)) in
  match items with
  | first :: _ => set_selectionAnchorPath m1 (Some (dataset_filepath first))
  | [] => m1
  end.

(** *** Deleting the selected files *)

Definition deleteSelectedFiles_selectedPaths (m : Mgr) : list string :=
  match selectedFilePaths m with
  | [] =>
      match selectedListItem m with
      | Some li => [dataset_filepath li]
      | None => []
      end
  | l => l
  end.

Section Delete.
(** [API.deleteFile(path)]: the remote state after the call, and the
    rejection, which carries [err.data.error] when the service sent one. *)
Context {Remote : Type}.
Variable deleteFile : string -> Remote -> Remote * option (option string).

(** The [onItem] callback of [deleteSelectedFiles]. *)
Definition deleteFile_onItem (p : string) (i : nat) (w : Mgr * Remote)
  : (Mgr * Remote) * option (option string) :=
  let '(m, r) := w in
  match deleteFile p r with
  | (r1, Some err) => ((m, r1), Some err)
  | (r1, None) =>
      let m1 :=
        match currentFile m with
        | Some f =>
            if String.eqb f p then
              let m' := call m StopPlayback in
              let m' := set_currentFile m' None in
              let m' := set_originalFilename m' "" in
              let m' := set_selectedListItem m' None in
              set_panel m' (set_filenameText (set_sectionShown (panel m') false) "")
            else m
        | None => m
        end in
      ((m1, r1), None)
  end.

(** [deleteSelectedFiles()] from the confirmation on. *)
Definition deleteSelectedFiles_confirmed (m : Mgr) (r : Remote)
  : (Mgr * Remote) * list (Utilities.Event string) :=
  let selectedPaths := deleteSelectedFiles_selectedPaths m in
  match selectedPaths with
  | [] => ((m, r), [])
  | _ =>
      match Utilities.runBulkOperation deleteFile_onItem
              "Deleting files" selectedPaths (m, r) [] with
      | ((m1, r1), log, Some err) =>
          let message :=
            match err with
            | Some e => if truthy e then e else "Error deleting file"
            | None => "Error deleting file"
            end in
          ((showStatus message "error" m1, r1), log)
      | ((m1, r1), log, None) =>
          let m2 := clearFileSelection m1 in
          let m3 := call m2 (LoadFiles (currentPath m2)) in
          ((call m3 LoadHistory, r1), log)
      end
  end.

End Delete.

(** *** Loading the metadata of a file *)

(** A metadata request in flight: the id it captured, and what the rest of
    [loadFile] still reads. *)
Record MetadataRequest : Type := mkRequest {
  requestId : Z;
  req_filepath : string;
  req_listItem : ListItemEl
}.

Section Load.
(** The case mapping is that of the engine. *)
Context {engine : Engine}.
(** The callback given to [init]; it is code of the application shell. *)
Variable selectFileItemCallback : ListItemEl -> option bool -> Mgr -> Mgr.

(** [loadFile(filepath, listItem)] up to its [await]. *)
Definition loadFile (filepath : string) (listItem : ListItemEl) (m : Mgr)
  : Mgr * MetadataRequest :=
  let requestId := (loadFileRequestId m + 1)%Z in
  let m := set_loadFileRequestId m requestId in
  let m := call m StopPlayback in
  let m := fold_left (fun acc field => call acc (HideInferenceSuggestions field))
                     standardFields m in
  let m := call m StopAllMonitoring in
  let m :=
    match loadFileDebounceTimer m with
    | Some t => set_loadFileDebounceTimer (call m (ClearTimeout t)) None
    | None => m
    end in
  let m := selectFileItemCallback listItem None m in
  let m := set_currentFile m (Some filepath) in
  let m := set_originalFilename m (split_pop "/" filepath) in
  let m := set_panel m
             (set_loading
                (set_sectionShown
                   (set_filenameText (panel m) (originalFilename m)) true) true) in
  let m := call m ClearAllButtonStatuses in
  let m := cancelFilenameEdit m in
  let m := hideStatus m in
  let m := set_panel m (set_applyControlsVisible (panel m) false) in
  let m := if keyboard_focus listItem
           then showStatus "Loading metadata..." "success" m else m in
  let m := set_currentAlbumArt m None in
  let m := set_pendingAlbumArt m None in
  let m := setFormEnabled false m in
  (m, mkRequest requestId filepath listItem).

(** The entries of [all_fields] that are stored: a value that is present,
    under an id that is not a standard field. *)
Definition store_all_fields
    (fields : list (string * option string)) (o : JsObj.t string) : JsObj.t string :=
  fold_left
    (fun acc entry =>
       match snd entry with
       | Some v =>
           if negb (existsb (String.eqb (fst entry)) standardFields)
           then JsObj.set acc (fst entry) v else acc
       | None => acc
       end)
    fields o.

(** [loadFile] from its [await] on. *)
Definition loadFile_settled
    (req : MetadataRequest) (res : Settled Metadata) (m : Mgr) : Mgr :=
  match res with
  | Fulfilled data =>
      if negb (Z.eqb (requestId req) (loadFileRequestId m)) then m
      else
        let m := set_originalMetadata m
                   (store_all_fields (md_all_fields data)
                      [("title", md_title data); ("artist", md_artist data);
                       ("album", md_album data); ("albumartist", md_albumartist data);
                       ("date", md_date data); ("genre", md_genre data);
                       ("composer", md_composer data); ("track", md_track data);
                       ("disc", md_disc data)]) in
        let m := set_metadata m (Some data) in
        let m := call m (RenderMetadataFields data) in
        let m := set_panel m (set_loading (panel m) false) in
        let m :=
          if md_hasLimitedMetadata data then
            let m := showStatus
                       ("Note: " ++ toUpperCase (md_format data)
                        ++ " files have limited metadata support") "warning" m in
            match md_supportedFields data with
            | Some supported =>
                set_panel m
                  (set_disabledFields (panel m)
                     (filter (fun f => negb (existsb (String.eqb f) supported))
                             standardFields))
            | None => m
            end
          else m in
        let m :=
          if negb (md_supportsAlbumArt data) then
            set_panel m
              (set_uploadEnabled
                 (set_deleteArtShown
                    (set_art (panel m) (ArtUnsupported (toUpperCase (md_format data))))
                    false) false)
          else
            let m := set_panel m (set_uploadEnabled (panel m) true) in
            if md_hasArt data && truthy (md_art data) then
              let m := set_currentAlbumArt m (Some (md_art data)) in
              set_panel m (set_deleteArtShown (set_art (panel m) (ArtImage (md_art data))) true)
            else
              set_panel m (set_deleteArtShown (set_art (panel m) ArtPlaceholder) false) in
        let m := setFormEnabled true m in
        if keyboard_focus (req_listItem req) then hideStatus m else m
  | Rejected =>
      if Z.eqb (requestId req) (loadFileRequestId m) then
        let m := showStatus "Error loading metadata" "error" m in
        let m := setFormEnabled true m in
        set_panel m (set_loading (panel m) false)
      else m
  end.

End Load.

(** *** Inline rename of a file, and rename from the metadata panel *)

(** The fields of this module's object that record an inline rename. *)
Record FileEdit : Type := mkFileEdit {
  editingFileElement : option nat;
  editingFileData : option Item
}.

(** [startFileRename(listItem, file, nameDiv)]; [has_file_info] tells
    whether the item has its [.file-info] child. *)
Definition startFileRename
    (listItem : ListItemEl) (file : Item) (has_file_info : bool) (st : FileEdit) : FileEdit :=
  let other :=
    match editingFileElement st with
    | Some e => negb (Nat.eqb e (li_id listItem))
    | None => false
    end in
  let same :=
    match editingFileElement st with
    | Some e => Nat.eqb e (li_id listItem)
    | None => false
    end in
  if other then st
  else if same then st
  else if negb has_file_info then st
  else mkFileEdit (Some (li_id listItem)) (Some file).

Definition cancelFileRename (st : FileEdit) : FileEdit := mkFileEdit None None.

Section Save.
(** The trimming is that of the engine. *)
Context {engine : Engine}.

(** [saveFileName] of the inline rename, up to its request. *)
Definition saveFileName (input_value : string) (file : Item) : RenameStep :=
  let newName := trim input_value in
  if negb (truthy newName) || String.eqb newName (name file) then RenameCancelled
  else if includes newName "/" || includes newName "\"
  then RenameRejected "Invalid name"
  else RenameRequested (Some (path file)) newName.

(** [saveFilename] of the metadata panel, up to its request. *)
Definition saveFilename (input_value : string) (m : Mgr) : RenameStep :=
  let newName := trim input_value in
  if negb (truthy newName) || String.eqb newName (originalFilename m) then RenameCancelled
  else RenameRequested (currentFile m) newName.

End Save.

(** *** Filtering and sorting the file list *)

Section Listing.
(** The case mapping and the trimming are those of the engine. *)
Context {engine : Engine}.

(** The value a file is sorted by: a string or a number. *)
Inductive SortKey : Type :=
| KeyString (s : string)
| KeyNumber (z : Z).

Definition sortKey (s : SortSetting) (f : Item) : SortKey :=
  if String.eqb (method s) "name" then KeyString (toLowerCase (name f))
  else if String.eqb (method s) "date" then KeyNumber (or0 (date f))
  else if String.eqb (method s) "type"
  then KeyString (toLowerCase (split_pop "." (name f)))
  else if String.eqb (method s) "size" then KeyNumber (or0 (size f))
  else KeyString (toLowerCase (name f)).

(** [aVal > bVal]: strings by code units, numbers by value. *)
Definition key_gt (a b : SortKey) : bool :=
  match a, b with
  | KeyString x, KeyString y => String.ltb y x
  | KeyNumber x, KeyNumber y => Z.ltb y x
  | _, _ => false
  end.

(** The comparator of [sortFiles]; it never answers [0]. *)
Definition sortFiles_cmp (s : SortSetting) (a b : Item) : Z :=
  if String.eqb (direction s) "asc"
  then (if key_gt (sortKey s a) (sortKey s b) then 1 else -1)%Z
  else (if key_gt (sortKey s b) (sortKey s a) then 1 else -1)%Z.

(** [sortFiles(files)]: copies the array and sorts the copy. *)
Definition sortFiles
    (s : SortSetting) (h : Heap.t Item) (files : Heap.ref) : Heap.t Item * Heap.ref :=
  let '(h1, copy) := Heap.alloc h (Heap.read h files) in
  (Heap.write h1 copy (Array_sort (sortFiles_cmp s) (Heap.read h1 copy)), copy).

(** The predicate of the filter of [renderFileList]. *)
Definition matchesFilter (filterValue : string) (file : Item) : bool :=
  includes (toLowerCase (name file)) filterValue.

(** [renderFileList()]: the store afterwards, and the files for which a
    list item is made, in order.  [currentFiles] is [State.currentFiles]. *)
Definition renderFileList
    (s : SortSetting) (filesFilter : string)
    (h : Heap.t Item) (currentFiles : option Heap.ref) : Heap.t Item * list Item :=
  match currentFiles with
  | None => (h, [])
  | Some files =>
      if Nat.eqb (List.length (Heap.read h files)) 0 then (h, [])
      else
        let filterValue := trim (toLowerCase filesFilter) in
        let '(h1, filteredFiles) :=
          if (0 <? String.length filterValue)%nat
          then Heap.alloc h (filter (matchesFilter filterValue) (Heap.read h files))
          else (h, files) in
        let '(h2, sortedFiles) := sortFiles s h1 filteredFiles in
        (h2, Heap.read h2 sortedFiles)
  end.

End Listing.

End Files.

(* ================================================================== *)
(** ** Example states and helper notions of the properties *)


(** A file list of four visible items, with the anchor on the last one and
    something selected before, and a folder tree of three visible items
    with no anchor. *)
Definition example_file_dom : list Files.ListItemEl :=
  [Files.mkLi 1 "a.mp3" false false; Files.mkLi 2 "b.mp3" false false;
   Files.mkLi 3 "c.mp3" false false; Files.mkLi 4 "d.mp3" false false].

Definition example_panel : Files.Panel :=
  Files.mkPanel "" false false false true false [] Files.ArtUntouched true false.

Definition example_mgr (anchor : option string) : Files.Mgr :=
  Files.mkMgr ["zzz.mp3"] anchor None "" None "" 0 None [] None None None
              example_panel None [].

Definition example_tree_dom : list Tree.TreeItemEl :=
  [Tree.mkEl 1 "A" true true 1; Tree.mkEl 2 "A/sub" true false 0;
   Tree.mkEl 3 "B" true false 0].

Definition example_nav (anchor : option string) : Tree.Nav :=
  Tree.mkNav ["A"] anchor None None ["A"] "A" None Tree.FooterDashes [] [].


(** A selector engine for the examples.  It knows the two forms of
    selector that [updateDOMPaths] builds, for a value without a double
    quote, a backslash or a line break, where the value stands for
    itself; it takes every other text for no selector. *)
Definition plain_value (v : string) : bool :=
  negb (JsString.has_unit JsString.quote v
        || JsString.has_unit "\"%char v
        || JsString.has_unit (ascii_of_nat 10) v
        || JsString.has_unit (ascii_of_nat 12) v
        || JsString.has_unit (ascii_of_nat 13) v).

Definition example_select (sel : string) : option (Tree.TreeItemEl -> bool) :=
  let n := String.length sel in
  let closed := String.eqb (String.substring (n - 2) 2 sel) (String JsString.quote "]") in
  if String.prefix ("[data-path=" ++ String JsString.quote "") sel
     && (14 <=? n)%nat && closed
  then
    let v := String.substring 12 (n - 14) sel in
    if plain_value v then Some (fun el => String.eqb (Tree.dataset_path el) v) else None
  else if String.prefix ("[data-path^=" ++ String JsString.quote "") sel
          && (15 <=? n)%nat && closed
  then
    let v := String.substring 13 (n - 15) sel in
    if plain_value v then Some (fun el => String.prefix v (Tree.dataset_path el)) else None
  else None.

(** The rows of folder [a] and of its child [a/b]. *)
Definition rows_of_a : list Tree.TreeItemEl :=
  [Tree.mkEl 1 "a" true true 1; Tree.mkEl 2 "a/b" true false 0].

(** The folder [A] is current and selected; the user clicks folder [B]. *)
Definition before_click : Tree.Nav :=
  Tree.mkNav ["A"] (Some "A") (Some 1%Z)
             (Some (Tree.Element (Tree.mkEl 1 "A" true false 0)))
             [] "A" None
             (Tree.FooterCounts (Some 1%nat) 1 10 100) [] [].

Definition clicked_folder : Tree.TreeItemEl := Tree.mkEl 2 "B" true false 0.

Definition after_click : Tree.Nav :=
  fst (Tree.content_onclick Tree.shell_selectTreeItem
         [Tree.mkEl 1 "A" true false 0; clicked_folder] clicked_folder
         (mkItem "B" "B" "folder" None None None) false false
         before_click).

Definition stats_of_A : Tree.Stats := Tree.mkStats "success" 1 10 100.
Definition stats_of_B : Tree.Stats := Tree.mkStats "success" 2 20 200.


Definition calls_remote (step : RenameStep) : bool :=
  match step with
  | RenameRequested _ _ => true
  | _ => false
  end.

(** The file [dir/a.mp3] is open in the metadata panel. *)
Definition panel_with_open_file : Files.Mgr :=
  Files.mkMgr [] None None "dir" (Some "dir/a.mp3") "a.mp3" 1 None [] None None None
    (Files.mkPanel "a.mp3" true true false true false [] Files.ArtUntouched true false)
    None [].

(** The edit state of the two panes together. *)
Record Editing : Type := mkEditing {
  folderEdit : Tree.FolderEdit;
  fileEdit : Files.FileEdit
}.

Inductive Node : Type :=
| FileNode (li : nat)
| FolderNode (el : nat).

Definition being_edited (st : Editing) (node : Node) : Prop :=
  match node with
  | FileNode li => Files.editingFileElement (fileEdit st) = Some li
  | FolderNode el => Tree.editingFolder (folderEdit st) = Some el
  end.

Definition startFolderRename_in
    (el : Tree.TreeItemEl) (item : Item) (st : Editing) : Editing :=
  mkEditing (Tree.startFolderRename el item (folderEdit st)) (fileEdit st).

Definition startFileRename_in
    (li : Files.ListItemEl) (file : Item) (has_file_info : bool) (st : Editing) : Editing :=
  mkEditing (folderEdit st) (Files.startFileRename li file has_file_info (fileEdit st)).

(** The file of list item 1 is being renamed; no folder is. *)
Definition editing_a_file : Editing :=
  mkEditing
    (Tree.mkFolderEdit None None false Tree.NORMAL)
    (Files.mkFileEdit (Some 1%nat)
       (Some (mkItem "dir/a.mp3" "a.mp3" "file" None None None))).


(** The message [deleteSelectedFiles] shows for a rejection. *)
Definition deleteFile_message (err : option string) : string :=
  match err with
  | Some e => if JsString.truthy e then e else "Error deleting file"
  | None => "Error deleting file"
  end.

(** The scenario of the design document: of the selected files [a], [b]
    and [c], the remote service refuses to delete [b]. *)
Definition refuses_b (p : string) (remote : list string)
  : list string * option (option string) :=
  if String.eqb p "b" then (remote, Some (Some "Permission denied"))
  else (JsSet.delete remote p, None).

Definition three_selected : Files.Mgr :=
  Files.mkMgr ["a"; "b"; "c"] (Some "a") None "" None "" 0 None [] None None None
    (Files.mkPanel "" false false false true false [] Files.ArtUntouched true false)
    None [].


(** A file list of two files, and the filter typed with a leading blank. *)
Definition two_files : Heap.t Item :=
  [[mkItem "ba.mp3" "ba.mp3" "file" None None None;
    mkItem "xy.mp3" "xy.mp3" "file" None None None]].

(** A file list of three files that is not in the order of the names. *)
Definition unsorted_files : Heap.t Item :=
  [[mkItem "c.mp3" "c.mp3" "file" None None None;
    mkItem "A.mp3" "A.mp3" "file" None None None;
    mkItem "b.mp3" "b.mp3" "file" None None None]].

(** Four entries under the root, two of them created at the same time,
    with the sort by date and the filter [mu]. *)
Definition example_cache : Tree.Cache :=
  Tree.mkCache
    [[mkItem "music2" "Music2" "folder" (Some 20%Z) None None;
      mkItem "video" "Video" "folder" (Some 5%Z) None None;
      mkItem "music1" "music1" "folder" (Some 20%Z) None None;
      mkItem "mus.txt" "mus.txt" "file" (Some 1%Z) None None]]
    [("", 0%nat)] [] "MU" (mkSort "date" "asc").


(** The listing of the root is cached in the order [b], [a]. *)
Definition unsorted_cache (filterText : string) : Tree.Cache :=
  Tree.mkCache
    [[mkItem "b" "b" "folder" None None None;
      mkItem "a" "a" "folder" None None None]]
    [("", 0%nat)] [] filterText (mkSort "name" "asc").

(* ================================================================== *)
(** ** More of the strings of the language *)

Module JsStr.

(** [s.split(sep)] for a separator of one code unit: never empty, one
    piece more than there are separators. *)
Fixpoint split (sep : ascii) (s : string) : list string :=
  match s with
  | EmptyString => [EmptyString]
  | String c s' =>
      if Ascii.eqb c sep then EmptyString :: split sep s'
      else match split sep s' with
           | [] => [String c EmptyString]
           | piece :: pieces => String c piece :: pieces
           end
  end.

(** [items.join(sep)] *)
Fixpoint join (sep : string) (items : list string) : string :=
  match items with
  | [] => EmptyString
  | [x] => x
  | x :: rest => x ++ sep ++ join sep rest
  end.

(** [s.lastIndexOf(sep)], [None] for [-1]. *)
Fixpoint lastIndexOf (sep : ascii) (s : string) : option nat :=
  match s with
  | EmptyString => None
  | String c s' =>
      match lastIndexOf sep s' with
      | Some i => Some (S i)
      | None => if Ascii.eqb c sep then Some O else None
      end
  end.

(** [s.substring(0, idx)] *)
Definition substring0 (idx : nat) (s : string) : string := String.substring 0 idx s.

(** The number of code units of [s] equal to [sep]. *)
Fixpoint count (sep : ascii) (s : string) : nat :=
  match s with
  | EmptyString => O
  | String c s' => (if Ascii.eqb c sep then 1 else 0) + count sep s'
  end.

Definition newline : string := String (ascii_of_nat 10) EmptyString.

End JsStr.

(* ================================================================== *)
(** ** The in-app dialog: UI.Dialog *)

Module Dialog.
Import JsString.

(** The three buttons of the dialog box. *)
Inductive Button : Type := CopyBtn | CancelBtn | ConfirmBtn.

Definition Button_eqb (a b : Button) : bool :=
  match a, b with
  | CopyBtn, CopyBtn | CancelBtn, CancelBtn | ConfirmBtn, ConfirmBtn => true
  | _, _ => false
  end.

(** The argument of [openBase], with its defaults filled in. *)
Record Options : Type := mkOptions {
  title : string;
  bodyText : string;
  confirmText : string;
  cancelText : string;
  danger : bool;
  showCopy : bool;
  copyText : string;
  showCancel : bool;
  monospace : bool;
  disableConfirm : bool
}.

(** What the box shows: the texts, and the state of its buttons.
    [copyBtn_onclick] is the text the copy handler would copy. *)
Record View : Type := mkView {
  titleEl : string;
  bodyEl : string;
  body_monospace : bool;
  confirmBtn_text : string;
  cancelBtn_text : string;
  cancelBtn_shown : bool;
  confirmBtn_danger : bool;
  confirmBtn_disabled : bool;
  copyBtn_shown : bool;
  copyBtn_onclick : option string
}.

(** The dialog object.  [mounted] tells whether [init] found the overlay
    and the box (the other elements come from the same template);
    [listeners] counts the [keydown] listeners this object has on the
    document; a promise is a number, [resolve] is the one that is pending,
    and [settledPromises] lists those resolved so far with their values. *)
Record T : Type := mkDialog {
  mounted : bool;
  isOpenFlag : bool;
  view : View;
  active : bool;
  keyHandler : bool;
  listeners : nat;
  resolve : option nat;
  settledPromises : list (nat * bool);
  nextPromise : nat;
  activeElement : option Button
}.

Definition set_isOpenFlag (d : T) (v : bool) : T :=
  mkDialog (mounted d) v (view d) (active d) (keyHandler d) (listeners d)
           (resolve d) (settledPromises d) (nextPromise d) (activeElement d).
Definition set_view (d : T) (v : View) : T :=
  mkDialog (mounted d) (isOpenFlag d) v (active d) (keyHandler d) (listeners d)
           (resolve d) (settledPromises d) (nextPromise d) (activeElement d).
Definition set_active (d : T) (v : bool) : T :=
  mkDialog (mounted d) (isOpenFlag d) (view d) v (keyHandler d) (listeners d)
           (resolve d) (settledPromises d) (nextPromise d) (activeElement d).
Definition set_keyHandler (d : T) (v : bool) (n : nat) : T :=
  mkDialog (mounted d) (isOpenFlag d) (view d) (active d) v n
           (resolve d) (settledPromises d) (nextPromise d) (activeElement d).
Definition set_resolve (d : T) (v : option nat) : T :=
  mkDialog (mounted d) (isOpenFlag d) (view d) (active d) (keyHandler d)
           (listeners d) v (settledPromises d) (nextPromise d) (activeElement d).
Definition set_settledPromises (d : T) (v : list (nat * bool)) : T :=
  mkDialog (mounted d) (isOpenFlag d) (view d) (active d) (keyHandler d)
           (listeners d) (resolve d) v (nextPromise d) (activeElement d).
Definition set_nextPromise (d : T) (v : nat) : T :=
  mkDialog (mounted d) (isOpenFlag d) (view d) (active d) (keyHandler d)
           (listeners d) (resolve d) (settledPromises d) v (activeElement d).
Definition set_activeElement (d : T) (v : option Button) : T :=
  mkDialog (mounted d) (isOpenFlag d) (view d) (active d) (keyHandler d)
           (listeners d) (resolve d) (settledPromises d) (nextPromise d) v.

(** The object before any dialog was opened. *)
Definition initial (found : bool) : T :=
  mkDialog found false
           (mkView "" "" false "" "" false false false false None)
           false false 0 None [] 0 None.

Definition isOpen (d : T) : bool := isOpenFlag d.

(** What [openBase] returns: a promise that is already resolved, or the
    new pending one. *)
Inductive Answer : Type :=
| Already (value : bool)
| Later (promise : nat).

(** [text || fallback] *)
Definition or_text (text fallback : string) : string :=
  if truthy text then text else fallback.

(** [element.focus()]: a disabled button does not take the focus. *)
Definition focus (b : Button) (d : T) : T :=
  match b with
  | ConfirmBtn =>
      if confirmBtn_disabled (view d) then d else set_activeElement d (Some b)
  | _ => set_activeElement d (Some b)
  end.

Definition openBase (o : Options) (d : T) : T * Answer :=
  if negb (mounted d) || isOpen d then (d, Already false)
  else
    let d := set_isOpenFlag d true in
    let d := set_view d
               (mkView (or_text (title o) "") (or_text (bodyText o) "")
                       (monospace o)
                       (or_text (confirmText o) "OK")
                       (or_text (cancelText o) "Cancel")
                       (showCancel o) (danger o) (disableConfirm o)
                       (showCopy o)
                       (if showCopy o then Some (copyText o) else None)) in
    let d := set_active d true in
    let d := set_keyHandler d true (S (listeners d)) in
    let p := nextPromise d in
    let d := set_nextPromise d (S p) in
    (set_resolve d (Some p), Later p).

(** The callback of the [setTimeout] of [openBase]. *)
Definition openBase_timeout (d : T) : T := focus ConfirmBtn d.

Definition close (result : bool) (d : T) : T :=
  if negb (isOpen d) then d
  else
    let d := set_active d false in
    let d := if keyHandler d then set_keyHandler d false (Nat.pred (listeners d)) else d in
    let d := set_isOpenFlag d false in
    match resolve d with
    | Some p =>
        set_settledPromises (set_resolve d None)
                            (settledPromises d ++ [(p, result)])%list
    | None => d
    end.

(** The click listeners that [init] adds when the dialog is mounted. *)
Definition overlay_click (d : T) : T := if mounted d then close false d else d.
Definition cancelBtn_click (d : T) : T := if mounted d then close false d else d.
Definition confirmBtn_click (d : T) : T := if mounted d then close true d else d.

(** *** The keyboard *)

Inductive Key : Type := Escape | Enter | Tab | OtherKey.

Record KeyEvent : Type := mkKeyEvent {
  key : Key;
  shiftKey : bool
}.

(** The buttons [Tab] moves between: those that are laid out
    ([offsetParent !== null], which is a matter of the style sheet) and
    whose inline [display] is not [none]. *)
Definition focusable (offsetParent : Button -> bool) (d : T) : list Button :=
  filter
    (fun b =>
       offsetParent b &&
       match b with
       | CopyBtn => copyBtn_shown (view d)
       | CancelBtn => cancelBtn_shown (view d)
       | ConfirmBtn => true
       end)
    [CopyBtn; CancelBtn; ConfirmBtn].

(** [focusable.indexOf(document.activeElement)] *)
Definition indexOf (items : list Button) (el : option Button) : option nat :=
  match el with
  | Some b => findIndex (Button_eqb b) items
  | None => None
  end.

(** The [keydown] listener; the second component tells whether it called
    [preventDefault]. *)
Definition keyHandler_body
    (offsetParent : Button -> bool) (e : KeyEvent) (d : T) : T * bool :=
  if negb (isOpen d) then (d, false)
  else
    match key e with
    | Escape => (close false d, true)
    | Enter =>
        match activeElement d with
        | Some CancelBtn => (d, false)
        | _ =>
            if confirmBtn_disabled (view d) then (d, false)
            else (close true d, true)
        end
    | Tab =>
        let items := focusable offsetParent d in
        match items with
        | [] => (d, false)
        | _ =>
            let len := List.length items in
            let nextIndex :=
              match indexOf items (activeElement d) with
              | None =>
                  (* currentIndex is -1 *)
                  if shiftKey e then (len - 1)%nat else O
              | Some currentIndex =>
                  if shiftKey e
                  then (if Nat.eqb currentIndex 0 then (len - 1)%nat
                        else (currentIndex - 1)%nat)
                  else (if Nat.eqb currentIndex (len - 1) then O
                        else S currentIndex)
              end in
            match nth_error items nextIndex with
            | Some b => (focus b d, true)
            | None => (d, true)
            end
        end
    | OtherKey => (d, false)
    end.

(** A [keydown] on the document reaches the listener when there is one. *)
Definition keydown (offsetParent : Button -> bool) (e : KeyEvent) (d : T) : T :=
  if (0 <? listeners d)%nat then fst (keyHandler_body offsetParent e d) else d.

(** *** The kinds of dialog *)

Definition confirm (title message confirmText cancelText : string) (danger : bool)
  : T -> T * Answer :=
  openBase (mkOptions title message confirmText cancelText danger false ""
                      true false false).

(** The label of the confirm button of [showLoading]: the word and the
    bytes that follow it in the source file. *)
Definition loadingLabel : string :=
  "Loading" ++
  fold_right (fun n acc => String (ascii_of_nat n) acc) EmptyString
             [195; 162; 226; 130; 172; 194; 166]%nat.

Definition showLoading (title message cancelText : string) (monospace : bool)
  : T -> T * Answer :=
  openBase (mkOptions title message loadingLabel cancelText false false ""
                      true monospace true).

Definition alert (title message confirmText : string) : T -> T * Answer :=
  openBase (mkOptions title message confirmText "" false false "" false false false).

(** [intro + (intro ? '\n\n' : '') + items.join('\n')] *)
Definition listBody (intro : string) (items : list string) : string :=
  intro ++ (if truthy intro then JsStr.newline ++ JsStr.newline else "")
        ++ JsStr.join JsStr.newline items.

Definition showConflicts (title intro : string) (items : list string)
  : T -> T * Answer :=
  let body := listBody intro items in
  openBase (mkOptions title body "OK" "Close" false true body true false false).

Definition confirmList
    (title intro : string) (items : list string) (confirmText cancelText : string)
    (danger : bool) (icon : string) (showCopy monospace : bool) : T -> T * Answer :=
  let body := listBody intro items in
  let finalTitle := if truthy icon then icon ++ " " ++ title else title in
  openBase (mkOptions finalTitle body confirmText cancelText danger showCopy body
                      true monospace false).

(** [update({ title, bodyText, monospace })]; [None] stands for [null]. *)
Definition update
    (title bodyText : option string) (monospace : option bool) (d : T) : T :=
  if negb (isOpen d) then d
  else
    let v := view d in
    let v :=
      match title with
      | Some t =>
          mkView t (bodyEl v) (body_monospace v) (confirmBtn_text v)
                 (cancelBtn_text v) (cancelBtn_shown v) (confirmBtn_danger v)
                 (confirmBtn_disabled v) (copyBtn_shown v) (copyBtn_onclick v)
      | None => v
      end in
    let v :=
      match bodyText with
      | Some b =>
          mkView (titleEl v) b (body_monospace v) (confirmBtn_text v)
                 (cancelBtn_text v) (cancelBtn_shown v) (confirmBtn_danger v)
                 (confirmBtn_disabled v) (copyBtn_shown v) (copyBtn_onclick v)
      | None => v
      end in
    let v :=
      match monospace with
      | Some m =>
          mkView (titleEl v) (bodyEl v) m (confirmBtn_text v)
                 (cancelBtn_text v) (cancelBtn_shown v) (confirmBtn_danger v)
                 (confirmBtn_disabled v) (copyBtn_shown v) (copyBtn_onclick v)
      | None => v
      end in
    set_view d v.

(** *** What can happen to a dialog *)

Inductive Op : Type :=
| OpOpen (o : Options)
| OpTimeout
| OpClose (result : bool)
| OpOverlayClick
| OpCancelClick
| OpConfirmClick
| OpKeydown (offsetParent : Button -> bool) (e : KeyEvent)
| OpUpdate (title bodyText : option string) (monospace : option bool)
| OpFocus (el : option Button).

Definition run (d : T) (op : Op) : T :=
  match op with
  | OpOpen o => fst (openBase o d)
  | OpTimeout => openBase_timeout d
  | OpClose r => close r d
  | OpOverlayClick => overlay_click d
  | OpCancelClick => cancelBtn_click d
  | OpConfirmClick =>
      (* a disabled button receives no click *)
      if confirmBtn_disabled (view d) then d else confirmBtn_click d
  | OpKeydown layout e => keydown layout e d
  | OpUpdate t b m => update t b m d
  | OpFocus el => set_activeElement d el
  end.

(** What stays true of the dialog object: it is open only when mounted;
    the box is shown, the key listener is installed (once) and a promise
    is pending exactly while it is open; the pending promise is not
    resolved yet; and no promise is resolved twice. *)
Definition well_formed (d : T) : Prop :=
  (isOpenFlag d = true -> mounted d = true) /\
  active d = isOpenFlag d /\
  keyHandler d = isOpenFlag d /\
  listeners d = (if isOpenFlag d then 1 else 0)%nat /\
  (isOpenFlag d = true <-> resolve d <> None) /\
  (forall p, resolve d = Some p ->
     (p < nextPromise d)%nat /\ ~ In p (map fst (settledPromises d))) /\
  NoDup (map fst (settledPromises d)) /\
  (forall p, In p (map fst (settledPromises d)) -> (p < nextPromise d)%nat).

(** What the user can do to an open dialog: click, type, move the focus. *)
Definition is_user_input (op : Op) : bool :=
  match op with
  | OpOverlayClick | OpCancelClick | OpConfirmClick | OpKeydown _ _ | OpFocus _ => true
  | _ => false
  end.

(** What neither closes the dialog nor rewrites its texts: a further
    attempt to open one, the focus timer, a change of focus, and the keys
    other than Escape and Enter. *)
Definition keeps_dialog (op : Op) : bool :=
  match op with
  | OpOpen _ | OpTimeout | OpFocus _ => true
  | OpKeydown _ e =>
      match key e with
      | Tab | OtherKey => true
      | _ => false
      end
  | _ => false
  end.

(** The promises resolved with [true]. *)
Definition confirmed (d : T) : list nat :=
  map fst (filter (fun pv => snd pv) (settledPromises d)).

End Dialog.
(* ================================================================== *)
(** ** Menus, the form and the status line: UI.Utilities *)

Module UIUtils.
Import JsString.

(** *** The actions menus of the rows *)

(** An [.item-actions-menu] element of the document: its identity and
    whether it carries the class [active]. *)
Record MenuEl : Type := mkMenu {
  menu_id : nat;
  menu_active : bool
}.

(** [menu.classList.add('active')], [remove] and [toggle] on the menu
    with identity [id]. *)
Definition menu_update (f : bool -> bool) (id : nat) (dom : list MenuEl) : list MenuEl :=
  map (fun m => if Nat.eqb (menu_id m) id then mkMenu (menu_id m) (f (menu_active m)) else m)
      dom.

(** [menuEl.classList.contains('active')] *)
Definition menu_contains_active (id : nat) (dom : list MenuEl) : bool :=
  existsb (fun m => Nat.eqb (menu_id m) id && menu_active m) dom.

Definition closeActionsMenus (exceptMenu : option nat) (dom : list MenuEl) : list MenuEl :=
  map (fun menu =>
         if menu_active menu
            && match exceptMenu with
               | None => true
               | Some e => negb (Nat.eqb (menu_id menu) e)
               end
         then mkMenu (menu_id menu) false
         else menu)
      dom.

(** [openActionsMenu(menuEl, x, y)], without the placement. *)
Definition openActionsMenu (menuEl : nat) (dom : list MenuEl) : list MenuEl :=
  menu_update (fun _ => true) menuEl (closeActionsMenus (Some menuEl) dom).

(** [toggleActionsMenu(buttonEl, menuEl)], without the placement. *)
Definition toggleActionsMenu (menuEl : nat) (dom : list MenuEl) : list MenuEl :=
  menu_update negb menuEl (closeActionsMenus (Some menuEl) dom).

(** The [click] listener of [setupActionsMenuGlobalClose]. *)
Definition document_click (dom : list MenuEl) : list MenuEl :=
  closeActionsMenus None dom.

(** The placement of [positionActionsMenu] once the menu is laid out, in
    whole pixels: the left edge for pointer position [x], menu width
    [width] and window width [innerWidth]. *)
Definition finalLeft (x width innerWidth : Z) : Z :=
  let maxLeft := (innerWidth - width - 8)%Z in
  Z.min (Z.max 8 (x - width)) maxLeft.

Definition finalTop (y height innerHeight : Z) : Z :=
  let maxTop := (innerHeight - height - 8)%Z in
  Z.min (Z.max 8 y) maxTop.

(** *** Enabling and disabling the form *)

(** A [button] of the document, as [setFormEnabled] reads it. *)
Record ButtonEl : Type := mkButton {
  history_btn : bool;
  history_clear_btn : bool;
  btn_status : bool;
  processing : bool;
  btn_title : string;
  btn_disabled : bool
}.

Definition set_btn_disabled (b : ButtonEl) (v : bool) : ButtonEl :=
  mkButton (history_btn b) (history_clear_btn b) (btn_status b) (processing b)
           (btn_title b) v.

(** The [disabled] flags of the inputs of the metadata form, and the
    buttons of the document. *)
Record FormDom : Type := mkForm {
  inputs_disabled : list bool;
  buttons : list ButtonEl
}.

Definition artNote : string := "does not support embedded album art".

Definition setFormEnabled (enabled : bool) (f : FormDom) : FormDom :=
  mkForm
    (map (fun _ => negb enabled) (inputs_disabled f))
    (map (fun button =>
            if history_btn button || history_clear_btn button then button
            else if negb (btn_status button) || negb (processing button) then
              if enabled && truthy (btn_title button)
                 && includes (btn_title button) artNote
              then button
              else set_btn_disabled button (negb enabled)
            else button)
         (buttons f)).

(** A button that [setFormEnabled] leaves alone whatever its argument. *)
Definition skipped (b : ButtonEl) : bool :=
  history_btn b || history_clear_btn b || (btn_status b && processing b).

(** A button that carries the note of a format without album art. *)
Definition art_restricted (b : ButtonEl) : bool :=
  truthy (btn_title b) && includes (btn_title b) artNote.

(** *** The status line *)

(** The [#status] element, when there is one, with its text and class
    name; and the dialog, when its module is loaded. *)
Record Page : Type := mkPage {
  statusEl : option (string * string);
  dialog : option Dialog.T
}.

Definition showStatus (message type : string) (p : Page) : Page :=
  let p :=
    match statusEl p with
    | Some _ => mkPage (Some (message, "status " ++ type)) (dialog p)
    | None => p
    end in
  if String.eqb type "error" then
    match dialog p with
    | Some d =>
        if negb (Dialog.isOpen d)
        then mkPage (statusEl p) (Some (fst (Dialog.alert "Error" message "OK" d)))
        else p
    | None => p
    end
  else p.

(** *** Formats *)

Section Badge.
(** The case mapping is that of the engine. *)
Context {engine : JsString.Engine}.

(** [filename.split('.').pop()] in upper case, as [getFormatBadge] reads
    it. *)
Definition badge_ext (filename : string) : string :=
  toUpperCase (split_pop "." filename).

Definition lossless : list string := ["FLAC"; "WAV"; "WV"; "OGG"; "OPUS"].
Definition limitedMetadata : list string := ["WAV"; "WV"].
Definition noAlbumArt : list string := ["WAV"; "WV"].

Definition includes_str (l : list string) (x : string) : bool := existsb (String.eqb x) l.

(** The colours of the badge. *)
Inductive BadgeKind : Type := Audiobook | Lossless | Lossy.

(** [getFormatBadge(filename)]: the kind that decides the colours, the
    text of the badge, and the title of the warning sign when there is
    one. *)
Definition getFormatBadge (filename : string) : BadgeKind * string * option string :=
  let ext := badge_ext filename in
  let isLossless := includes_str lossless ext in
  let hasLimitations := includes_str limitedMetadata ext || includes_str noAlbumArt ext in
  let isAudiobook := String.eqb ext "M4B" in
  let kind := if isAudiobook then Audiobook else if isLossless then Lossless else Lossy in
  let warning :=
    if hasLimitations then
      Some (JsStr.join ", "
              ((if includes_str limitedMetadata ext then ["limited metadata"] else [])
               ++ (if includes_str noAlbumArt ext then ["no album art"] else []))%list)
    else None in
  (kind, ext, warning).

End Badge.

(** The calls of [showBulkProgress] and [hideBulkProgress] in a log of
    the bulk runner, in order: [Some (label, done, total)] for the bar
    shown with these arguments, [None] for the bar hidden. *)
Definition bar_events {Item : Type} (log : list (Utilities.Event Item))
  : list (option (string * nat * nat)) :=
  flat_map
    (fun ev =>
       match ev with
       | Utilities.ShowBulkProgress label done total => [Some (label, done, total)]
       | Utilities.HideBulkProgress => [None]
       | Utilities.OnItem _ _ => []
       end) log.

End UIUtils.
(* ================================================================== *)
(** ** The filter and sort controls of the two panes *)

(** [setupFileControls] of Files.Manager and [setupFolderControls] of
    Navigation.Tree install the same handlers, each on the elements of its
    own pane; they differ in the name of the pane, in the direction a newly
    chosen sort field starts with, and in what they redraw. *)
Module Controls.
Import JsString.

Inductive PaneId : Type := FilesPane | FoldersPane.

(** ['files'] and ['folders'] *)
Definition pane_name (p : PaneId) : string :=
  match p with
  | FilesPane => "files"
  | FoldersPane => "folders"
  end.

(** The controls of one pane: whether the filter box, the filter button
    and the sort dropdown carry the class [active], the filter text, and
    the sort setting ([State.filesFilter], [State.filesSort] and their
    folder counterparts). *)
Record Pane : Type := mkPane {
  filterContainer_active : bool;
  filterBtn_active : bool;
  sortDropdown_active : bool;
  filterText : string;
  sort : SortSetting
}.

(** What a handler asks of the rest of its module. *)
Inductive Call : Type :=
| FocusFilterInput (p : PaneId)
| UpdateSortUI (p : PaneId)
| RenderFileList
| RebuildTree.

Record T : Type := mkControls {
  files : Pane;
  folders : Pane;
  activeFilterPane : option string;
  activeSortDropdown : option string;
  focusedPane : option string;
  calls : list Call
}.

Definition pane (p : PaneId) (c : T) : Pane :=
  match p with
  | FilesPane => files c
  | FoldersPane => folders c
  end.

Definition set_pane (p : PaneId) (c : T) (v : Pane) : T :=
  match p with
  | FilesPane =>
      mkControls v (folders c) (activeFilterPane c) (activeSortDropdown c)
                 (focusedPane c) (calls c)
  | FoldersPane =>
      mkControls (files c) v (activeFilterPane c) (activeSortDropdown c)
                 (focusedPane c) (calls c)
  end.

Definition set_activeFilterPane (c : T) (v : option string) : T :=
  mkControls (files c) (folders c) v (activeSortDropdown c) (focusedPane c) (calls c).
Definition set_activeSortDropdown (c : T) (v : option string) : T :=
  mkControls (files c) (folders c) (activeFilterPane c) v (focusedPane c) (calls c).
Definition set_focusedPane (c : T) (v : option string) : T :=
  mkControls (files c) (folders c) (activeFilterPane c) (activeSortDropdown c) v (calls c).
Definition call (c : T) (k : Call) : T :=
  mkControls (files c) (folders c) (activeFilterPane c) (activeSortDropdown c)
             (focusedPane c) (calls c ++ [k])%list.

Definition set_filter (v : Pane) (box btn : bool) : Pane :=
  mkPane box btn (sortDropdown_active v) (filterText v) (sort v).
Definition set_dropdown (v : Pane) (b : bool) : Pane :=
  mkPane (filterContainer_active v) (filterBtn_active v) b (filterText v) (sort v).
Definition set_filterText (v : Pane) (s : string) : Pane :=
  mkPane (filterContainer_active v) (filterBtn_active v) (sortDropdown_active v) s (sort v).
Definition set_sort (v : Pane) (s : SortSetting) : Pane :=
  mkPane (filterContainer_active v) (filterBtn_active v) (sortDropdown_active v)
         (filterText v) s.

(** What a pane redraws: [renderFileList()] or [rebuildTree()]. *)
Definition redraw (p : PaneId) : Call :=
  match p with
  | FilesPane => RenderFileList
  | FoldersPane => RebuildTree
  end.

(** The [click] listener of the filter button. *)
Definition filterBtn_click (p : PaneId) (c : T) : T :=
  let isActive := filterContainer_active (pane p c) in
  let c := set_pane p c (set_dropdown (pane p c) false) in
  let c := set_activeSortDropdown c None in
  let v := pane p c in
  let c := set_pane p c
             (set_filter v (negb (filterContainer_active v)) (negb (filterBtn_active v))) in
  let c := set_activeFilterPane c (if isActive then None else Some (pane_name p)) in
  if negb isActive
  then set_focusedPane (call c (FocusFilterInput p)) (Some (pane_name p))
  else c.

(** The [input] listener of the filter box. *)
Definition filterInput_input (p : PaneId) (value : string) (c : T) : T :=
  call (set_pane p c (set_filterText (pane p c) value)) (redraw p).

(** The [click] listener of the sort button. *)
Definition sortBtn_click (p : PaneId) (c : T) : T :=
  let c := set_pane p c (set_filter (pane p c) false false) in
  let c := set_activeFilterPane c None in
  let isActive := sortDropdown_active (pane p c) in
  let c := set_pane p c (set_dropdown (pane p c) (negb isActive)) in
  let c := set_activeSortDropdown c (if isActive then None else Some (pane_name p)) in
  set_focusedPane c (Some (pane_name p)).

(** [direction === 'asc' ? 'desc' : 'asc'] *)
Definition flip (s : SortSetting) : SortSetting :=
  mkSort (method s) (if String.eqb (direction s) "asc" then "desc" else "asc").

(** The [click] listener of the direction toggle. *)
Definition sortDirection_click (p : PaneId) (c : T) : T :=
  let c := set_pane p c (set_sort (pane p c) (flip (sort (pane p c)))) in
  call (call c (UpdateSortUI p)) (redraw p).

(** The direction a newly chosen field starts with. *)
Definition startDirection (p : PaneId) (sortBy : string) : string :=
  match p with
  | FilesPane =>
      if String.eqb sortBy "date" || String.eqb sortBy "size" then "desc" else "asc"
  | FoldersPane => "asc"
  end.

(** The [click] listener of a sort option whose [dataset.sort] is
    [sortBy]. *)
Definition sortOption_click (p : PaneId) (sortBy : string) (c : T) : T :=
  let c := set_pane p c (set_sort (pane p c) (mkSort sortBy (startDirection p sortBy))) in
  let c := call (call c (UpdateSortUI p)) (redraw p) in
  let c := set_pane p c (set_dropdown (pane p c) false) in
  set_activeSortDropdown c None.

(** The [click] listener on the document; [onSortControls] tells whether
    the target is inside the sort dropdown or the sort button of the
    pane. *)
Definition document_click (p : PaneId) (onSortControls : bool) (c : T) : T :=
  if negb onSortControls then
    let c := set_pane p c (set_dropdown (pane p c) false) in
    match activeSortDropdown c with
    | Some name => if String.eqb name (pane_name p) then set_activeSortDropdown c None else c
    | None => c
    end
  else c.

(** [Tree.setSortMethod(method)] *)
Definition setSortMethod (method0 : string) (c : T) : T :=
  let v := folders c in
  let s :=
    if String.eqb (method (sort v)) method0 then flip (sort v)
    else mkSort method0 "asc" in
  call (call (set_pane FoldersPane c (set_sort v s)) (UpdateSortUI FoldersPane)) RebuildTree.

(** The handlers, as events. *)
Inductive Handler : Type :=
| FilterBtnClick (p : PaneId)
| FilterInput (p : PaneId) (value : string)
| SortBtnClick (p : PaneId)
| SortDirectionClick (p : PaneId)
| SortOptionClick (p : PaneId) (sortBy : string)
| DocumentClick (p : PaneId) (onSortControls : bool)
| SetSortMethod (method0 : string).

Definition handle (c : T) (h : Handler) : T :=
  match h with
  | FilterBtnClick p => filterBtn_click p c
  | FilterInput p v => filterInput_input p v c
  | SortBtnClick p => sortBtn_click p c
  | SortDirectionClick p => sortDirection_click p c
  | SortOptionClick p s => sortOption_click p s c
  | DocumentClick p o => document_click p o c
  | SetSortMethod m => setSortMethod m c
  end.

(** The page as it is loaded: nothing open. *)
Definition closed (filesSort foldersSort : SortSetting) : T :=
  mkControls (mkPane false false false "" filesSort)
             (mkPane false false false "" foldersSort)
             None None None [].

(** What stays true of the controls: in a pane, the filter box and the
    sort dropdown are not open together and the filter button shows what
    the filter box is; and when [State] names a pane as the one with the
    open filter or the open dropdown, that one is open. *)
Definition consistent (c : T) : Prop :=
  forall p,
    (filterContainer_active (pane p c) && sortDropdown_active (pane p c) = false) /\
    filterBtn_active (pane p c) = filterContainer_active (pane p c) /\
    (activeFilterPane c = Some (pane_name p) -> filterContainer_active (pane p c) = true) /\
    (activeSortDropdown c = Some (pane_name p) -> sortDropdown_active (pane p c) = true).

End Controls.
(* ================================================================== *)
(** ** Reloading the tree, and keeping the selection in step with it *)

Module TreeOps.
Import JsString.

(** [getLevel(path)] *)
Definition getLevel (path : string) : nat :=
  if truthy path then (List.length (JsStr.split "/" path) - 1)%nat else O.

(** The parent of [current] in the loop of [addAncestors]:
    [idx === -1 ? '' : current.substring(0, idx)] *)
Definition parentPath (current : string) : string :=
  match JsStr.lastIndexOf "/" current with
  | None => ""
  | Some idx => JsStr.substring0 idx current
  end.

(** The loop [for (let current = path; current; ) { ... }] of
    [addAncestors]; [fuel] bounds the number of rounds. *)
Fixpoint addAncestors_loop (fuel : nat) (current : string) (expandedSet : JsSet.t)
  : JsSet.t :=
  match fuel with
  | O => expandedSet
  | S fuel' =>
      if truthy current
      then addAncestors_loop fuel' (parentPath current) (JsSet.add expandedSet current)
      else expandedSet
  end.

(** Every round shortens [current], so its length bounds the rounds. *)
Definition addAncestors (path : string) (expandedSet : JsSet.t) : JsSet.t :=
  addAncestors_loop (S (String.length path)) path expandedSet.

(** The expansion set that [reloadTreePreservingState] builds. *)
Definition reload_expandedSet
    (expandedPaths : list string) (selectedPath : option string) : JsSet.t :=
  let expandedSet :=
    fold_left (fun acc p => addAncestors p acc) (filter truthy expandedPaths) [] in
  match selectedPath with
  | Some p => if truthy p then addAncestors p expandedSet else expandedSet
  | None => expandedSet
  end.

(** [(a, b) => this.getLevel(a) - this.getLevel(b)] *)
Definition getLevel_cmp (a b : string) : Z :=
  (Z.of_nat (getLevel a) - Z.of_nat (getLevel b))%Z.

(** [Array.from(State.expandedFolders).sort(...)] *)
Definition pathsToLoad (expandedFolders : JsSet.t) : list string :=
  Array_sort getLevel_cmp expandedFolders.

(** What [reloadTreePreservingState] has set when it reaches
    [rebuildTree]: the cache, the expansion set, the path of the stand-in
    object it stores as [State.selectedTreeItem], the selection and its
    anchor, and the folders whose listing it asked for, in order. *)
Record Reloaded : Type := mkReloaded {
  r_treeData : JsObj.t (list Item);
  r_expandedFolders : JsSet.t;
  r_selectedTreeItem : option string;
  r_selectedFolderPaths : JsSet.t;
  r_selectionAnchorPath : option string;
  r_requests : list string
}.

Section Reload.
(** [API.loadTreeChildren(path)], as it answers during the reload. *)
Variable loadTreeChildren : string -> Settled (list Item).

(** The loop over [pathsToLoad]: a listing that arrives is cached, a
    failure is ignored. *)
Definition reload_treeData (rootItems : list Item) (paths : list string)
  : JsObj.t (list Item) :=
  fold_left
    (fun treeData p =>
       match loadTreeChildren p with
       | Fulfilled items => JsObj.set treeData p items
       | Rejected => treeData
       end)
    paths [("", rootItems)].

(** [reloadTreePreservingState({ expandedPaths, selectedPath })], from the
    reply of [API.loadTree()] to the call of [rebuildTree()]. *)
Definition reloadTreePreservingState_loaded
    (rootItems : list Item) (expandedPaths : list string) (selectedPath : option string)
  : Reloaded :=
  let selected :=
    match selectedPath with
    | Some p => if truthy p then Some p else None
    | None => None
    end in
  let expandedSet := reload_expandedSet expandedPaths selectedPath in
  let paths := pathsToLoad expandedSet in
  mkReloaded
    (reload_treeData rootItems paths)
    expandedSet
    selected
    (match selected with
     | Some p => JsSet.of_list [p]
     | None => []
     end)
    selected
    paths.

End Reload.

(** *** The selection after the tree was rebuilt *)

(** [document.querySelector('[data-path=...]')] over the tree items in
    document order: the first one that carries the path. *)
Definition querySelector_path (dom : list Tree.TreeItemEl) (p : string)
  : option Tree.TreeItemEl :=
  find (fun el => String.eqb (Tree.dataset_path el) p) dom.

(** [el && isVisible(el)] for the element found for path [p]. *)
Definition shown (dom : list Tree.TreeItemEl) (p : string) : bool :=
  match querySelector_path dom p with
  | Some el => Tree.laid_out el
  | None => false
  end.




(** *** Dropping a file or a folder on a folder *)

(** The parsed payload of a drop. *)
Record Payload : Type := mkPayload {
  payload_type : string;
  payload_path : string;
  payload_name : string
}.

(** What [handleDrop] does first: nothing, or a request to the remote
    service. *)
Inductive DropStep : Type :=
| DropIgnored
| MoveFile (oldPath target : string) (isCopy : bool)
| MoveFolder (oldPath target : string) (merge isCopy : bool).

(** [handleDrop(payload, isCopy)] of the tree item of [item], up to its
    first request. *)
Definition handleDrop_request
    (item : Item) (payload : option Payload) (isCopy : bool) : DropStep :=
  match payload with
  | None => DropIgnored
  | Some p =>
      if negb (truthy (payload_type p)) || negb (truthy (payload_path p))
      then DropIgnored
      else if String.eqb (payload_type p) "file"
      then MoveFile (payload_path p) (path item) isCopy
      else if String.eqb (payload_type p) "folder" then
        let oldPath := payload_path p in
        if String.eqb oldPath (path item) || startsWith oldPath (path item ++ "/")
        then DropIgnored
        else MoveFolder oldPath (path item) false isCopy
      else DropIgnored
  end.

(** The selected path that [handleDrop] hands to the reload after a
    folder was moved from [oldPath] to [newPath]. *)
Definition handleDrop_selectedPath
    (oldPath newPath : string) (selectedTreeItem : option Tree.SelectedItem)
  : option string :=
  match selectedTreeItem with
  | Some it =>
      let selectedPath := Tree.selected_path it in
      if truthy selectedPath && PathRewrite.selfOrUnder oldPath selectedPath
      then Some newPath else Some selectedPath
  | None => None
  end.

(** The reload that [handleDrop] asks for after a folder was moved. *)
Definition handleDrop_reload
    (loadTreeChildren : string -> Settled (list Item)) (rootItems : list Item)
    (oldPath newPath : string)
    (expandedFolders : JsSet.t) (selectedTreeItem : option Tree.SelectedItem)
  : Reloaded :=
  reloadTreePreservingState_loaded loadTreeChildren rootItems
    (PathRewrite.handleDrop_expandedPaths oldPath newPath expandedFolders)
    (handleDrop_selectedPath oldPath newPath selectedTreeItem).

(** *** Summing the stats of a selection *)

(** The replies that [results.reduce] adds up: those that are there and
    whose status is ['success']. *)
Definition successes (results : list (option Tree.Stats)) : list Tree.Stats :=
  flat_map
    (fun r =>
       match r with
       | Some s => if String.eqb (Tree.status s) "success" then [s] else []
       | None => []
       end)
    results.

Definition total (f : Tree.Stats -> Z) (l : list Tree.Stats) : Z :=
  fold_right (fun s acc => (f s + acc)%Z) 0%Z l.

(** Whether a path is one of [roots] or lies under one of them. *)
Definition gone (roots : list string) (p : string) : bool :=
  existsb (fun root => PathRewrite.selfOrUnder root p) roots.

End TreeOps.
(* ================================================================== *)
(** ** Loading the file list, and the handlers of its rows *)

Module FilePane.
Import JsString.

(** The text of [#file-count]. *)
Inductive CountText : Type :=
| CountLoading
| CountOf (n : nat)
| CountError.

(** What [loadFiles] asks of its collaborators. *)
Inductive Call : Type :=
| StopPlayback
| UpdateSortUI
| UpdateSelectedFolderStats
| ShowStatus (message type : string).

(** The file pane as [loadFiles] and [renderFileList] work on it:
    [State.currentPath], [State.currentFiles] (an array of the store),
    the filter and sort settings, the count in the header, the files the
    list shows, and the calls made. *)
Record T : Type := mkFilePane {
  currentPath : string;
  heap : Heap.t Item;
  currentFiles : option Heap.ref;
  filesFilter : string;
  filesSort : SortSetting;
  fileCount : CountText;
  listed : list Item;
  calls : list Call
}.

Definition call (fp : T) (k : Call) : T :=
  mkFilePane (currentPath fp) (heap fp) (currentFiles fp) (filesFilter fp)
             (filesSort fp) (fileCount fp) (listed fp) (calls fp ++ [k])%list.

(** [loadFiles(folderPath)] up to its [await]. *)
Definition loadFiles (folderPath : string) (fp : T) : T :=
  call (mkFilePane folderPath (heap fp) (currentFiles fp) (filesFilter fp)
                   (filesSort fp) CountLoading (listed fp) (calls fp))
       StopPlayback.

(** [renderFileList()] on the pane: the list is replaced; the count is
    rewritten only when there are files. *)
Definition renderFileList (fp : T) : T :=
  let '(h, shown) :=
    Files.renderFileList (filesSort fp) (filesFilter fp) (heap fp) (currentFiles fp) in
  let empty :=
    match currentFiles fp with
    | None => true
    | Some files => Nat.eqb (List.length (Heap.read (heap fp) files)) 0
    end in
  mkFilePane (currentPath fp) h (currentFiles fp) (filesFilter fp) (filesSort fp)
             (if empty then fileCount fp else CountOf (List.length shown))
             shown (calls fp).

(** [loadFiles] from its [await] on, with the folder pane loaded: the
    reply is stored and drawn whatever folder is current by then. *)
Definition loadFiles_settled (res : Settled (list Item)) (fp : T) : T :=
  match res with
  | Fulfilled files =>
      let '(h, r) := Heap.alloc (heap fp) files in
      let fp := mkFilePane (currentPath fp) h (Some r) (filesFilter fp) (filesSort fp)
                           (CountOf (List.length files)) (listed fp) (calls fp) in
      let fp := renderFileList fp in
      call (call fp UpdateSortUI) UpdateSelectedFolderStats
  | Rejected =>
      let fp := call fp (ShowStatus "Error loading files" "error") in
      mkFilePane (currentPath fp) (heap fp) (currentFiles fp) (filesFilter fp)
                 (filesSort fp) CountError (listed fp) (calls fp)
  end.

(** *** Clicks on a row *)

Section Rows.
(** The callback given to [init]; it is code of the application shell. *)
Variable selectFileItemCallback : Files.ListItemEl -> option bool -> Files.Mgr -> Files.Mgr.

(** What the context menu and the delete button do first: a row that is
    not selected becomes the selection. *)
Definition select_unselected
    (li : Files.ListItemEl) (file : Item) (m : Files.Mgr) : Files.Mgr :=
  if negb (JsSet.has (Files.selectedFilePaths m) (path file)) then
    let m := Files.clearFileSelection m in
    let m := Files.toggleFileSelected li (Some true) m in
    let m := Files.set_selectionAnchorPath m (Some (Files.dataset_filepath li)) in
    selectFileItemCallback li (Some false) m
  else m.

(** [li.oncontextmenu]; [onControl] tells whether the target is inside the
    play button or the actions menu, [actionsMenu] is the menu of the
    row. *)
Definition li_oncontextmenu
    (li : Files.ListItemEl) (file : Item) (actionsMenu : nat) (onControl : bool)
    (w : Files.Mgr * list UIUtils.MenuEl) : Files.Mgr * list UIUtils.MenuEl :=
  if onControl then w
  else (select_unselected li file (fst w), UIUtils.openActionsMenu actionsMenu (snd w)).

(** [li.onclick]; a plain click also asks for the metadata of the file. *)
Definition li_onclick
    (dom : list Files.ListItemEl) (li : Files.ListItemEl) (file : Item)
    (onControl shiftKey ctrlKey : bool) (m : Files.Mgr)
  : Files.Mgr * option Files.MetadataRequest :=
  if onControl then (m, None)
  else if shiftKey then
    (selectFileItemCallback li (Some false) (Files.selectFileRange dom li ctrlKey m), None)
  else if ctrlKey then
    let m := Files.toggleFileSelected li None m in
    let m := Files.set_selectionAnchorPath m (Some (Files.dataset_filepath li)) in
    (selectFileItemCallback li (Some false) m, None)
  else
    let m := Files.clearFileSelection m in
    let m := Files.toggleFileSelected li (Some true) m in
    let m := Files.set_selectionAnchorPath m (Some (Files.dataset_filepath li)) in
    let '(m, req) := Files.loadFile selectFileItemCallback (path file) li m in
    (m, Some req).

End Rows.

(** *** Asking before a delete *)

(** [deleteSelectedFiles()] up to the answer of the dialog.  [intro] and
    [items] are the texts it composes from the selected paths.  Without
    the dialog module, and with nothing selected, nothing is asked. *)
Definition deleteSelectedFiles_ask
    (intro : string) (items : list string) (trashIcon : string)
    (m : Files.Mgr) (d : option Dialog.T) : option (Dialog.T * Dialog.Answer) :=
  let selectedPaths := Files.deleteSelectedFiles_selectedPaths m in
  match selectedPaths, d with
  | [], _ => None
  | _, None => None
  | _, Some dlg =>
      Some (Dialog.confirmList
              (if Nat.eqb (List.length selectedPaths) 1 then "Delete file" else "Delete files")
              intro items "Delete" "Cancel" true trashIcon false false dlg)
  end.

(** Whether the delete goes on once the promise of the dialog has its
    value: [if (!ok) return]. *)
Definition goes_on (asked : option (Dialog.T * Dialog.Answer)) (later : bool) : bool :=
  match asked with
  | None => false
  | Some (_, Dialog.Already v) => v
  | Some (_, Dialog.Later _) => later
  end.

End FilePane.

(* ================================================================== *)
(** * Properties *)

(* ================================================================== *)
(** ** Facts on the sort *)

Section ArraySortFacts.
Context {A : Type}.
Variable cmp : A -> A -> Z.

Lemma cmp_eq_sym : Consistent cmp -> forall x y, cmp x y = 0%Z -> cmp y x = 0%Z.
Proof.
  intros C x y H.
  pose proof (cmp_antisym cmp C x y). pose proof (cmp_antisym cmp C y x). lia.
Qed.

Lemma cmp_eq_trans :
  Consistent cmp -> forall x y z, cmp z x = 0%Z -> cmp z y = 0%Z -> cmp x y = 0%Z.
Proof.
  intros C x y z Hx Hy.
  pose proof (cmp_eq_sym C _ _ Hx) as Hx'.
  pose proof (cmp_eq_sym C _ _ Hy) as Hy'.
  assert (cmp x y <= 0)%Z by (apply (cmp_le_trans cmp C x z y); lia).
  assert (cmp y x <= 0)%Z by (apply (cmp_le_trans cmp C y z x); lia).
  pose proof (cmp_antisym cmp C y x). lia.
Qed.

Lemma sort_insert_perm (x : A) (l : list A) : Permutation (sort_insert cmp x l) (x :: l).
Proof.
  induction l as [|y l IH]; simpl; [reflexivity|].
  destruct (cmp x y <=? 0)%Z; [reflexivity|].
  rewrite IH. apply perm_swap.
Qed.

Lemma Array_sort_perm (l : list A) : Permutation (Array_sort cmp l) l.
Proof.
  induction l as [|x l IH]; simpl; [reflexivity|].
  rewrite sort_insert_perm. now apply perm_skip.
Qed.

Lemma Array_sort_length (l : list A) : List.length (Array_sort cmp l) = List.length l.
Proof. apply Permutation_length, Array_sort_perm. Qed.

Lemma sort_insert_sorted (x : A) (l : list A) :
  Consistent cmp -> Sorted (cmp_le cmp) l -> Sorted (cmp_le cmp) (sort_insert cmp x l).
Proof.
  intros C. induction 1 as [|y l S IH Hd]; simpl.
  - repeat constructor.
  - destruct (cmp x y <=? 0)%Z eqn:E.
    + constructor; [now constructor|]. constructor. now apply Z.leb_le.
    + constructor; [exact IH|].
      assert (Lyx : cmp_le cmp y x).
      { apply Z.leb_gt in E. apply (cmp_antisym cmp C) in E. unfold cmp_le. lia. }
      destruct l as [|z l]; simpl; [now constructor|].
      destruct (cmp x z <=? 0)%Z; constructor; [exact Lyx|].
      now inversion Hd.
Qed.

Lemma Array_sort_sorted (l : list A) : Consistent cmp -> Sorted (cmp_le cmp) (Array_sort cmp l).
Proof.
  intros C. induction l as [|x l IH]; simpl; [constructor|].
  now apply sort_insert_sorted.
Qed.

Lemma sort_insert_ties (z x : A) (l : list A) :
  Consistent cmp -> filter (cmp_tie cmp z) (sort_insert cmp x l) = filter (cmp_tie cmp z) (x :: l).
Proof.
  intros C. induction l as [|y l IH]; [reflexivity|].
  simpl sort_insert. destruct (cmp x y <=? 0)%Z eqn:E; [reflexivity|].
  simpl. simpl in IH. rewrite IH.
  destruct (cmp_tie cmp z x) eqn:Tx, (cmp_tie cmp z y) eqn:Ty; try reflexivity.
  exfalso. apply Z.leb_gt in E. unfold cmp_tie in *.
  apply Z.eqb_eq in Tx, Ty. pose proof (cmp_eq_trans C x y z Tx Ty). lia.
Qed.

(** Stability: among the elements that tie with any given one, the order of
    the input is kept. *)
Lemma Array_sort_ties (z : A) (l : list A) :
  Consistent cmp -> filter (cmp_tie cmp z) (Array_sort cmp l) = filter (cmp_tie cmp z) l.
Proof.
  intros C. induction l as [|x l IH]; [reflexivity|].
  simpl Array_sort. rewrite (sort_insert_ties _ _ _ C). simpl. now rewrite IH.
Qed.

End ArraySortFacts.

(** Comparators built from consistent ones. *)

Lemma Consistent_on {A B : Type} (f : A -> B) (c : B -> B -> Z) :
  Consistent c -> Consistent (fun a b => c (f a) (f b)).
Proof.
  intros [H1 H2]. split; intros.
  - apply H1.
  - now apply (H2 _ (f y)).
Qed.

Lemma Consistent_opp {A : Type} (c : A -> A -> Z) :
  Consistent c -> Consistent (fun a b => (- c a b)%Z).
Proof.
  intros C. split; intros.
  - pose proof (cmp_antisym _ C y x). lia.
  - assert (Lzy : (c z y <= 0)%Z).
    { pose proof (cmp_antisym _ C y z). pose proof (cmp_antisym _ C z y). lia. }
    assert (Lyx : (c y x <= 0)%Z).
    { pose proof (cmp_antisym _ C x y). pose proof (cmp_antisym _ C y x). lia. }
    pose proof (cmp_le_trans _ C z y x Lzy Lyx).
    pose proof (cmp_antisym _ C x z). pose proof (cmp_antisym _ C z x). lia.
Qed.

Lemma Consistent_sub {A : Type} (f : A -> Z) :
  Consistent (fun a b => (f a - f b)%Z).
Proof. split; intros; lia. Qed.

Lemma Consistent_zero {A : Type} : Consistent (fun _ _ : A => 0%Z).
Proof. split; intros; lia. Qed.

(* ================================================================== *)
(** ** Facts on the store of arrays *)

Module HeapFacts.

Section StoreFacts.
Context {A : Type}.

Lemma read_alloc_old (h : Heap.t A) (content : list A) (r : Heap.ref) :
  Heap.allocated h r -> Heap.read (fst (Heap.alloc h content)) r = Heap.read h r.
Proof. unfold Heap.read, Heap.alloc, Heap.allocated. simpl. intros. now rewrite app_nth1. Qed.

Lemma read_alloc_new (h : Heap.t A) (content : list A) :
  Heap.read (fst (Heap.alloc h content)) (snd (Heap.alloc h content)) = content.
Proof. unfold Heap.read, Heap.alloc. simpl. now rewrite nth_middle. Qed.

Lemma write_length (h : Heap.t A) (r : Heap.ref) (content : list A) :
  List.length (Heap.write h r content) = List.length h.
Proof.
  revert r; induction h as [|c h IH]; intros [|r]; simpl; auto.
Qed.

Lemma read_write_same (h : Heap.t A) (r : Heap.ref) (content : list A) :
  Heap.allocated h r -> Heap.read (Heap.write h r content) r = content.
Proof.
  unfold Heap.read, Heap.allocated. revert r; induction h as [|c h IH]; intros [|r] L;
    simpl in *; try lia; [reflexivity|]. apply IH. lia.
Qed.

Lemma read_write_other (h : Heap.t A) (r r' : Heap.ref) (content : list A) :
  r <> r' -> Heap.read (Heap.write h r content) r' = Heap.read h r'.
Proof.
  unfold Heap.read. revert r r'; induction h as [|c h IH]; intros [|r] [|r'] N;
    simpl; try reflexivity; try congruence. apply IH. congruence.
Qed.

End StoreFacts.

End HeapFacts.

(** A list that is sorted already is left as it is, so sorting twice is
    sorting once. *)
Lemma Array_sort_of_sorted {A : Type} (cmp : A -> A -> Z) (l : list A) :
  Sorted (cmp_le cmp) l -> Array_sort cmp l = l.
Proof.
  induction 1 as [|x l S IH Hd]; [reflexivity|].
  simpl. rewrite IH. destruct Hd as [|y l' Hxy]; [reflexivity|].
  simpl. unfold cmp_le in Hxy. apply Z.leb_le in Hxy. now rewrite Hxy.
Qed.

Lemma Array_sort_idem {A : Type} (cmp : A -> A -> Z) (l : list A) :
  Consistent cmp -> Array_sort cmp (Array_sort cmp l) = Array_sort cmp l.
Proof. intros C. now apply Array_sort_of_sorted, Array_sort_sorted. Qed.

Lemma StronglySorted_filter {A : Type} (R : A -> A -> Prop) (f : A -> bool) (l : list A) :
  StronglySorted R l -> StronglySorted R (filter f l).
Proof.
  induction 1 as [|x l S IH F]; simpl; [constructor|].
  destruct (f x); [|exact IH]. constructor; [exact IH|].
  apply Forall_forall. intros y Hy. apply filter_In in Hy as [Hy _].
  revert y Hy. now apply Forall_forall.
Qed.

Lemma Array_sort_strongly_sorted {A : Type} (cmp : A -> A -> Z) (l : list A) :
  Consistent cmp -> StronglySorted (cmp_le cmp) (Array_sort cmp l).
Proof.
  intros C. apply Sorted_StronglySorted; [|now apply Array_sort_sorted].
  intros x y z. apply (cmp_le_trans _ C).
Qed.

Lemma Array_sort_In {A : Type} (cmp : A -> A -> Z) (l : list A) (x : A) :
  In x (Array_sort cmp l) <-> In x l.
Proof.
  split; apply Permutation_in; [|symmetry]; apply Array_sort_perm.
Qed.

Lemma codeunit_compare_consistent : Consistent codeunit_compare.
Proof.
  assert (Irr : forall x, ~ OrdersEx.String_as_OT.lt x x)
    by (intros x; apply (StrictOrder_Irreflexive x)).
  assert (Tr : forall x y z, OrdersEx.String_as_OT.lt x y ->
                             OrdersEx.String_as_OT.lt y z ->
                             OrdersEx.String_as_OT.lt x z)
    by (intros x y z; apply (StrictOrder_Transitive x y z)).
  assert (As : forall x y, OrdersEx.String_as_OT.lt x y ->
                           OrdersEx.String_as_OT.lt y x -> False)
    by (intros x y H1 H2; exact (Irr x (Tr x y x H1 H2))).
  unfold codeunit_compare. split.
  - intros x y.
    destruct (OrdersEx.String_as_OT.compare_spec x y) as [E|L|G],
             (OrdersEx.String_as_OT.compare_spec y x) as [E'|L'|G'];
      try (split; intros; lia); exfalso;
      try (rewrite E in *); try (rewrite E' in *);
      solve [ eapply Irr; eassumption | eapply As; eassumption ].
  - intros x y z.
    destruct (OrdersEx.String_as_OT.compare_spec x y) as [E|L|G],
             (OrdersEx.String_as_OT.compare_spec y z) as [E'|L'|G'],
             (OrdersEx.String_as_OT.compare_spec x z) as [E''|L''|G''];
      intros; try lia; exfalso;
      try (rewrite E in *); try (rewrite E' in *); try (rewrite E'' in *);
      solve [ eapply Irr; eassumption
            | eapply As; eassumption
            | eapply As; [eassumption | eapply Tr; eassumption] ].
Qed.

(** The sort with a comparator that need not report ties: when, of two
    elements, the comparator puts at least one before the other, and
    being put before is transitive, the result is in that order. *)
Lemma sort_insert_sorted_total {A : Type} (cmp : A -> A -> Z) (x : A) (l : list A) :
  (forall a b, (0 < cmp a b)%Z -> (cmp b a <= 0)%Z) ->
  Sorted (cmp_le cmp) l -> Sorted (cmp_le cmp) (sort_insert cmp x l).
Proof.
  intros T. induction 1 as [|y l S IH Hd]; simpl.
  - repeat constructor.
  - destruct (cmp x y <=? 0)%Z eqn:E.
    + constructor; [now constructor|]. constructor. now apply Z.leb_le.
    + constructor; [exact IH|].
      assert (Lyx : cmp_le cmp y x).
      { apply Z.leb_gt in E. unfold cmp_le. now apply T. }
      destruct l as [|z l]; simpl; [now constructor|].
      destruct (cmp x z <=? 0)%Z; constructor; [exact Lyx|].
      now inversion Hd.
Qed.

Lemma Array_sort_strongly_sorted_total {A : Type} (cmp : A -> A -> Z) (l : list A) :
  (forall a b, (0 < cmp a b)%Z -> (cmp b a <= 0)%Z) ->
  (forall a b c, cmp_le cmp a b -> cmp_le cmp b c -> cmp_le cmp a c) ->
  StronglySorted (cmp_le cmp) (Array_sort cmp l).
Proof.
  intros T Tr. apply Sorted_StronglySorted; [exact Tr|].
  induction l as [|x l IH]; simpl; [constructor|].
  now apply sort_insert_sorted_total.
Qed.

Lemma StronglySorted_impl {A : Type} (R R' : A -> A -> Prop) (l : list A) :
  (forall a b, R a b -> R' a b) -> StronglySorted R l -> StronglySorted R' l.
Proof.
  intros I. induction 1 as [|x l S IH F]; constructor; [exact IH|].
  eapply Forall_impl; [|exact F]. intros b. apply I.
Qed.

(** The order of strings by code units. *)
Lemma ascii_compare_cases (a b c : ascii) :
  match Ascii.compare a b, Ascii.compare b c with
  | Eq, r => Ascii.compare a c = r
  | r, Eq => Ascii.compare a c = r
  | Lt, Lt => Ascii.compare a c = Lt
  | Gt, Gt => Ascii.compare a c = Gt
  | _, _ => True
  end.
Proof.
  unfold Ascii.compare.
  destruct (N.compare_spec (N_of_ascii a) (N_of_ascii b)) as [E|L|G];
  destruct (N.compare_spec (N_of_ascii b) (N_of_ascii c)) as [E'|L'|G']; auto;
    first [ apply N.compare_eq_iff; lia | apply N.compare_lt_iff; lia
          | apply N.compare_gt_iff; lia ].
Qed.

Lemma string_compare_le_trans (x : string) : forall y z,
  String.compare x y <> Gt -> String.compare y z <> Gt -> String.compare x z <> Gt.
Proof.
  induction x as [|a x IH]; intros [|b y] [|c z]; simpl; try congruence.
  pose proof (ascii_compare_cases a b c) as K.
  destruct (Ascii.compare a b), (Ascii.compare b c); try congruence; rewrite K;
    try congruence.
  apply IH.
Qed.

Lemma string_ltb_le_trans (x y z : string) :
  String.ltb y x = false -> String.ltb z y = false -> String.ltb z x = false.
Proof.
  unfold String.ltb. intros A B.
  pose proof (string_compare_le_trans x y z) as T.
  rewrite (String.compare_antisym y x) in A. rewrite (String.compare_antisym z y) in B.
  rewrite (String.compare_antisym z x).
  destruct (String.compare x y), (String.compare y z), (String.compare x z);
    simpl in *; try congruence; exfalso; apply T; congruence.
Qed.

Lemma string_ltb_asym (x y : string) : String.ltb x y = true -> String.ltb y x = false.
Proof.
  unfold String.ltb. rewrite (String.compare_antisym y x).
  destruct (String.compare x y); simpl; congruence.
Qed.


(* ================================================================== *)
(** ** Facts on sets, loops and searches *)

Module JsSetFacts.
Import JsSet.

Lemma has_In (s : t) (x : string) : has s x = true <-> In x s.
Proof.
  unfold has. rewrite existsb_exists. split.
  - intros (y & Hy & E). apply String.eqb_eq in E. now subst.
  - intros H. exists x. split; [exact H | apply String.eqb_refl].
Qed.

Lemma has_false (s : t) (x : string) : has s x = false <-> ~ In x s.
Proof.
  rewrite <- has_In. destruct (has s x); split; congruence.
Qed.

Lemma In_add (s : t) (x y : string) : In y (add s x) <-> In y s \/ y = x.
Proof.
  unfold add. destruct (has s x) eqn:H.
  - apply has_In in H. split; [auto | intros [?| ->]; assumption].
  - rewrite in_app_iff. simpl. intuition congruence.
Qed.

Lemma In_delete (s : t) (x y : string) : In y (delete s x) <-> In y s /\ y <> x.
Proof.
  unfold delete. rewrite filter_In, negb_true_iff, String.eqb_neq. reflexivity.
Qed.

Lemma has_add (s : t) (x y : string) :
  has (add s x) y = has s y || String.eqb y x.
Proof.
  apply eq_true_iff_eq. rewrite orb_true_iff, !has_In, In_add, String.eqb_eq.
  reflexivity.
Qed.

Lemma has_delete (s : t) (x y : string) :
  has (delete s x) y = has s y && negb (String.eqb y x).
Proof.
  apply eq_true_iff_eq.
  rewrite andb_true_iff, negb_true_iff, !has_In, In_delete, String.eqb_neq.
  reflexivity.
Qed.

Lemma NoDup_add (s : t) (x : string) : NoDup s -> NoDup (add s x).
Proof.
  intros N. unfold add. destruct (has s x) eqn:H; [exact N|].
  apply has_false in H. apply NoDup_app; [exact N | repeat constructor; simpl; tauto |].
  intros y Hy [<-|[]]. contradiction.
Qed.

Lemma NoDup_delete (s : t) (x : string) : NoDup s -> NoDup (delete s x).
Proof. apply NoDup_filter. Qed.

(** Adding the elements of a list one by one. *)
Lemma In_fold_add (l : list string) (s : t) (y : string) :
  In y (fold_left add l s) <-> In y s \/ In y l.
Proof.
  revert s; induction l as [|x l IH]; intros s; simpl; [tauto|].
  rewrite IH, In_add. intuition.
Qed.

End JsSetFacts.

Lemma findIndex_Some {A : Type} (pred : A -> bool) (items : list A) (i : nat) :
  findIndex pred items = Some i <->
  (exists x, nth_error items i = Some x /\ pred x = true) /\
  (forall j y, (j < i)%nat -> nth_error items j = Some y -> pred y = false).
Proof.
  revert i; induction items as [|a items IH]; intros i; simpl.
  - split; [discriminate|]. intros [(x & H & _) _]. now destruct i.
  - destruct (pred a) eqn:Pa.
    + split.
      * intros [= <-]. split; [now exists a|]. intros j y Hj. lia.
      * intros [(x & Hx & Px) Hmin]. destruct i as [|i]; [reflexivity|].
        specialize (Hmin O a (Nat.lt_0_succ _) eq_refl). congruence.
    + destruct (findIndex pred items) as [k|] eqn:F.
      * split.
        -- intros [= <-]. destruct (proj1 (IH k) eq_refl) as [Hex Hmin].
           split; [exact Hex|]. intros [|j] y Hj Hy; simpl in Hy.
           ++ congruence.
           ++ apply (Hmin j); [lia | exact Hy].
        -- intros [(x & Hx & Px) Hmin]. destruct i as [|i]; simpl in Hx.
           ++ congruence.
           ++ f_equal. assert (E : Some k = Some i); [|congruence].
              apply IH. split; [now exists x|].
              intros j y Hj Hy. apply (Hmin (S j)); [lia | exact Hy].
      * split; [discriminate|].
        intros [(x & Hx & Px) Hmin]. destruct i as [|i]; simpl in Hx.
        -- congruence.
        -- assert (E : None = Some i); [|discriminate].
           apply IH. split; [now exists x|].
           intros j y Hj Hy. apply (Hmin (S j)); [lia | exact Hy].
Qed.

Lemma findIndex_None {A : Type} (pred : A -> bool) (items : list A) :
  findIndex pred items = None <-> forall x, In x items -> pred x = false.
Proof.
  induction items as [|a items IH]; simpl.
  - split; [intros _ x [] | reflexivity].
  - destruct (pred a) eqn:Pa.
    + split; [discriminate|]. intros H. specialize (H a (or_introl eq_refl)). congruence.
    + destruct (findIndex pred items) eqn:F.
      * split; [discriminate|]. intros H.
        assert (Some n = None); [|discriminate].
        apply IH. intros x Hx. apply H. now right.
      * split; [|reflexivity]. intros _ x [<-|Hx]; [exact Pa|].
        now apply (proj1 IH).
Qed.

Lemma skipn_nth_error {A : Type} (l : list A) (i : nat) (x : A) :
  nth_error l i = Some x -> skipn i l = x :: skipn (S i) l.
Proof.
  revert l; induction i as [|i IH]; intros [|a l] H; simpl in *; try discriminate.
  - now injection H as ->.
  - now apply IH.
Qed.

(** A loop over the indices of a range does to the state what a fold over
    that segment of the list does. *)
Lemma for_incl_segment {A S : Type} (items : list A) (f : A -> S -> S) :
  forall n lo s,
    (lo + n <= List.length items)%nat ->
    fold_left
      (fun acc i =>
         match nth_error items i with
         | Some x => f x acc
         | None => acc
         end)
      (seq lo n) s
    = fold_left (fun acc x => f x acc) (firstn n (skipn lo items)) s.
Proof.
  induction n as [|n IH]; intros lo s L; [reflexivity|].
  destruct (nth_error items lo) as [x|] eqn:E.
  - rewrite (skipn_nth_error _ _ _ E). simpl. rewrite E. apply IH. lia.
  - apply nth_error_None in E. lia.
Qed.

Lemma In_segment {A : Type} (l : list A) (lo n : nat) (x : A) :
  In x (firstn n (skipn lo l)) <->
  exists i, (lo <= i < lo + n)%nat /\ nth_error l i = Some x.
Proof.
  split.
  - intros H. apply In_nth_error in H as (k & Hk).
    rewrite nth_error_firstn in Hk. destruct (k <? n)%nat eqn:Lt; [|discriminate].
    apply Nat.ltb_lt in Lt. rewrite nth_error_skipn in Hk.
    exists (lo + k)%nat. split; [lia | exact Hk].
  - intros (i & Hi & E). apply (nth_error_In _ (i - lo)).
    rewrite nth_error_firstn.
    replace (i - lo <? n)%nat with true by (symmetry; apply Nat.ltb_lt; lia).
    rewrite nth_error_skipn. now replace (lo + (i - lo))%nat with i by lia.
Qed.

Lemma findIndex_lt {A : Type} (pred : A -> bool) (items : list A) (i : nat) :
  findIndex pred items = Some i -> (i < List.length items)%nat.
Proof.
  intros H. apply findIndex_Some in H as [(x & Hx & _) _].
  apply nth_error_Some. congruence.
Qed.

Lemma range_pivot_is_pivot {A : Type} (key : A -> string) (items : list A)
    (anchor : option string) (t : nat) :
  is_pivot (map key items) anchor t
    (range_pivot
       (match anchor with
        | Some ap => findIndex (fun item => String.eqb (key item) ap) items
        | None => None
        end) t).
Proof.
  destruct anchor as [ap|]; simpl; [|reflexivity].
  destruct (findIndex _ items) as [a|] eqn:F; simpl.
  - left. apply findIndex_Some in F as [(x & Hx & Px) Hmin].
    apply String.eqb_eq in Px. split.
    + now rewrite nth_error_map, Hx, <- Px.
    + intros j Hj Hc. rewrite nth_error_map in Hc.
      destruct (nth_error items j) as [y|] eqn:Hy; [|discriminate].
      simpl in Hc. injection Hc as Hc. specialize (Hmin j y Hj Hy).
      apply String.eqb_neq in Hmin. contradiction.
  - right. split; [|reflexivity].
    rewrite in_map_iff. intros (y & Ky & Hy).
    pose proof (proj1 (findIndex_None _ _) F y Hy) as Hn.
    apply String.eqb_neq in Hn. contradiction.
Qed.

Lemma is_pivot_unique (paths : list string) (anchor : option string) (t a b : nat) :
  is_pivot paths anchor t a -> is_pivot paths anchor t b -> a = b.
Proof.
  destruct anchor as [ap|]; simpl; [|congruence].
  intros [[Ha Ma]|[Na ->]] [[Hb Mb]|[Nb ->]]; try reflexivity.
  - destruct (Nat.lt_trichotomy a b) as [L|[E|L]]; [|exact E|].
    + now specialize (Mb a L).
    + now specialize (Ma b L).
  - exfalso. apply Nb. eapply nth_error_In, Ha.
  - exfalso. apply Na. eapply nth_error_In, Hb.
Qed.

Lemma is_pivot_lt (paths : list string) (anchor : option string) (t a : nat) :
  (t < List.length paths)%nat -> is_pivot paths anchor t a ->
  (a < List.length paths)%nat.
Proof.
  intros Lt. destruct anchor as [ap|]; simpl; [|now intros ->].
  intros [[Ha _]|[_ ->]]; [|exact Lt]. apply nth_error_Some. congruence.
Qed.

(** The paths a range selection adds: exactly those at the indices of the
    closed interval. *)
Lemma In_range_paths (paths : list string) (sel0 : JsSet.t) (lo hi : nat) (p : string) :
  (lo <= hi)%nat ->
  In p (fold_left JsSet.add (firstn (S hi - lo) (skipn lo paths)) sel0) <->
  In p sel0 \/ exists i, (lo <= i <= hi)%nat /\ nth_error paths i = Some p.
Proof.
  intros L. rewrite JsSetFacts.In_fold_add, In_segment.
  split; (intros [H|(i & Hi & E)]; [now left | right; exists i; split; [lia | exact E]]).
Qed.

Lemma In_firstn {A : Type} (k : nat) (l : list A) (x : A) :
  In x (firstn k l) -> In x l.
Proof.
  revert l; induction k as [|k IH]; intros [|a l]; simpl; try tauto.
  intros [->|H]; [now left | right; now apply IH].
Qed.

Lemma filter_swap {A : Type} (f g : A -> bool) (l : list A) :
  filter f (filter g l) = filter g (filter f l).
Proof.
  induction l as [|x l IH]; simpl; [reflexivity|].
  destruct (g x) eqn:G, (f x) eqn:F; simpl; rewrite ?G, ?F, IH; reflexivity.
Qed.

Lemma Permutation_filter_compat {A : Type} (f : A -> bool) (l l' : list A) :
  Permutation l l' -> Permutation (filter f l) (filter f l').
Proof.
  induction 1 as [|x l l' P IH|x y l|l l' l'' P1 IH1 P2 IH2]; simpl.
  - constructor.
  - destruct (f x); [now constructor | exact IH].
  - destruct (f x), (f y); try reflexivity. apply perm_swap.
  - now transitivity (filter f l').
Qed.

(* ================================================================== *)
(** ** Facts on the bulk operation runner *)

Module UtilitiesFacts.
Import Utilities.

Section BulkFacts.
Context {Item W E : Type}.

(** The operation of one item takes the world to a new world and either
    completes or throws. *)
Variable onItem : Item -> nat -> W -> W * option E.

Lemma started_app (l1 l2 : list (Event Item)) :
  started (l1 ++ l2) = (started l1 ++ started l2)%list.
Proof.
  induction l1 as [|ev l1 IH]; simpl; [reflexivity|].
  destruct ev; simpl; now rewrite IH.
Qed.

Lemma mentions_progress_app (l1 l2 : list (Event Item)) :
  mentions_progress (l1 ++ l2) = mentions_progress l1 || mentions_progress l2.
Proof. apply existsb_app. Qed.

(** The loop on a run in which every operation completes. *)
Lemma bulk_loop_completes label isBulk total :
  forall items i w w' log,
    completes onItem i items w w' ->
    exists log',
      bulk_loop onItem label isBulk total i items w log = (w', log', None) /\
      started log' = (started log ++ items)%list /\
      (isBulk = false -> mentions_progress log' = mentions_progress log).
Proof.
  induction items as [|x rest IH]; intros i w w' log C;
    inversion C as [|? ? ? ? w1 ? Hx Hrest]; subst.
  - exists log. simpl. rewrite app_nil_r. auto.
  - simpl. rewrite Hx.
    destruct (IH _ _ _
               (if isBulk
                then ((log ++ [OnItem x i]) ++ [ShowBulkProgress label (S i) total])%list
                else (log ++ [OnItem x i])%list) Hrest) as (log' & Eq & St & Pr).
    exists log'. split; [exact Eq|]. split.
    + rewrite St. destruct isBulk; rewrite !started_app; simpl;
        rewrite <- ?app_assoc, ?app_nil_r; reflexivity.
    + intros ->. rewrite (Pr eq_refl), mentions_progress_app. simpl.
      now rewrite !orb_false_r.
Qed.

(** The loop on a run whose operation at [x] throws after those of [pre]
    completed. *)
Lemma bulk_loop_stops label isBulk total :
  forall pre i x post w w1 w2 e log,
    completes onItem i pre w w1 ->
    onItem x (i + List.length pre) w1 = (w2, Some e) ->
    exists log',
      bulk_loop onItem label isBulk total i (pre ++ x :: post) w log = (w2, log', Some e) /\
      started log' = (started log ++ pre ++ [x])%list /\
      (isBulk = false -> mentions_progress log' = mentions_progress log).
Proof.
  induction pre as [|y pre IH]; intros i x post w w1 w2 e log C F;
    inversion C as [|? ? ? ? w0 ? Hy Hrest]; subst.
  - simpl in *. rewrite Nat.add_0_r in F. rewrite F.
    exists (log ++ [OnItem x i])%list. split; [reflexivity|]. split.
    + now rewrite started_app.
    + intros _. rewrite mentions_progress_app. simpl. now rewrite !orb_false_r.
  - simpl. rewrite Hy.
    simpl in F. rewrite <- Nat.add_succ_comm in F.
    destruct (IH _ _ post _ _ _ _
               (if isBulk
                then ((log ++ [OnItem y i]) ++ [ShowBulkProgress label (S i) total])%list
                else (log ++ [OnItem y i])%list) Hrest F) as (log' & Eq & St & Pr).
    exists log'. split; [exact Eq|]. split.
    + rewrite St. destruct isBulk; rewrite !started_app; simpl;
        rewrite <- ?app_assoc, ?app_nil_r; reflexivity.
    + intros ->. rewrite (Pr eq_refl), mentions_progress_app. simpl.
      now rewrite !orb_false_r.
Qed.

(** A run in which every operation completes: all operations were started,
    in list order, the world is the one they leave one after the other, and
    no exception leaves the runner.  The progress bar is not touched for a
    list of one item. *)
Lemma runBulkOperation_completes (label : string) :
  forall items w w' log,
    completes onItem 0 items w w' ->
    exists log',
      runBulkOperation onItem label items w log = (w', log', None) /\
      started log' = (started log ++ items)%list /\
      ((List.length items <= 1)%nat -> mentions_progress log' = mentions_progress log).
Proof.
  intros items w w' log C. unfold runBulkOperation.
  destruct (Nat.eqb (List.length items) 0) eqn:Z.
  - apply Nat.eqb_eq in Z. destruct items; [|discriminate].
    inversion C; subst. exists log. rewrite app_nil_r. auto.
  - destruct (bulk_loop_completes label (Nat.ltb 1 (List.length items))
                (List.length items) items 0 w w'
                (if Nat.ltb 1 (List.length items)
                 then (log ++ [ShowBulkProgress label 0 (List.length items)])%list
                 else log) C) as (log' & Eq & St & Pr).
    rewrite Eq. eexists. split; [reflexivity|]. split.
    + destruct (Nat.ltb 1 (List.length items)); rewrite ?started_app, St, ?started_app;
        simpl; now rewrite ?app_nil_r.
    + intros L. assert (B : Nat.ltb 1 (List.length items) = false)
        by (apply Nat.ltb_ge; lia).
      rewrite B in *. now apply Pr.
Qed.

(** A run in which the operation of [x] throws after those of [pre]
    completed: the operations of [pre] and of [x] were started, in that
    order, and none of [post]; the world is the one the operation of [x]
    left, with what the operations of [pre] did; the exception of [x] leaves
    the runner. *)
Lemma runBulkOperation_stops (label : string) :
  forall pre x post w w1 w2 e log,
    completes onItem 0 pre w w1 ->
    onItem x (List.length pre) w1 = (w2, Some e) ->
    exists log',
      runBulkOperation onItem label (pre ++ x :: post) w log = (w2, log', Some e) /\
      started log' = (started log ++ pre ++ [x])%list /\
      ((List.length (pre ++ x :: post) <= 1)%nat ->
       mentions_progress log' = mentions_progress log).
Proof.
  intros pre x post w w1 w2 e log C F. unfold runBulkOperation.
  set (items := (pre ++ x :: post)%list).
  destruct (Nat.eqb (List.length items) 0) eqn:Z.
  - apply Nat.eqb_eq in Z. unfold items in Z. rewrite length_app in Z. simpl in Z. lia.
  - destruct (bulk_loop_stops label (Nat.ltb 1 (List.length items))
                (List.length items) pre 0 x post w w1 w2 e
                (if Nat.ltb 1 (List.length items)
                 then (log ++ [ShowBulkProgress label 0 (List.length items)])%list
                 else log) C F) as (log' & Eq & St & Pr).
    fold items in Eq. rewrite Eq. eexists. split; [reflexivity|]. split.
    + destruct (Nat.ltb 1 (List.length items)); rewrite ?started_app, St, ?started_app;
        simpl; now rewrite ?app_nil_r.
    + intros L. assert (B : Nat.ltb 1 (List.length items) = false)
        by (apply Nat.ltb_ge; lia).
      rewrite B in *. now apply Pr.
Qed.

(** Whatever the operations do, those that were started are a prefix of
    the list. *)
Lemma bulk_loop_started_prefix label isBulk total :
  forall items i w log,
    exists k,
      started (snd (fst (bulk_loop onItem label isBulk total i items w log)))
      = (started log ++ firstn k items)%list.
Proof.
  induction items as [|x rest IH]; intros i w log; simpl.
  - exists 0%nat. now rewrite app_nil_r.
  - destruct (onItem x i w) as [w1 [e|]].
    + exists 1%nat. simpl. now rewrite started_app.
    + destruct (IH (S i) w1
                  (if isBulk
                   then ((log ++ [OnItem x i]) ++ [ShowBulkProgress label (S i) total])%list
                   else (log ++ [OnItem x i])%list)) as (k & Hk).
      exists (S k). rewrite Hk.
      destruct isBulk; rewrite !started_app; simpl;
        rewrite <- ?app_assoc, ?app_nil_r; reflexivity.
Qed.

Lemma runBulkOperation_started_prefix (label : string) :
  forall items w,
    exists k,
      started (snd (fst (runBulkOperation onItem label items w [])))
      = firstn k items.
Proof.
  intros items w. unfold runBulkOperation.
  destruct (Nat.eqb (List.length items) 0); [now exists 0%nat|].
  destruct (bulk_loop_started_prefix label (Nat.ltb 1 (List.length items))
              (List.length items) items 0 w
              (if Nat.ltb 1 (List.length items)
               then ([] ++ [ShowBulkProgress label 0 (List.length items)])%list
               else [])) as (k & Hk).
  exists k.
  destruct (bulk_loop _ _ _ _ _ _ _ _) as [[w1 log1] r]. simpl in *.
  destruct (Nat.ltb 1 (List.length items)); rewrite ?started_app, Hk; simpl;
    now rewrite ?app_nil_r.
Qed.

(** When no operation ever throws, every run completes. *)
Lemma completes_total :
  (forall x i w, snd (onItem x i w) = None) ->
  forall items i w, exists w', completes onItem i items w w'.
Proof.
  intros T. induction items as [|x rest IH]; intros i w.
  - exists w. constructor.
  - destruct (onItem x i w) as [w1 r] eqn:Ex.
    pose proof (T x i w) as Tx. rewrite Ex in Tx. simpl in Tx. subst r.
    destruct (IH (S i) w1) as (w' & C). exists w'. econstructor; eauto.
Qed.

End BulkFacts.

End UtilitiesFacts.
(* ================================================================== *)
(** ** Facts on path rewriting *)

Module PathRewriteFacts.
Import JsString PathRewrite.

(** *** Facts on prefixes *)

Lemma prefix_split (p s : string) :
  String.prefix p s = true -> s = p ++ slice s (String.length p).
Proof.
  revert s; induction p as [|c p IH]; intros s H.
  - reflexivity.
  - destruct s as [|d s]; simpl in H; [discriminate|].
    destruct (Ascii.ascii_dec c d) as [->|]; [|discriminate].
    simpl. f_equal. now apply IH.
Qed.

Lemma prefix_app (p r : string) : String.prefix p (p ++ r) = true.
Proof.
  induction p as [|c p IH]; simpl.
  - now destruct r.
  - destruct (Ascii.ascii_dec c c); [exact IH | congruence].
Qed.

Lemma prefix_refl (p : string) : String.prefix p p = true.
Proof.
  induction p as [|c p IH]; simpl; [reflexivity|].
  destruct (Ascii.ascii_dec c c); [exact IH | congruence].
Qed.

Lemma prefix_app_l (p q s : string) :
  String.prefix (p ++ q) s = true -> String.prefix p s = true.
Proof.
  revert s; induction p as [|c p IH]; intros s H.
  - now destruct s.
  - destruct s as [|d s]; simpl in *; [discriminate|].
    destruct (Ascii.ascii_dec c d); [now apply IH | discriminate].
Qed.

Lemma length_append (a b : string) :
  String.length (a ++ b) = (String.length a + String.length b)%nat.
Proof. induction a as [|c a IH]; simpl; [reflexivity | now rewrite IH]. Qed.

Lemma append_inv_tail (a b r : string) : a ++ r = b ++ r -> a = b.
Proof.
  intros H.
  assert (L : String.length a = String.length b).
  { apply (f_equal String.length) in H.
    rewrite !length_append in H. lia. }
  revert b H L; induction a as [|c a IH]; intros [|d b] H L;
    simpl in *; try discriminate; [reflexivity|].
  injection H as -> H. f_equal. apply IH; [exact H | lia].
Qed.

Lemma selfOrUnder_split (oldPath p : string) :
  selfOrUnder oldPath p = true ->
  p = oldPath ++ slice p (String.length oldPath).
Proof.
  unfold selfOrUnder, startsWith. intros H.
  apply orb_true_iff in H as [H|H].
  - apply String.eqb_eq in H. subst p. apply prefix_split, prefix_refl.
  - apply prefix_split, (prefix_app_l _ "/"), H.
Qed.

(** The rewrite is a prefix replacement: a path that is the moved folder or
    lies under it keeps its remainder verbatim, any other path is returned
    as it is; and when the folder really moved, the rewrite changes a path
    exactly when it is the folder or lies under it. *)
Lemma movePath_prefix_replace (oldPath newPath p : string) :
  (selfOrUnder oldPath p = false -> movePath oldPath newPath p = p) /\
  (selfOrUnder oldPath p = true ->
     exists rest, p = oldPath ++ rest /\ movePath oldPath newPath p = newPath ++ rest) /\
  (oldPath <> newPath ->
     (movePath oldPath newPath p <> p <-> selfOrUnder oldPath p = true)).
Proof.
  unfold movePath, rebase. repeat split.
  - now intros ->.
  - intros H. rewrite H. exists (slice p (String.length oldPath)).
    split; [now apply selfOrUnder_split | reflexivity].
  - destruct (selfOrUnder oldPath p); [reflexivity | congruence].
  - intros U; rewrite U. intros E.
    rewrite (selfOrUnder_split _ _ U) in E at 2.
    apply append_inv_tail in E. congruence.
Qed.

(** C3.  The claim asks that after a rename every expanded path that is
    the renamed folder or lies under it is rewritten.  After the rename of
    [a] to [c], [updateFolderReferences] has rewritten the cache key, the
    current folder and the expanded path [a] itself, but the expanded path
    [a/b], which lies under [a] and has no cache entry, is still there and
    [c/b] is not; the rewrite that [handleDrop] applies to the same set
    gives [c] and [c/b].  [State] is rewritten before the elements of the
    page are looked up, so this holds whatever the page holds. *)
Theorem updateFolderReferences_skips_uncached_expanded :
  forall (El : Type) (dataset_path : El -> string) (set_dataset_path : El -> string -> El)
         (select : string -> option (El -> bool)) (dom : list El),
  let st' := fst (updateFolderReferences dataset_path set_dataset_path select
                    "a" "c" uncached_child_state dom) in
  selfOrUnder "a" "a/b" = true /\
  movePath "a" "c" "a/b" = "c/b" /\
  JsObj.keys (treeData st') = [""; "c"] /\
  currentPath st' = "c" /\
  expandedFolders st' = ["a/b"; "c"] /\
  JsSet.has (expandedFolders st') "a/b" = true /\
  JsSet.has (expandedFolders st') "c/b" = false /\
  handleDrop_expandedPaths "a" "c" (expandedFolders uncached_child_state) = ["c"; "c/b"].
Proof. intros El dataset_path set_dataset_path select dom. vm_compute. repeat split. Qed.

End PathRewriteFacts.

(* ================================================================== *)
(** ** Facts on the folder pane *)

Module TreeFacts.
Import JsString Tree.

(** *** Facts on the folder selection *)

Lemma selectedFolderPaths_stats (n : Nav) :
  selectedFolderPaths (updateSelectedFolderStats n) = selectedFolderPaths n.
Proof.
  unfold updateSelectedFolderStats.
  destruct (selectedFolderPaths n) eqn:E; simpl; now rewrite ?E.
Qed.

Lemma expandedFolders_stats (n : Nav) :
  expandedFolders (updateSelectedFolderStats n) = expandedFolders n.
Proof.
  unfold updateSelectedFolderStats.
  destruct (selectedFolderPaths n) eqn:E; simpl; now rewrite ?E.
Qed.

Lemma selectedTreeItem_stats (n : Nav) :
  selectedTreeItem (updateSelectedFolderStats n) = selectedTreeItem n.
Proof.
  unfold updateSelectedFolderStats.
  destruct (selectedFolderPaths n) eqn:E; simpl; now rewrite ?E.
Qed.

Lemma fold_add_paths (l : list TreeItemEl) (n : Nav) :
  selectedFolderPaths
    (fold_left
       (fun acc item =>
          set_selectedFolderPaths acc
            (JsSet.add (selectedFolderPaths acc) (dataset_path item)))
       l n)
  = fold_left JsSet.add (map dataset_path l) (selectedFolderPaths n).
Proof.
  revert n; induction l as [|x l IH]; intros n; simpl; [reflexivity|].
  now rewrite IH.
Qed.

(** The selection after a range selection, as a fold over the segment of
    the visible paths between the pivot and the target. *)
Lemma selectFolderRange_selected
    (dom : list TreeItemEl) (target : TreeItemEl) (additive : bool) (n : Nav) (t : nat) :
  indexOf (getVisibleFolderItems dom) target = Some t ->
  let items := getVisibleFolderItems dom in
  let a :=
    range_pivot
      (match anchorPath n with
       | Some ap => findIndex (fun item => String.eqb (dataset_path item) ap) items
       | None => None
       end) t in
  selectedFolderPaths (selectFolderRange dom target additive n)
  = fold_left JsSet.add
      (firstn (S (Nat.max a t) - Nat.min a t)
              (skipn (Nat.min a t) (map dataset_path items)))
      (if additive then selectedFolderPaths n else []).
Proof.
  intros Ht. cbv zeta. unfold selectFolderRange.
  set (items := getVisibleFolderItems dom) in *.
  assert (Lt : (t < List.length items)%nat) by (eapply findIndex_lt, Ht).
  rewrite Ht.
  set (a := range_pivot _ t).
  replace (match items with [] => n | _ :: _ => _ end)
    with (updateSelectedFolderStats
            (for_incl (Nat.min a t) (Nat.max a t)
               (fun i acc =>
                  match nth_error items i with
                  | Some item =>
                      set_selectedFolderPaths acc
                        (JsSet.add (selectedFolderPaths acc) (dataset_path item))
                  | None => acc
                  end)
               (if additive then n else set_selectedFolderPaths n [])))
    by (destruct items; [simpl in Lt; lia | reflexivity]).
  rewrite selectedFolderPaths_stats.
  assert (La : (a < List.length items)%nat).
  { rewrite <- (length_map dataset_path).
    apply (is_pivot_lt _ (anchorPath n) t);
      [now rewrite length_map | apply range_pivot_is_pivot]. }
  unfold for_incl. rewrite for_incl_segment by lia.
  rewrite fold_add_paths, skipn_map, firstn_map.
  now destruct additive.
Qed.

(** *** Facts on the delete of the selected folders *)

Lemma under_irrefl (p : string) : PathRewrite.under p p = false.
Proof.
  unfold PathRewrite.under, startsWith.
  induction p as [|c p IH]; simpl; [reflexivity|].
  destruct (Ascii.ascii_dec c c); [exact IH | congruence].
Qed.

Lemma under_neq (a b : string) : PathRewrite.under a b = true -> a <> b.
Proof. intros H ->. rewrite under_irrefl in H. discriminate. Qed.

(** The roots of a selection: the selected paths that do not lie strictly
    under another selected path. *)
Lemma uniqueRoots_In (sel : list string) (p : string) :
  In p (uniqueRoots sel) <->
  In p sel /\ forall other, In other sel -> PathRewrite.under other p = false.
Proof.
  unfold uniqueRoots. rewrite filter_In, negb_true_iff. split.
  - intros [Hin Hnone]. split; [exact Hin|]. intros other Ho.
    destruct (PathRewrite.under other p) eqn:U; [|reflexivity].
    exfalso. assert (X : existsb
      (fun other0 => negb (String.eqb other0 p) && startsWith p (other0 ++ "/")) sel = true).
    { apply existsb_exists. exists other. split; [exact Ho|].
      apply andb_true_iff. split; [|exact U].
      apply negb_true_iff, String.eqb_neq, under_neq, U. }
    congruence.
  - intros [Hin Hall]. split; [exact Hin|].
    destruct (existsb _ sel) eqn:X; [|reflexivity].
    apply existsb_exists in X as (other & Ho & Hc).
    apply andb_true_iff in Hc as [_ Hc].
    specialize (Hall other Ho). unfold PathRewrite.under in Hall. congruence.
Qed.

Section DeleteFacts.
Context {Remote : Type}.
Variable deleteFolder : string -> bool -> Remote -> Remote * option (option string).

Lemma deleteFolder_onItem_total :
  (forall p rem, snd (deleteFolder p false rem) = None) ->
  forall p i w, snd (deleteFolder_onItem deleteFolder p i w) = None.
Proof.
  intros T p i [n r]. unfold deleteFolder_onItem.
  pose proof (T p r) as Tp. destruct (deleteFolder p false r) as [r1 [e|]];
    [discriminate | reflexivity].
Qed.

End DeleteFacts.

Section DeleteRequestsFacts.
Context {Remote : Type}.
Variable deleteFolder : string -> bool -> Remote -> Remote * option (option string).

(** The callback of the delete calls the service once, with the path it
    was given and [recursive = false], whether the call is rejected or
    not. *)
Lemma deleteFolder_onItem_records
    (p : string) (i : nat) (n : Nav) (r : Remote) (received : list (string * bool)) :
  snd (snd (fst (deleteFolder_onItem (recording deleteFolder) p i (n, (r, received)))))
  = (received ++ [(p, false)])%list.
Proof.
  unfold deleteFolder_onItem, recording.
  destruct (deleteFolder p false r) as [r1 [e|]]; reflexivity.
Qed.

(** What the service has received after the loop of the runner: a call
    for each item up to the one that was rejected, or for all of them when
    the loop ends without a rejection. *)
Lemma bulk_loop_received (label : string) (isBulk : bool) (total : nat) :
  forall (items : list string) (i : nat) (n : Nav) (r : Remote)
         (received : list (string * bool)) (log : list (Utilities.Event string)),
    exists k,
      (k <= List.length items)%nat /\
      snd (snd (fst (fst (Utilities.bulk_loop (deleteFolder_onItem (recording deleteFolder))
                            label isBulk total i items (n, (r, received)) log))))
      = (received ++ map (fun p => (p, false)) (firstn k items))%list /\
      (snd (Utilities.bulk_loop (deleteFolder_onItem (recording deleteFolder))
              label isBulk total i items (n, (r, received)) log) = None ->
       k = List.length items).
Proof.
  induction items as [|x items IH]; intros i n r received log.
  - exists 0%nat. cbn. rewrite app_nil_r. auto.
  - cbn [Utilities.bulk_loop].
    pose proof (deleteFolder_onItem_records x i n r received) as R.
    destruct (deleteFolder_onItem (recording deleteFolder) x i (n, (r, received)))
      as [[n1 [r1 received1]] [e|]] eqn:O; cbn [fst snd] in R; subst received1.
    + exists 1%nat. cbn. split; [lia|]. split; [reflexivity|discriminate].
    + destruct (IH (S i) n1 r1 (received ++ [(x, false)])%list
                  (if isBulk
                   then ((log ++ [Utilities.OnItem x i])
                         ++ [Utilities.ShowBulkProgress label (S i) total])%list
                   else (log ++ [Utilities.OnItem x i])%list))
        as (k & Lk & Eq & All).
      exists (S k). split; [cbn; lia|]. split.
      * rewrite Eq. cbn. now rewrite <- app_assoc.
      * intros N. cbn. f_equal. now apply All.
Qed.

(** The requests of a confirmed delete: a call for each root, in order, up
    to the first rejected one; all of them when the delete does not end
    with the status message of a failure. *)
Lemma deleteRequests_roots (n : Nav) (r : Remote) :
  let roots := uniqueRoots (deleteSelectedFolders_selectedPaths n) in
  exists k,
    (k <= List.length roots)%nat /\
    deleteRequests deleteFolder n r = map (fun p => (p, false)) (firstn k roots) /\
    ((forall message,
        snd (deleteSelectedFolders_confirmed (recording deleteFolder) n (r, []))
        <> Some (DeleteFailed message)) ->
     k = List.length roots).
Proof.
  cbv zeta. unfold deleteRequests, deleteSelectedFolders_confirmed.
  destruct (deleteSelectedFolders_selectedPaths n) as [|p0 sel] eqn:S.
  - exists 0%nat. cbn. auto.
  - set (roots := uniqueRoots (p0 :: sel)).
    unfold Utilities.runBulkOperation.
    destruct (Nat.eqb (List.length roots) 0) eqn:Z.
    + apply Nat.eqb_eq in Z. exists 0%nat. cbn. split; [lia|]. split; [reflexivity|].
      intros _. symmetry. exact Z.
    + set (isBulk := Nat.ltb 1 (List.length roots)).
      set (log0 := if isBulk
                   then ([] ++ [Utilities.ShowBulkProgress "Deleting folders" 0
                                  (List.length roots)])%list
                   else []).
      destruct (bulk_loop_received "Deleting folders" isBulk (List.length roots)
                  roots 0 n r [] log0) as (k & Lk & Eq & All).
      exists k. split; [exact Lk|].
      destruct (Utilities.bulk_loop (deleteFolder_onItem (recording deleteFolder))
                  "Deleting folders" isBulk (List.length roots) 0 roots (n, (r, [])) log0)
        as [[[n1 [r1 received1]] log1] [e|]] eqn:L; cbn [fst snd] in Eq, All |- *.
      * split; [exact Eq|]. intros NF. exfalso. eapply NF. reflexivity.
      * split; [exact Eq|]. intros _. now apply All.
Qed.

End DeleteRequestsFacts.

(** C6, as stated, fails: with [Z], [Z/A] and [Z/A/B] selected, [Z/A/B]
    lies strictly under the selected [Z/A], yet the service receives no
    delete request for [Z/A]; the only request it receives is the one for
    [Z]. *)
Lemma nested_selection_counterexample :
  let sel := deleteSelectedFolders_selectedPaths nested_selection in
  let requests :=
    deleteRequests deletes_all nested_selection
      ["Z"; "Z/A"; "Z/A/B"; "Z/A/B/x.mp3"; "Y"] in
  In "Z/A" sel /\ In "Z/A/B" sel /\ PathRewrite.under "Z/A" "Z/A/B" = true /\
  requests = [("Z", false)] /\
  count_occ string_dec (map fst requests) "Z/A" <> 1%nat.
Proof. vm_compute. intuition discriminate. Qed.

(** C6, amended.  The paths handed to the bulk runner are the selected
    paths that do not lie strictly under another selected path.  The calls
    of [API.deleteFolder] that the remote service receives are calls for
    a prefix of them, in order, each with [recursive = false].  So a path
    that lies strictly under a selected folder is never requested.  When
    the delete does not end with the message of a failed request, the
    service has received a request for each of those roots, once for each,
    and for nothing else: for a selected folder [A] with a selected folder
    below it there is exactly one request provided [A] itself is not below
    another selected folder. *)
Theorem deleteSelectedFolders_requests_roots :
  forall (Remote : Type)
         (deleteFolder : string -> bool -> Remote -> Remote * option (option string))
         (n : Nav) (r : Remote),
    NoDup (selectedFolderPaths n) ->
    let sel := deleteSelectedFolders_selectedPaths n in
    let requests := deleteRequests deleteFolder n r in
    (forall p, In p (uniqueRoots sel) <->
               In p sel /\ forall other, In other sel -> PathRewrite.under other p = false)
    /\ (exists k, requests = map (fun p => (p, false)) (firstn k (uniqueRoots sel)))
    /\ (forall A B recursive,
          In A sel -> PathRewrite.under A B = true -> ~ In (B, recursive) requests)
    /\ ((forall message,
           snd (deleteSelectedFolders_confirmed (recording deleteFolder) n (r, []))
           <> Some (DeleteFailed message)) ->
        requests = map (fun p => (p, false)) (uniqueRoots sel) /\
        (forall p, In p (uniqueRoots sel) ->
                   count_occ string_dec (map fst requests) p = 1%nat) /\
        (forall p, ~ In p (uniqueRoots sel) ->
                   count_occ string_dec (map fst requests) p = 0%nat)).
Proof.
  intros Remote deleteFolder n r N sel requests.
  assert (Nsel : NoDup sel).
  { unfold sel, deleteSelectedFolders_selectedPaths.
    destruct (selectedFolderPaths n) as [|p0 l] eqn:S; [|exact N].
    destruct (selectedTreeItem n); repeat constructor; simpl; tauto. }
  destruct (deleteRequests_roots deleteFolder n r) as (k & Lk & Hk & Hall).
  fold sel requests in Hk, Lk.
  split; [apply uniqueRoots_In|]. split; [now exists k|]. split.
  - intros A B recursive HA U HB. rewrite Hk in HB.
    apply in_map_iff in HB as (q & Eq & HB). injection Eq as -> _.
    apply In_firstn in HB.
    apply uniqueRoots_In in HB as [_ HB]. specialize (HB A HA). congruence.
  - intros NF. specialize (Hall NF). fold sel in Hall.
    assert (Eq : requests = map (fun p => (p, false)) (uniqueRoots sel)).
    { rewrite Hk, Hall. now rewrite firstn_all. }
    split; [exact Eq|].
    assert (M : map fst requests = uniqueRoots sel).
    { rewrite Eq, map_map. cbn. apply map_id. }
    rewrite M. split.
    + intros p Hp. apply NoDup_count_occ'; [|exact Hp].
      unfold uniqueRoots. now apply NoDup_filter.
    + intros p Hp. now apply count_occ_not_In.
Qed.

Lemma deleteSelectedFolders_requests_roots_witness :
  NoDup (selectedFolderPaths nested_selection) /\
  deleteRequests deletes_all nested_selection ["Z"; "Z/A"; "Y"]
  = [("Z", false)] /\
  (forall recursive,
     ~ In ("Z/A/B", recursive)
          (deleteRequests deletes_all nested_selection ["Z"; "Z/A"; "Y"])).
Proof.
  assert (N : NoDup (selectedFolderPaths nested_selection)).
  { simpl. repeat constructor; simpl; intuition discriminate. }
  pose proof (deleteSelectedFolders_requests_roots (list string) deletes_all
                nested_selection ["Z"; "Z/A"; "Y"] N) as (_ & _ & Hunder & Hall).
  split; [exact N|]. split.
  - apply (proj1 (Hall ltac:(intros message; vm_compute; discriminate))).
  - intros recursive. apply (Hunder "Z/A" "Z/A/B"); [simpl; tauto | reflexivity].
Defined.

(** *** Facts on the click on a folder *)

(** The first statements of a plain click change the selection, the anchor
    and the stats requests, and nothing the collapse policy reads. *)
Lemma click_selection_frame (div : TreeItemEl) (a : option string) (n : Nav) :
  let n3 :=
    set_selectionAnchorPath
      (toggleFolderSelected div (Some true) (clearFolderSelection n)) a in
  selectedTreeItem n3 = selectedTreeItem n /\
  expandedFolders n3 = expandedFolders n.
Proof.
  cbv zeta. unfold toggleFolderSelected, clearFolderSelection.
  cbn [selectedTreeItem expandedFolders set_selectionAnchorPath].
  rewrite !selectedTreeItem_stats, !expandedFolders_stats.
  cbn [selectedTreeItem expandedFolders set_selectedFolderPaths].
  rewrite !selectedTreeItem_stats, !expandedFolders_stats.
  auto.
Qed.

Lemma selfOrUnder_false (a b : string) :
  PathRewrite.selfOrUnder a b = false ->
  a <> b /\ startsWith b (a ++ "/") = false.
Proof.
  unfold PathRewrite.selfOrUnder. intros H. apply orb_false_iff in H as [E U].
  apply String.eqb_neq in E. split; [congruence | exact U].
Qed.

Lemma under_truthy (a b : string) : PathRewrite.under a b = true -> truthy b = true.
Proof.
  unfold PathRewrite.under, startsWith, truthy. destruct b; [|reflexivity].
  destruct a; simpl; discriminate.
Qed.

Section ClickFacts.
Variable selectTreeItemCallback : TreeItemEl -> option bool -> Nav -> Nav.
Hypothesis callback_keeps_expansion :
  forall el flag n,
    expandedFolders (selectTreeItemCallback el flag n) = expandedFolders n.

(** The last step of a plain click, the toggle of the clicked folder,
    leaves every path but [item.path] as it is in the expansion set. *)
Lemma click_toggle_other (div : TreeItemEl) (item : Item) (n4 : Nav) (P : string) :
  P <> path item ->
  let n5 := selectTreeItemCallback div None n4 in
  JsSet.has
    (expandedFolders
       (if negb (children_expanded div)
        then set_expandedFolders
               (if Nat.eqb (children_count div) 0
                then push_childrenRequest n5 (path item) else n5)
               (JsSet.add
                  (expandedFolders
                     (if Nat.eqb (children_count div) 0
                      then push_childrenRequest n5 (path item) else n5))
                  (path item))
        else set_expandedFolders n5 (JsSet.delete (expandedFolders n5) (path item))))
    P
  = JsSet.has (expandedFolders n4) P.
Proof.
  intros Ne. cbv zeta.
  assert (NE : String.eqb P (path item) = false) by (now apply String.eqb_neq).
  destruct (children_expanded div); cbn [negb expandedFolders set_expandedFolders].
  - rewrite JsSetFacts.has_delete, callback_keeps_expansion, NE. apply andb_true_r.
  - destruct (Nat.eqb (children_count div) 0);
      cbn [expandedFolders push_childrenRequest];
      rewrite JsSetFacts.has_add, callback_keeps_expansion, NE; apply orb_false_r.
Qed.

(** A plain click on a folder while the current tree item is an element,
    an expanded folder [P]: whether [P] is collapsed is decided by
    [item.path], the path the handler closed over, and by nothing else.
    On another element, [P] leaves the expansion set when [item.path] is
    neither [P] nor below it; and [P] stays when [item.path] is below it.
    The callback of the shell is taken to leave the expansion set
    alone. *)
Lemma content_onclick_decides_by_item_path
    (dom : list TreeItemEl) (div previous : TreeItemEl) (item : Item) (n : Nav) :
  selectedTreeItem n = Some (Element previous) ->
  dataset_path previous <> "" ->
  JsSet.has (expandedFolders n) (dataset_path previous) = true ->
  let P := dataset_path previous in
  let result := content_onclick selectTreeItemCallback dom div item false false n in
  snd result = None /\
  (el_id previous <> el_id div ->
   PathRewrite.selfOrUnder P (path item) = false ->
   JsSet.has (expandedFolders (fst result)) P = false) /\
  (PathRewrite.under P (path item) = true ->
   JsSet.has (expandedFolders (fst result)) P = true).
Proof.
  intros Sel Pne Exp. cbv zeta.
  set (P := dataset_path previous) in *.
  destruct (click_selection_frame div (Some (dataset_path div)) n) as [F1 F2].
  cbv zeta in F1, F2.
  unfold content_onclick.
  set (n3 := set_selectionAnchorPath
               (toggleFolderSelected div (Some true) (clearFolderSelection n))
               (Some (dataset_path div))) in *.
  rewrite F1, Sel. cbn [selected_path]. fold P. rewrite F2, Exp.
  assert (TP : truthy P = true).
  { unfold truthy. apply negb_true_iff, String.eqb_neq, Pne. }
  rewrite TP. cbn [negb andb].
  destruct (Nat.eqb (el_id previous) (el_id div)) eqn:Hids; cbn [negb].
  - split; [reflexivity|]. cbn [fst]. split.
    + intros Hid. apply Nat.eqb_eq in Hids. contradiction.
    + intros U. rewrite click_toggle_other; [now rewrite F2|].
      intros E. apply (under_neq _ _ U). exact E.
  - destruct (truthy (path item) && startsWith (path item) (P ++ "/")) eqn:A;
      cbn [negb andb].
    + split; [reflexivity|]. cbn [fst]. split.
      * intros _ S. apply selfOrUnder_false in S as [_ U].
        rewrite U, andb_false_r in A. discriminate.
      * intros U. rewrite click_toggle_other; [now rewrite F2|].
        intros E. apply (under_neq _ _ U). exact E.
    + split; [reflexivity|]. cbn [fst]. split.
      * intros _ S. apply selfOrUnder_false in S as [Ne _].
        rewrite click_toggle_other by exact Ne.
        cbn [expandedFolders set_expandedFolders].
        rewrite JsSetFacts.has_delete, String.eqb_refl. apply andb_false_r.
      * intros U. exfalso.
        rewrite (under_truthy _ _ U) in A. unfold PathRewrite.under in U.
        rewrite U in A. discriminate.
Qed.

(** The same click while the current tree item is the stand-in object of
    a reload in progress, for an expanded folder [P], and [item.path] is
    not below [P]: the handler throws before it has collapsed anything.
    [P] is still in the expansion set, and the callback of the shell has
    not run: the current tree item still is the stand-in. *)
Lemma content_onclick_standin_throws
    (dom : list TreeItemEl) (div : TreeItemEl) (item : Item) (P : string) (n : Nav) :
  selectedTreeItem n = Some (StandIn P) ->
  P <> "" ->
  JsSet.has (expandedFolders n) P = true ->
  PathRewrite.under P (path item) = false ->
  let result := content_onclick selectTreeItemCallback dom div item false false n in
  snd result = Some TypeError /\
  JsSet.has (expandedFolders (fst result)) P = true /\
  selectedTreeItem (fst result) = Some (StandIn P).
Proof.
  intros Sel Pne Exp U. cbv zeta.
  destruct (click_selection_frame div (Some (dataset_path div)) n) as [F1 F2].
  cbv zeta in F1, F2.
  unfold content_onclick.
  set (n3 := set_selectionAnchorPath
               (toggleFolderSelected div (Some true) (clearFolderSelection n))
               (Some (dataset_path div))) in *.
  rewrite F1, Sel. cbn [selected_path]. rewrite F2, Exp.
  assert (TP : truthy P = true).
  { unfold truthy. apply negb_true_iff, String.eqb_neq, Pne. }
  unfold PathRewrite.under, startsWith in U. unfold startsWith.
  rewrite TP, U, andb_false_r. cbn [negb andb fst snd].
  rewrite F1, F2. auto.
Qed.

(** When the path the handler closed over is the path its element
    carries, and the current tree item is an element (one element carrying
    one path), the click follows the policy: a folder that is neither [P],
    nor above it, nor below it collapses [P]; a folder below [P] leaves it
    expanded. *)
Lemma content_onclick_policy
    (dom : list TreeItemEl) (div previous : TreeItemEl) (item : Item) (n : Nav) :
  path item = dataset_path div ->
  selectedTreeItem n = Some (Element previous) ->
  JsSet.has (expandedFolders n) (dataset_path previous) = true ->
  dataset_path previous <> "" ->
  (el_id previous = el_id div -> dataset_path previous = dataset_path div) ->
  let P := dataset_path previous in
  let Q := dataset_path div in
  let n' := fst (content_onclick selectTreeItemCallback dom div item false false n) in
  (PathRewrite.selfOrUnder P Q = false ->
   PathRewrite.selfOrUnder Q P = false ->
   JsSet.has (expandedFolders n') P = false)
  /\
  (PathRewrite.under P Q = true ->
   JsSet.has (expandedFolders n') P = true).
Proof.
  intros E Sel Exp Pne One. cbv zeta. rewrite <- E in *.
  destruct (content_onclick_decides_by_item_path dom div previous item n Sel Pne Exp)
    as (_ & Collapse & Keep).
  split.
  - intros S _. apply Collapse; [|exact S].
    intros I. apply selfOrUnder_false in S as [Ne _]. apply Ne. now apply One.
  - exact Keep.
Qed.

End ClickFacts.

(** The policy on the scenario of the design document: with [A] current
    and expanded, a click on its sibling [B] collapses [A], a click on
    [A/sub] does not. *)
Lemma content_onclick_policy_example :
  JsSet.has
    (expandedFolders
       (fst (content_onclick shell_selectTreeItem [] (mkEl 3 "B" true false 0)
               (mkItem "B" "B" "folder" None None None)
               false false A_expanded))) "A" = false
  /\
  JsSet.has
    (expandedFolders
       (fst (content_onclick shell_selectTreeItem [] (mkEl 2 "A/sub" true false 0)
               (mkItem "A/sub" "sub" "folder" None None None)
               false false A_expanded))) "A" = true.
Proof.
  split.
  - apply (proj1 (content_onclick_policy shell_selectTreeItem
                    (fun _ _ _ => eq_refl) [] (mkEl 3 "B" true false 0)
                    (mkEl 1 "A" true true 1) (mkItem "B" "B" "folder" None None None)
                    A_expanded eq_refl eq_refl eq_refl
                    ltac:(discriminate) ltac:(simpl; discriminate)));
      reflexivity.
  - apply (proj2 (content_onclick_policy shell_selectTreeItem
                    (fun _ _ _ => eq_refl) [] (mkEl 2 "A/sub" true false 0)
                    (mkEl 1 "A" true true 1)
                    (mkItem "A/sub" "sub" "folder" None None None)
                    A_expanded eq_refl eq_refl eq_refl
                    ltac:(discriminate) ltac:(simpl; discriminate))).
    reflexivity.
Defined.

(** C7.  The policy fails on two inputs that the code reaches.

    After the rename of folder [a] to [c] without a merge, the row of its
    child carries [dataset.path = c/b] ([updateDOMPaths] rewrote it, as
    the first statement shows) while the handler of that row still reads
    [item.path = a/b]: only the item of the renamed folder was updated.  With [c] current and expanded, a
    plain click on the child, which lies below [c], removes [c] from the
    expansion set; and the click expands, and asks the listing of, the
    path [a/b] that no longer exists.

    While a reload of the tree is waiting for its listings, the current
    tree item is the stand-in object for the selected path [A], which the
    reload has put into the expansion set.  A plain click on the sibling
    [B] then throws where it would collapse [A]: [A] stays expanded, and
    [B] does not become the current tree item. *)
Theorem content_onclick_collapse_on_switch_fails :
  (let c_current :=
     mkNav ["c"] (Some "c") (Some 1%Z) (Some (Element (mkEl 1 "c" true true 1)))
           ["c"] "c" None (FooterCounts (Some 1%nat) 1 10 100) [] [] in
   let child_row := mkEl 2 "c/b" true false 0 in
   let child_item := mkItem "a/b" "b" "folder" None None None in
   let result := content_onclick shell_selectTreeItem [] child_row child_item
                   false false c_current in
   fst (PathRewrite.updateDOMPaths dataset_path set_dataset_path example_select
          "a" "c" rows_of_a)
   = [mkEl 1 "c" true true 1; child_row] /\
   PathRewrite.under "c" (dataset_path child_row) = true /\
   snd result = None /\
   JsSet.has (expandedFolders (fst result)) "c" = false /\
   expandedFolders (fst result) = ["a/b"] /\
   childrenRequests (fst result) = ["a/b"])
  /\
  (let reloading :=
     mkNav ["A"] (Some "A") (Some 1%Z) (Some (StandIn "A"))
           ["A"] "A" None (FooterCounts (Some 1%nat) 1 10 100) [] [] in
   let result := content_onclick shell_selectTreeItem [] (mkEl 3 "B" true false 0)
                   (mkItem "B" "B" "folder" None None None) false false reloading in
   PathRewrite.selfOrUnder "A" "B" = false /\
   PathRewrite.selfOrUnder "B" "A" = false /\
   snd result = Some TypeError /\
   JsSet.has (expandedFolders (fst result)) "A" = true /\
   selectedTreeItem (fst result) = Some (StandIn "A")).
Proof.
  split; cbv zeta.
  - pose proof (content_onclick_decides_by_item_path shell_selectTreeItem
                  (fun _ _ _ => eq_refl) [] (mkEl 2 "c/b" true false 0)
                  (mkEl 1 "c" true true 1) (mkItem "a/b" "b" "folder" None None None)
                  (mkNav ["c"] (Some "c") (Some 1%Z)
                         (Some (Element (mkEl 1 "c" true true 1)))
                         ["c"] "c" None (FooterCounts (Some 1%nat) 1 10 100) [] [])
                  eq_refl ltac:(discriminate) eq_refl) as (Ret & Collapse & _).
    split; [reflexivity|]. split; [reflexivity|]. split; [exact Ret|]. split.
    + apply Collapse; [simpl; discriminate | reflexivity].
    + split; reflexivity.
  - pose proof (content_onclick_standin_throws shell_selectTreeItem
                  [] (mkEl 3 "B" true false 0) (mkItem "B" "B" "folder" None None None)
                  "A"
                  (mkNav ["A"] (Some "A") (Some 1%Z) (Some (StandIn "A"))
                         ["A"] "A" None (FooterCounts (Some 1%nat) 1 10 100) [] [])
                  eq_refl ltac:(discriminate) eq_refl eq_refl) as (Thr & Kept & Cur).
    split; [reflexivity|]. split; [reflexivity|]. auto.
Qed.

(** *** Facts on filtering and sorting a folder listing *)

Section ListingFacts.
Context {engine : Engine}.
Variable localeCompare : string -> string -> Z.

Lemma sortItems_cmp_consistent (s : SortSetting) :
  Consistent localeCompare -> Consistent (sortItems_cmp localeCompare s).
Proof.
  intros C. unfold sortItems_cmp.
  assert (K : Consistent
                (fun a b : Item =>
                   if String.eqb (method s) "name"
                   then localeCompare (toLowerCase (name a)) (toLowerCase (name b))
                   else if String.eqb (method s) "date"
                   then (or0 (created a) - or0 (created b))%Z
                   else if String.eqb (method s) "size"
                   then (or0 (size a) - or0 (size b))%Z
                   else 0%Z)).
  { destruct (String.eqb (method s) "name").
    - exact (Consistent_on (fun a => toLowerCase (name a)) localeCompare C).
    - destruct (String.eqb (method s) "date").
      + exact (Consistent_sub (fun a => or0 (created a))).
      + destruct (String.eqb (method s) "size").
        * exact (Consistent_sub (fun a => or0 (size a))).
        * exact Consistent_zero. }
  destruct (String.eqb (direction s) "asc"); [exact K|].
  exact (Consistent_opp _ K).
Qed.

Lemma prefix_empty (s : string) : String.prefix "" s = true.
Proof. now destruct s. Qed.

Lemma includes_empty (s : string) : includes s "" = true.
Proof. destruct s; reflexivity. Qed.

Lemma filtered_In (filterText : string) (content : list Item) (x : Item) :
  In x (filtered filterText content) <->
  In x content /\ matchesFilter filterText x = true.
Proof.
  unfold filtered, truthy. destruct (String.eqb_spec filterText "") as [->|N]; simpl.
  - unfold matchesFilter. rewrite toLowerCase_empty, includes_empty. tauto.
  - apply filter_In.
Qed.

Lemma filtered_is_filter (filterText : string) (content : list Item) :
  filtered filterText content = filter (matchesFilter filterText) content.
Proof.
  unfold filtered, truthy. destruct (String.eqb_spec filterText "") as [->|N]; simpl;
    [|reflexivity].
  symmetry. apply forallb_filter_id. apply forallb_forall. intros x _.
  unfold matchesFilter. rewrite toLowerCase_empty. apply includes_empty.
Qed.

Lemma read_filterTreeItems (h : Heap.t Item) (r : Heap.ref) (filterText : string) :
  Heap.read (fst (filterTreeItems h r filterText)) (snd (filterTreeItems h r filterText))
  = filtered filterText (Heap.read h r).
Proof.
  unfold filterTreeItems, filtered. destruct (negb (truthy filterText)); [reflexivity|].
  apply HeapFacts.read_alloc_new.
Qed.

Lemma read_sortItems (s : SortSetting) (h : Heap.t Item) (r : Heap.ref) :
  Heap.read (fst (sortItems localeCompare s h r)) r
  = Array_sort (sortItems_cmp localeCompare s) (Heap.read h r).
Proof.
  unfold sortItems. simpl.
  destruct (Nat.lt_ge_cases r (List.length h)) as [L|G].
  - now apply HeapFacts.read_write_same.
  - assert (E : forall (h' : Heap.t Item), (List.length h' <= r)%nat -> Heap.read h' r = [])
      by (intros h' Hl; unfold Heap.read; now apply nth_overflow).
    rewrite (E h G). simpl. apply E. now rewrite HeapFacts.write_length.
Qed.

(** The items shown by a rebuild of one listing: the folders among the
    sorted matches of the cached listing. *)
Lemma rebuildChildren_shown (fuel : nat) (p : string) (c : Cache) (r : Heap.ref) :
  JsObj.get (treeData c) p = Some r ->
  snd (rebuildChildren localeCompare fuel p c)
  = filter isFolder
      (Array_sort (sortItems_cmp localeCompare (foldersSort c))
         (filtered (foldersFilter c) (Heap.read (heap c) r))).
Proof.
  intros G. unfold rebuildChildren, cached_or_empty. rewrite G.
  pose proof (read_filterTreeItems (heap c) r (foldersFilter c)) as RF.
  destruct (filterTreeItems (heap c) r (foldersFilter c)) as [h1 fr]. simpl in RF.
  pose proof (read_sortItems (foldersSort c) h1 fr) as RS.
  destruct (sortItems localeCompare (foldersSort c) h1 fr) as [h2 sr] eqn:ES.
  assert (sr = fr) by (unfold sortItems in ES; now injection ES).
  subst sr. simpl in RS. simpl. now rewrite RS, RF.
Qed.

End ListingFacts.

(** *** The cache across a rebuild *)

Section RebuildFacts.
Context {engine : Engine}.
Variable localeCompare : string -> string -> Z.

(** A relation between caches that holds across every filter-and-sort step
    and is reflexive and transitive holds across the making of a tree item
    and of its descendants. *)
Lemma createTreeItem_invariant (R : Cache -> Cache -> Prop) :
  (forall c, R c c) ->
  (forall a b c, R a b -> R b c -> R a c) ->
  (forall c r, R c (filter_sort_step localeCompare c r)) ->
  forall fuel item c, R c (createTreeItem localeCompare fuel item c).
Proof.
  intros Rrefl Rtrans Rstep. induction fuel as [|fuel IH]; intros item c; simpl.
  - apply Rrefl.
  - destruct (JsObj.get (treeData c) (path item)) as [r|]; [|apply Rrefl].
    destruct (_ && _); [|apply Rrefl].
    pose proof (Rstep c r) as St. unfold filter_sort_step in St.
    unfold sortItems in *.
    destruct (filterTreeItems (heap c) r (foldersFilter c)) as [h1 fr].
    apply (Rtrans _ _ _ St).
    match goal with
    | |- R ?c0 (fold_left _ ?l ?c0) => generalize c0; generalize l
    end.
    intros l.
    induction l as [|child l IHl]; intros c0; simpl; [apply Rrefl|].
    eapply Rtrans; [|apply IHl].
    destruct (isFolder child); [apply IH | apply Rrefl].
Qed.

Lemma createTreeItems_invariant (R : Cache -> Cache -> Prop) :
  (forall c, R c c) ->
  (forall a b c, R a b -> R b c -> R a c) ->
  (forall c r, R c (filter_sort_step localeCompare c r)) ->
  forall fuel items c,
    R c (fold_left (fun acc item => createTreeItem localeCompare fuel item acc) items c).
Proof.
  intros Rrefl Rtrans Rstep fuel items.
  induction items as [|x items IH]; intros c; simpl; [apply Rrefl|].
  eapply Rtrans; [|apply IH]. now apply createTreeItem_invariant.
Qed.

Lemma same_settings_step (c : Cache) (r : Heap.ref) :
  same_settings c (filter_sort_step localeCompare c r).
Proof.
  unfold filter_sort_step, same_settings.
  destruct (filterTreeItems _ _ _) as [h1 fr].
  destruct (sortItems _ _ _ _) as [h2 sr]. simpl. auto.
Qed.

Lemma filtered_rebuild_refl (c : Cache) : filtered_rebuild c c.
Proof. repeat split; auto. Qed.

Lemma filtered_rebuild_trans (a b c : Cache) :
  filtered_rebuild a b -> filtered_rebuild b c -> filtered_rebuild a c.
Proof.
  intros [(T1 & E1 & F1 & S1) K1] [(T2 & E2 & F2 & S2) K2]. split.
  - repeat split; congruence.
  - intros Tr. destruct (K1 Tr) as [L1 R1].
    rewrite <- F1 in Tr. destruct (K2 Tr) as [L2 R2]. split; [lia|].
    intros r Hr. rewrite R2; [now apply R1|]. unfold Heap.allocated in *. lia.
Qed.

Lemma filtered_rebuild_step (c : Cache) (r : Heap.ref) :
  filtered_rebuild c (filter_sort_step localeCompare c r).
Proof.
  split; [apply same_settings_step|]. intros Tr.
  unfold filter_sort_step, filterTreeItems, sortItems. rewrite Tr. simpl.
  split.
  - rewrite HeapFacts.write_length, length_app. simpl. lia.
  - intros r0 Hr. rewrite HeapFacts.read_write_other.
    + unfold Heap.read. now apply app_nth1.
    + unfold Heap.allocated in Hr. lia.
Qed.

Lemma unfiltered_rebuild_refl (c : Cache) : unfiltered_rebuild localeCompare c c.
Proof. split; [repeat split | intros _ r; now left]. Qed.

Lemma unfiltered_rebuild_trans (a b c : Cache) :
  Consistent localeCompare ->
  unfiltered_rebuild localeCompare a b -> unfiltered_rebuild localeCompare b c -> unfiltered_rebuild localeCompare a c.
Proof.
  intros C [(T1 & E1 & F1 & S1) K1] [(T2 & E2 & F2 & S2) K2]. split.
  - repeat split; congruence.
  - intros Tr r. specialize (K1 Tr r).
    rewrite <- F1 in Tr. specialize (K2 Tr r). rewrite S1 in K2.
    pose proof (Array_sort_idem _ (Heap.read (heap a) r)
                  (sortItems_cmp_consistent localeCompare (foldersSort a) C)) as Id.
    destruct K1 as [K1|K1], K2 as [K2|K2]; rewrite K2, K1; auto.
Qed.

Lemma unfiltered_rebuild_step (c : Cache) (r : Heap.ref) :
  unfiltered_rebuild localeCompare c (filter_sort_step localeCompare c r).
Proof.
  split; [apply same_settings_step|]. intros Tr r0.
  unfold filter_sort_step, filterTreeItems. rewrite Tr. simpl.
  destruct (Nat.eq_dec r r0) as [<-|N].
  - right. apply (read_sortItems localeCompare).
  - left. now apply HeapFacts.read_write_other.
Qed.

(** With a filter, a rebuild of a listing leaves every array of the store
    as it was. *)
Lemma rebuildChildren_filtered_frame (fuel : nat) (p : string) (c : Cache) (r0 : Heap.ref) :
  truthy (foldersFilter c) = true ->
  Heap.allocated (heap c) r0 ->
  Heap.read (heap (fst (rebuildChildren localeCompare fuel p c))) r0
  = Heap.read (heap c) r0.
Proof.
  intros Tr Al. unfold rebuildChildren, cached_or_empty.
  set (start := match JsObj.get (treeData c) p with
                | Some r => (heap c, r)
                | None => Heap.alloc (heap c) []
                end).
  assert (K0 : keeps_old (heap c) (fst start)).
  { unfold start. destruct (JsObj.get (treeData c) p); simpl.
    - split; [lia | auto].
    - split; [rewrite length_app; simpl; lia|].
      intros r Hr. unfold Heap.read. now apply app_nth1. }
  destruct start as [h0 items]. simpl in K0.
  unfold filterTreeItems, sortItems. rewrite Tr. simpl.
  set (h2 := Heap.write _ _ _).
  assert (K2 : keeps_old (heap c) h2).
  { destruct K0 as [L0 R0]. unfold h2. split.
    - rewrite HeapFacts.write_length, length_app. simpl. lia.
    - intros r Hr. rewrite HeapFacts.read_write_other.
      + unfold Heap.read. rewrite app_nth1; [now apply R0|].
        unfold Heap.allocated in Hr. lia.
      + unfold Heap.allocated in Hr. lia. }
  destruct (createTreeItems_invariant filtered_rebuild
              filtered_rebuild_refl filtered_rebuild_trans filtered_rebuild_step
              fuel (filter isFolder (Heap.read h2 (List.length h0))) (set_heap c h2))
    as [_ Kf].
  destruct (Kf Tr) as [Lf Rf]. simpl in Lf, Rf.
  destruct K2 as [L2 R2].
  rewrite Rf; [now apply R2|]. unfold Heap.allocated in *. lia.
Qed.

(** Without a filter, a rebuild of a listing leaves the cached array of
    that listing sorted in place. *)
Lemma rebuildChildren_unfiltered_sorts_cache
    (fuel : nat) (p : string) (c : Cache) (r : Heap.ref) :
  Consistent localeCompare ->
  truthy (foldersFilter c) = false ->
  JsObj.get (treeData c) p = Some r ->
  Heap.read (heap (fst (rebuildChildren localeCompare fuel p c))) r
  = Array_sort (sortItems_cmp localeCompare (foldersSort c)) (Heap.read (heap c) r).
Proof.
  intros C Tr G. unfold rebuildChildren, cached_or_empty. rewrite G.
  unfold filterTreeItems. rewrite Tr. simpl.
  pose proof (read_sortItems localeCompare (foldersSort c) (heap c) r) as RS.
  unfold sortItems in RS. simpl in RS.
  set (h2 := Heap.write _ _ _) in *.
  destruct (createTreeItems_invariant (unfiltered_rebuild localeCompare)
              unfiltered_rebuild_refl
              (fun a b c0 => unfiltered_rebuild_trans a b c0 C)
              unfiltered_rebuild_step
              fuel (filter isFolder (Heap.read h2 r)) (set_heap c h2))
    as [_ Kf].
  specialize (Kf Tr r). simpl in Kf. rewrite RS in Kf. rewrite RS.
  rewrite (Array_sort_idem _ _ (sortItems_cmp_consistent localeCompare _ C)) in Kf.
  now destruct Kf.
Qed.

End RebuildFacts.

End TreeFacts.

(* ================================================================== *)
(** ** Facts on the file pane *)

Module FilesFacts.
Import JsString Files.

(** *** Facts on the file selection *)

Lemma fold_toggle_paths (l : list ListItemEl) (m : Mgr) :
  selectedFilePaths
    (fold_left (fun acc item => toggleFileSelected item (Some true) acc) l m)
  = fold_left JsSet.add (map dataset_filepath l) (selectedFilePaths m).
Proof.
  revert m; induction l as [|x l IH]; intros m; simpl; [reflexivity|].
  now rewrite IH.
Qed.

(** The selection after a range selection, as a fold over the segment of
    the visible paths between the pivot and the target. *)
Lemma selectFileRange_selected
    (dom : list ListItemEl) (target : ListItemEl) (additive : bool) (m : Mgr) (t : nat) :
  indexOf (getVisibleFileItems dom) target = Some t ->
  let items := getVisibleFileItems dom in
  let a :=
    range_pivot
      (match anchorPath m with
       | Some ap => findIndex (fun item => String.eqb (dataset_filepath item) ap) items
       | None => None
       end) t in
  selectedFilePaths (selectFileRange dom target additive m)
  = fold_left JsSet.add
      (firstn (S (Nat.max a t) - Nat.min a t)
              (skipn (Nat.min a t) (map dataset_filepath items)))
      (if additive then selectedFilePaths m else []).
Proof.
  intros Ht. cbv zeta. unfold selectFileRange.
  set (items := getVisibleFileItems dom) in *.
  assert (Lt : (t < List.length items)%nat) by (eapply findIndex_lt, Ht).
  rewrite Ht.
  set (a := range_pivot _ t).
  replace (match items with [] => m | _ :: _ => _ end)
    with (for_incl (Nat.min a t) (Nat.max a t)
            (fun i acc =>
               match nth_error items i with
               | Some item => toggleFileSelected item (Some true) acc
               | None => acc
               end)
            (if additive then m else clearFileSelection m))
    by (destruct items; [simpl in Lt; lia | reflexivity]).
  assert (La : (a < List.length items)%nat).
  { rewrite <- (length_map dataset_filepath).
    apply (is_pivot_lt _ (anchorPath m) t);
      [now rewrite length_map | apply range_pivot_is_pivot]. }
  unfold for_incl. rewrite for_incl_segment by lia.
  rewrite fold_toggle_paths, skipn_map, firstn_map.
  now destruct additive.
Qed.

(** *** Facts on filtering and sorting the file list *)

Section ListingFacts.
Context {engine : Engine}.

(** The comparator of [sortFiles] answers [-1] both ways for two files
    with the same key, so it is not a consistent comparator. *)
Lemma sortFiles_cmp_not_consistent (s : SortSetting) (f : Item) :
  sortFiles_cmp s f f = (-1)%Z /\ ~ Consistent (sortFiles_cmp s).
Proof.
  assert (E : sortFiles_cmp s f f = (-1)%Z).
  { unfold sortFiles_cmp.
    assert (G : key_gt (sortKey s f) (sortKey s f) = false).
    { destruct (sortKey s f) as [x|x]; simpl.
      - unfold String.ltb.
        pose proof (String.compare_antisym x x) as An.
        destruct (String.compare x x); simpl in An; congruence.
      - apply Z.ltb_irrefl. }
    rewrite G. now destruct (String.eqb (direction s) "asc"). }
  split; [exact E|]. intros C.
  pose proof (proj2 (cmp_antisym _ C f f)) as H. rewrite E in H. lia.
Qed.

(** [sortFiles] returns a new array holding the sorted content, and leaves
    every array there was as it was. *)
Lemma sortFiles_fresh (s : SortSetting) (h : Heap.t Item) (files : Heap.ref) :
  let h' := fst (sortFiles s h files) in
  let sorted := snd (sortFiles s h files) in
  ~ Heap.allocated h sorted /\
  Heap.allocated h' sorted /\
  (forall r, Heap.allocated h r -> Heap.read h' r = Heap.read h r) /\
  Heap.read h' sorted = Array_sort (sortFiles_cmp s) (Heap.read h files).
Proof.
  unfold sortFiles, Heap.allocated. simpl.
  assert (New : Heap.read (h ++ [Heap.read h files])%list (List.length h)
                = Heap.read h files)
    by (unfold Heap.read at 1; now rewrite nth_middle).
  repeat split.
  - lia.
  - rewrite HeapFacts.write_length, length_app. simpl. lia.
  - intros r Hr. rewrite HeapFacts.read_write_other by lia.
    unfold Heap.read. now apply app_nth1.
  - rewrite HeapFacts.read_write_same.
    + now rewrite New.
    + unfold Heap.allocated. rewrite length_app. simpl. lia.
Qed.

(** The files shown by [renderFileList]: the sorted matches of the trimmed,
    lower-cased filter. *)
Lemma renderFileList_shown
    (s : SortSetting) (filesFilter : string) (h : Heap.t Item) (files : Heap.ref) :
  snd (renderFileList s filesFilter h (Some files))
  = Array_sort (sortFiles_cmp s)
      (filter (matchesFilter (trim (toLowerCase filesFilter))) (Heap.read h files)).
Proof.
  unfold renderFileList.
  destruct (Nat.eqb (List.length (Heap.read h files)) 0) eqn:Z.
  - apply Nat.eqb_eq in Z. apply length_zero_iff_nil in Z. now rewrite Z.
  - set (fv := trim (toLowerCase filesFilter)).
    destruct (0 <? String.length fv)%nat eqn:L.
    + pose proof (sortFiles_fresh s
                    (fst (Heap.alloc h (filter (matchesFilter fv) (Heap.read h files))))
                    (snd (Heap.alloc h (filter (matchesFilter fv) (Heap.read h files)))))
        as (_ & _ & _ & R).
      rewrite HeapFacts.read_alloc_new in R.
      destruct (Heap.alloc h _) as [h1 fr]. cbn [fst snd] in R.
      destruct (sortFiles s h1 fr) as [h2 sr]. exact R.
    + pose proof (sortFiles_fresh s h files) as (_ & _ & _ & R).
      destruct (sortFiles s h files) as [h2 sr]. cbn [fst snd] in *. rewrite R.
      f_equal. symmetry. apply forallb_filter_id, forallb_forall. intros x _.
      apply Nat.ltb_ge in L. destruct fv; [|simpl in L; lia].
      unfold matchesFilter. now destruct (toLowerCase (name x)).
Qed.

(** Whatever the filter, [renderFileList] leaves every array there was as
    it was. *)
Lemma renderFileList_frame
    (s : SortSetting) (filesFilter : string) (h : Heap.t Item)
    (currentFiles : option Heap.ref) (r : Heap.ref) :
  Heap.allocated h r ->
  Heap.read (fst (renderFileList s filesFilter h currentFiles)) r = Heap.read h r.
Proof.
  intros Al. unfold renderFileList.
  destruct currentFiles as [files|]; [|reflexivity].
  destruct (Nat.eqb _ 0); [reflexivity|].
  destruct (0 <? _)%nat.
  - set (a := Heap.alloc h (filter (matchesFilter (trim (toLowerCase filesFilter)))
                                   (Heap.read h files))).
    pose proof (sortFiles_fresh s (fst a) (snd a)) as (_ & _ & K & _).
    specialize (K r).
    assert (A1 : Heap.read (fst a) r = Heap.read h r)
      by (apply HeapFacts.read_alloc_old; exact Al).
    assert (A2 : Heap.allocated (fst a) r).
    { unfold a, Heap.alloc, Heap.allocated in *. cbn [fst].
      rewrite length_app. simpl. lia. }
    destruct a as [h1 fr]. cbn [fst snd] in *.
    destruct (sortFiles s h1 fr) as [h2 sr]. cbn [fst snd] in *.
    rewrite (K A2). exact A1.
  - pose proof (sortFiles_fresh s h files) as (_ & _ & K & _).
    destruct (sortFiles s h files) as [h2 sr]. cbn [fst snd] in *. now apply K.
Qed.

(** The keys of one sort setting are all strings or all numbers. *)
Lemma sortKey_kind (s : SortSetting) :
  (exists f, forall a, sortKey s a = KeyString (f a)) \/
  (exists g, forall a, sortKey s a = KeyNumber (g a)).
Proof.
  unfold sortKey.
  destruct (String.eqb (method s) "name"); [left; eexists; reflexivity|].
  destruct (String.eqb (method s) "date"); [right; eexists; reflexivity|].
  destruct (String.eqb (method s) "type"); [left; eexists; reflexivity|].
  destruct (String.eqb (method s) "size"); [right; eexists; reflexivity|].
  left; eexists; reflexivity.
Qed.

(** "Not greater" on the keys of one setting is transitive, and of two
    keys one is not greater than the other. *)
Lemma key_not_gt_trans (s : SortSetting) (a b c : Item) :
  key_gt (sortKey s a) (sortKey s b) = false ->
  key_gt (sortKey s b) (sortKey s c) = false ->
  key_gt (sortKey s a) (sortKey s c) = false.
Proof.
  destruct (sortKey_kind s) as [[f K]|[g K]]; rewrite !K; cbn [key_gt].
  - intros A B. exact (string_ltb_le_trans (f a) (f b) (f c) A B).
  - rewrite !Z.ltb_ge. lia.
Qed.

Lemma key_gt_asym (s : SortSetting) (a b : Item) :
  key_gt (sortKey s a) (sortKey s b) = true ->
  key_gt (sortKey s b) (sortKey s a) = false.
Proof.
  destruct (sortKey_kind s) as [[f K]|[g K]]; rewrite !K; cbn [key_gt].
  - apply string_ltb_asym.
  - rewrite Z.ltb_lt, Z.ltb_ge. lia.
Qed.

(** The order that the comparator of [sortFiles] asks for: ascending, no
    file before one of a smaller key; otherwise, no file before one of a
    greater key. *)
Lemma sortFiles_cmp_le (s : SortSetting) (a b : Item) :
  cmp_le (sortFiles_cmp s) a b <->
  (if String.eqb (direction s) "asc"
   then key_gt (sortKey s a) (sortKey s b) = false
   else key_gt (sortKey s b) (sortKey s a) = false).
Proof.
  unfold cmp_le, sortFiles_cmp.
  destruct (String.eqb (direction s) "asc").
  - destruct (key_gt (sortKey s a) (sortKey s b)); split; intros; (lia || congruence).
  - destruct (key_gt (sortKey s b) (sortKey s a)); split; intros; (lia || congruence).
Qed.

(** [sortFiles] puts the files in the order of their keys, whatever it
    does with files of the same key. *)
Lemma sortFiles_in_key_order (s : SortSetting) (l : list Item) :
  StronglySorted
    (fun a b =>
       if String.eqb (direction s) "asc"
       then key_gt (sortKey s a) (sortKey s b) = false
       else key_gt (sortKey s b) (sortKey s a) = false)
    (Array_sort (sortFiles_cmp s) l).
Proof.
  apply (StronglySorted_impl (cmp_le (sortFiles_cmp s))).
  - intros a b. apply sortFiles_cmp_le.
  - apply Array_sort_strongly_sorted_total.
    + intros a b. unfold sortFiles_cmp.
      destruct (String.eqb (direction s) "asc").
      * destruct (key_gt (sortKey s a) (sortKey s b)) eqn:G; [|lia].
        intros _. now rewrite (key_gt_asym s a b G).
      * destruct (key_gt (sortKey s b) (sortKey s a)) eqn:G; [|lia].
        intros _. now rewrite (key_gt_asym s b a G).
    + intros a b c. rewrite !sortFiles_cmp_le.
      destruct (String.eqb (direction s) "asc").
      * apply key_not_gt_trans.
      * intros A B. exact (key_not_gt_trans s c b a B A).
Qed.

End ListingFacts.

End FilesFacts.

(* ================================================================== *)
(** ** Range selection in the two panes *)

Section RangeSelection.

(** The members of a set built by adding the paths of a segment, once the
    pivot is known to be the one the handler computed. *)
Lemma range_members (paths : list string) (anchor : option string)
    (found : option nat) (t a : nat) (p : string) :
  (t < List.length paths)%nat ->
  is_pivot paths anchor t (range_pivot found t) ->
  is_pivot paths anchor t a ->
  In p (fold_left JsSet.add
          (firstn (S (Nat.max (range_pivot found t) t) - Nat.min (range_pivot found t) t)
                  (skipn (Nat.min (range_pivot found t) t) paths))
          []) <->
  exists i, (Nat.min a t <= i <= Nat.max a t)%nat /\ nth_error paths i = Some p.
Proof.
  intros Lt P1 P2. rewrite (is_pivot_unique _ _ _ _ _ P1 P2).
  rewrite In_range_paths by lia. simpl. tauto.
Qed.

(** When no two visible items carry the same path, a path is at one index
    only, so membership of the path of an item is membership of its index
    in the interval. *)
Lemma range_members_by_index (paths sel : list string) (lo hi i : nat) (p : string) :
  NoDup paths ->
  nth_error paths i = Some p ->
  (In p sel <-> exists k, (lo <= k <= hi)%nat /\ nth_error paths k = Some p) ->
  (In p sel <-> (lo <= i <= hi)%nat).
Proof.
  intros N Hi Hsel. rewrite Hsel. split.
  - intros (k & Hk & Ek).
    assert (k = i); [|now subst].
    apply (proj1 (NoDup_nth_error paths) N).
    + apply nth_error_Some. congruence.
    + congruence.
  - intros H. now exists i.
Qed.

(** C2.  In either pane, a range selection that is not additive leaves
    selected exactly the paths of the visible items whose index lies in the
    closed interval between the pivot and the target, whatever was selected
    before; the pivot is the first visible index of the anchor path, and
    the index of the target when there is no anchor or it is not visible.
    When no two visible items carry the same path, an item is selected
    exactly when its index lies in that interval.  Selecting from pivot [i]
    to a target at [j] and from pivot [j] to a target at [i] give the same
    selection. *)
Theorem selectRange_closed_interval :
  (forall dom target m t a,
     let items := Files.getVisibleFileItems dom in
     let paths := map Files.dataset_filepath items in
     let selected := Files.selectedFilePaths (Files.selectFileRange dom target false m) in
     Files.indexOf items target = Some t ->
     is_pivot paths (Files.anchorPath m) t a ->
     (forall p, In p selected <->
                exists i, (Nat.min a t <= i <= Nat.max a t)%nat /\
                          nth_error paths i = Some p) /\
     (NoDup paths ->
      forall i item, nth_error items i = Some item ->
        (In (Files.dataset_filepath item) selected <->
         (Nat.min a t <= i <= Nat.max a t)%nat)))
  /\
  (forall dom target n t a,
     let items := Tree.getVisibleFolderItems dom in
     let paths := map Tree.dataset_path items in
     let selected := Tree.selectedFolderPaths (Tree.selectFolderRange dom target false n) in
     Tree.indexOf items target = Some t ->
     is_pivot paths (Tree.anchorPath n) t a ->
     (forall p, In p selected <->
                exists i, (Nat.min a t <= i <= Nat.max a t)%nat /\
                          nth_error paths i = Some p) /\
     (NoDup paths ->
      forall i item, nth_error items i = Some item ->
        (In (Tree.dataset_path item) selected <->
         (Nat.min a t <= i <= Nat.max a t)%nat)))
  /\
  (forall dom x y m1 m2 i j,
     let items := Files.getVisibleFileItems dom in
     let paths := map Files.dataset_filepath items in
     Files.indexOf items x = Some i ->
     Files.indexOf items y = Some j ->
     is_pivot paths (Files.anchorPath m1) j i ->
     is_pivot paths (Files.anchorPath m2) i j ->
     Files.selectedFilePaths (Files.selectFileRange dom y false m1)
     = Files.selectedFilePaths (Files.selectFileRange dom x false m2))
  /\
  (forall dom x y n1 n2 i j,
     let items := Tree.getVisibleFolderItems dom in
     let paths := map Tree.dataset_path items in
     Tree.indexOf items x = Some i ->
     Tree.indexOf items y = Some j ->
     is_pivot paths (Tree.anchorPath n1) j i ->
     is_pivot paths (Tree.anchorPath n2) i j ->
     Tree.selectedFolderPaths (Tree.selectFolderRange dom y false n1)
     = Tree.selectedFolderPaths (Tree.selectFolderRange dom x false n2)).
Proof.
  split; [|split; [|split]].
  - intros dom target m t a items paths selected Ht Pa.
    assert (M : forall p, In p selected <->
                exists i, (Nat.min a t <= i <= Nat.max a t)%nat /\
                          nth_error paths i = Some p).
    { intros p. unfold selected, items, paths in *.
      rewrite (FilesFacts.selectFileRange_selected _ _ _ _ _ Ht).
      apply (range_members _ (Files.anchorPath m)); [| |exact Pa].
      + rewrite length_map. eapply findIndex_lt, Ht.
      + apply range_pivot_is_pivot. }
    split; [exact M|]. intros N i item Hi.
    apply (range_members_by_index paths _ _ _ i); [exact N| |apply M].
    unfold paths. now rewrite nth_error_map, Hi.
  - intros dom target n t a items paths selected Ht Pa.
    assert (M : forall p, In p selected <->
                exists i, (Nat.min a t <= i <= Nat.max a t)%nat /\
                          nth_error paths i = Some p).
    { intros p. unfold selected, items, paths in *.
      rewrite (TreeFacts.selectFolderRange_selected _ _ _ _ _ Ht).
      apply (range_members _ (Tree.anchorPath n)); [| |exact Pa].
      + rewrite length_map. eapply findIndex_lt, Ht.
      + apply range_pivot_is_pivot. }
    split; [exact M|]. intros N i item Hi.
    apply (range_members_by_index paths _ _ _ i); [exact N| |apply M].
    unfold paths. now rewrite nth_error_map, Hi.
  - intros dom x y m1 m2 i j items paths Hx Hy P1 P2.
    rewrite (FilesFacts.selectFileRange_selected _ _ _ _ _ Hy),
            (FilesFacts.selectFileRange_selected _ _ _ _ _ Hx).
    cbv zeta. fold items. fold paths.
    rewrite (is_pivot_unique _ _ _ _ _ (range_pivot_is_pivot _ items _ j) P1).
    rewrite (is_pivot_unique _ _ _ _ _ (range_pivot_is_pivot _ items _ i) P2).
    now rewrite (Nat.min_comm i j), (Nat.max_comm i j).
  - intros dom x y n1 n2 i j items paths Hx Hy P1 P2.
    rewrite (TreeFacts.selectFolderRange_selected _ _ _ _ _ Hy),
            (TreeFacts.selectFolderRange_selected _ _ _ _ _ Hx).
    cbv zeta. fold items. fold paths.
    rewrite (is_pivot_unique _ _ _ _ _ (range_pivot_is_pivot _ items _ j) P1).
    rewrite (is_pivot_unique _ _ _ _ _ (range_pivot_is_pivot _ items _ i) P2).
    now rewrite (Nat.min_comm i j), (Nat.max_comm i j).
Qed.

End RangeSelection.

Lemma selectRange_closed_interval_witness :
  (Files.indexOf (Files.getVisibleFileItems example_file_dom)
     (Files.mkLi 2 "b.mp3" false false) = Some 1%nat /\
   is_pivot ["a.mp3"; "b.mp3"; "c.mp3"; "d.mp3"] (Some "d.mp3") 1 3 /\
   (In "c.mp3"
       (Files.selectedFilePaths
          (Files.selectFileRange example_file_dom (Files.mkLi 2 "b.mp3" false false)
             false (example_mgr (Some "d.mp3")))) <->
    exists i, (Nat.min 3 1 <= i <= Nat.max 3 1)%nat /\
              nth_error ["a.mp3"; "b.mp3"; "c.mp3"; "d.mp3"] i = Some "c.mp3"))
  /\
  (NoDup ["a.mp3"; "b.mp3"; "c.mp3"; "d.mp3"] /\
   (In "a.mp3"
       (Files.selectedFilePaths
          (Files.selectFileRange example_file_dom (Files.mkLi 2 "b.mp3" false false)
             false (example_mgr (Some "d.mp3")))) <->
    (Nat.min 3 1 <= 0 <= Nat.max 3 1)%nat))
  /\
  (Tree.indexOf (Tree.getVisibleFolderItems example_tree_dom)
     (Tree.mkEl 3 "B" true false 0) = Some 2%nat /\
   is_pivot ["A"; "A/sub"; "B"] None 2 2 /\
   (In "B"
       (Tree.selectedFolderPaths
          (Tree.selectFolderRange example_tree_dom (Tree.mkEl 3 "B" true false 0)
             false (example_nav None))) <->
    exists i, (Nat.min 2 2 <= i <= Nat.max 2 2)%nat /\
              nth_error ["A"; "A/sub"; "B"] i = Some "B"))
  /\
  Files.selectedFilePaths
    (Files.selectFileRange example_file_dom (Files.mkLi 4 "d.mp3" false false)
       false (example_mgr (Some "b.mp3")))
  = Files.selectedFilePaths
      (Files.selectFileRange example_file_dom (Files.mkLi 2 "b.mp3" false false)
         false (example_mgr (Some "d.mp3")))
  /\
  Tree.selectedFolderPaths
    (Tree.selectFolderRange example_tree_dom (Tree.mkEl 3 "B" true false 0)
       false (example_nav (Some "A")))
  = Tree.selectedFolderPaths
      (Tree.selectFolderRange example_tree_dom (Tree.mkEl 1 "A" true true 1)
         false (example_nav (Some "B"))).
Proof.
  assert (P31 : is_pivot ["a.mp3"; "b.mp3"; "c.mp3"; "d.mp3"] (Some "d.mp3") 1 3).
  { left. split; [reflexivity|].
    intros [|[|[|j]]] Hj; simpl; try discriminate; lia. }
  assert (P13 : is_pivot ["a.mp3"; "b.mp3"; "c.mp3"; "d.mp3"] (Some "b.mp3") 3 1).
  { left. split; [reflexivity|].
    intros [|j] Hj; simpl; try discriminate; lia. }
  assert (Q02 : is_pivot ["A"; "A/sub"; "B"] (Some "A") 2 0).
  { left. split; [reflexivity|]. intros j Hj; lia. }
  assert (Q20 : is_pivot ["A"; "A/sub"; "B"] (Some "B") 0 2).
  { left. split; [reflexivity|].
    intros [|[|j]] Hj; simpl; try discriminate; lia. }
  assert (N : NoDup ["a.mp3"; "b.mp3"; "c.mp3"; "d.mp3"]).
  { repeat constructor; simpl; intuition discriminate. }
  split; [|split; [|split; [|split]]].
  - split; [reflexivity|]. split; [exact P31|].
    exact (proj1 (proj1 selectRange_closed_interval example_file_dom
                    (Files.mkLi 2 "b.mp3" false false) (example_mgr (Some "d.mp3"))
                    1%nat 3%nat eq_refl P31) "c.mp3").
  - split; [exact N|].
    exact (proj2 (proj1 selectRange_closed_interval example_file_dom
                    (Files.mkLi 2 "b.mp3" false false) (example_mgr (Some "d.mp3"))
                    1%nat 3%nat eq_refl P31) N 0%nat
             (Files.mkLi 1 "a.mp3" false false) eq_refl).
  - split; [reflexivity|]. split; [reflexivity|].
    exact (proj1 (proj1 (proj2 selectRange_closed_interval) example_tree_dom
                    (Tree.mkEl 3 "B" true false 0) (example_nav None)
                    2%nat 2%nat eq_refl eq_refl) "B").
  - exact (proj1 (proj2 (proj2 selectRange_closed_interval)) example_file_dom
             (Files.mkLi 2 "b.mp3" false false) (Files.mkLi 4 "d.mp3" false false)
             (example_mgr (Some "b.mp3")) (example_mgr (Some "d.mp3"))
             1%nat 3%nat eq_refl eq_refl P13 P31).
  - exact (proj2 (proj2 (proj2 selectRange_closed_interval)) example_tree_dom
             (Tree.mkEl 1 "A" true true 1) (Tree.mkEl 3 "B" true false 0)
             (example_nav (Some "A")) (example_nav (Some "B"))
             0%nat 2%nat eq_refl eq_refl Q02 Q20).
Defined.

(* ================================================================== *)
(** ** Request sequencing *)

Section Sequencing.

(** A reply to a metadata request whose id is no longer the current one
    changes nothing, whether the request succeeded or failed. *)
Lemma loadFile_stale_reply_discarded
    (req : Files.MetadataRequest) (res : Settled Files.Metadata) (m : Files.Mgr) :
  Files.requestId req <> Files.loadFileRequestId m ->
  Files.loadFile_settled req res m = m.
Proof.
  intros N. apply Z.eqb_neq in N. unfold Files.loadFile_settled.
  destruct res; now rewrite N.
Qed.

(** A metadata request takes the next id and makes it the current one, so
    that the reply to any request issued before it is stale from then on. *)
Lemma loadFile_takes_next_id
    (callback : Files.ListItemEl -> option bool -> Files.Mgr -> Files.Mgr)
    (filepath : string) (listItem : Files.ListItemEl) (m : Files.Mgr) :
  (forall li flag m0,
     Files.loadFileRequestId (callback li flag m0) = Files.loadFileRequestId m0) ->
  Files.requestId (snd (Files.loadFile callback filepath listItem m))
    = (Files.loadFileRequestId m + 1)%Z /\
  Files.loadFileRequestId (fst (Files.loadFile callback filepath listItem m))
    = (Files.loadFileRequestId m + 1)%Z.
Proof.
  intros K. unfold Files.loadFile. split; [reflexivity|].
  cbn -[Z.add].
  destruct (Files.keyboard_focus listItem); cbn -[Z.add];
    rewrite K; destruct (Files.loadFileDebounceTimer m); reflexivity.
Qed.

(** Of two metadata requests issued one after the other, the reply to the
    first changes nothing once the second is issued. *)
Lemma loadFile_superseded
    (callback : Files.ListItemEl -> option bool -> Files.Mgr -> Files.Mgr)
    (f1 f2 : string) (li1 li2 : Files.ListItemEl)
    (res : Settled Files.Metadata) (m : Files.Mgr) :
  (forall li flag m0,
     Files.loadFileRequestId (callback li flag m0) = Files.loadFileRequestId m0) ->
  let first := Files.loadFile callback f1 li1 m in
  let second := Files.loadFile callback f2 li2 (fst first) in
  Files.loadFile_settled (snd first) res (fst second) = fst second.
Proof.
  intros K first second. apply loadFile_stale_reply_discarded.
  destruct (loadFile_takes_next_id callback f1 li1 m K) as [R1 I1].
  destruct (loadFile_takes_next_id callback f2 li2 (fst first) K) as [_ I2].
  fold first in R1, I1. fold second in I2. rewrite R1, I2, I1. lia.
Qed.

(** A reply to a stats request for a selection whose id is no longer the
    current one changes nothing. *)
Lemma statsOfSelection_stale_reply_discarded
    (id : Z) (roots : list string) (res : Settled (list (option Tree.Stats)))
    (n : Tree.Nav) :
  Tree.statsRequestId n <> Some id ->
  Tree.statsOfSelection_settled id roots res n = n.
Proof.
  intros N. unfold Tree.statsOfSelection_settled.
  assert (E : Tree.same_id (Tree.statsRequestId n) id = false).
  { unfold Tree.same_id. destruct (Tree.statsRequestId n) as [c|]; [|reflexivity].
    apply Z.eqb_neq. congruence. }
  destruct res; now rewrite E.
Qed.

(** A reply to the stats request of an empty selection is applied whatever
    has been requested since: that request carries no id. *)
Lemma statsOfCurrent_reply_always_applied (s : Tree.Stats) (n : Tree.Nav) :
  Tree.footer (Tree.statsOfCurrent_settled (Fulfilled s) n)
  = Tree.updateFolderStatsFooter (Some (s, None)).
Proof. reflexivity. Qed.

(** C1.  The claim asks that of the replies to the loads of one slot only
    the one to the latest request is applied.  A plain click on folder [B]
    issues two stats requests: one for the current folder [A], from
    [clearFolderSelection], which captures no request id, then one for the
    selection [B] with id 2.  When the reply for [B] arrives first it is
    shown; when the reply for [A] arrives after it, it is shown in its
    place, although it answers the older request. *)
Theorem stats_reply_of_older_request_applied :
  Tree.statsRequests after_click
    = [Tree.StatsOfCurrent "A"; Tree.StatsOfSelection 2 ["B"]] /\
  Tree.selectedFolderPaths after_click = ["B"] /\
  let shown_first :=
    Tree.statsOfSelection_settled 2 ["B"] (Fulfilled [Some stats_of_B]) after_click in
  let shown_last :=
    Tree.statsOfCurrent_settled (Fulfilled stats_of_A) shown_first in
  Tree.footer shown_first = Tree.FooterCounts (Some 1%nat) 2 20 200 /\
  Tree.footer shown_last = Tree.FooterCounts None 1 10 100.
Proof. vm_compute. repeat split. Qed.

End Sequencing.

(* ================================================================== *)
(** ** Validation of a new name before the remote service is called *)

Section RenameValidation.

(** The inline rename of a file settles an empty name, the unchanged name
    and a name with a separator on its own. *)
Lemma saveFileName_validates (input_value : string) (file : Item) :
  let newName := JsString.trim input_value in
  newName = "" \/ newName = name file \/
  JsString.includes newName "/" = true \/ JsString.includes newName "\" = true ->
  calls_remote (Files.saveFileName input_value file) = false.
Proof.
  cbv zeta. unfold Files.saveFileName, JsString.truthy.
  intros [E|[E|[E|E]]].
  - rewrite E. reflexivity.
  - rewrite E, String.eqb_refl, orb_true_r. reflexivity.
  - rewrite E. now destruct (_ || _).
  - rewrite E, orb_true_r. now destruct (_ || _).
Qed.

(** The inline rename of a folder settles on its own an empty name, the
    unchanged name, a name with a separator or an invalid character, and a
    reserved device name in any letter case. *)
Lemma saveFolderName_validates (input_value : string) (item : Item) :
  let newName := JsString.trim input_value in
  newName = "" \/ newName = name item \/
  JsString.includes newName "/" = true \/ JsString.includes newName "\" = true \/
  Tree.invalidChars_test newName = true \/
  In (JsString.toUpperCase newName) Tree.reservedNames ->
  calls_remote (Tree.saveFolderName input_value item) = false.
Proof.
  cbv zeta. unfold Tree.saveFolderName, JsString.truthy.
  intros [E|[E|[E|[E|[E|E]]]]].
  - rewrite E. reflexivity.
  - rewrite E, String.eqb_refl, orb_true_r. reflexivity.
  - rewrite E. now destruct (_ || _).
  - rewrite E, orb_true_r. now destruct (_ || _).
  - rewrite E, !orb_true_r. now destruct (_ || _).
  - assert (X : existsb (String.eqb (JsString.toUpperCase (JsString.trim input_value)))
                  Tree.reservedNames = true).
    { apply existsb_exists. eexists. split; [exact E | apply String.eqb_refl]. }
    rewrite X. destruct (_ || _); [reflexivity|]. now destruct (_ || _).
Qed.

(** C4.  The claim asks that no rename with a separator in the new name
    reaches the remote service.  The save handler of the metadata panel,
    [saveFilename], checks for an empty and for an unchanged name only: the
    name [sub/b.mp3] is sent to the remote service, while the inline rename
    of the same file rejects it. *)
Theorem saveFilename_sends_separator :
  JsString.includes (JsString.trim "sub/b.mp3") "/" = true /\
  Files.saveFilename "sub/b.mp3" panel_with_open_file
    = RenameRequested (Some "dir/a.mp3") "sub/b.mp3" /\
  Files.saveFileName "sub/b.mp3" (mkItem "dir/a.mp3" "a.mp3" "file" None None None)
    = RenameRejected "Invalid name".
Proof. vm_compute. repeat split. Qed.

End RenameValidation.

(* ================================================================== *)
(** ** Inline rename: one edit at a time *)

Section InlineEdit.

(** C9, as stated, fails: while a file is being renamed, starting the
    rename of a folder is not a no-op; afterwards a file and a folder are
    being edited at once. *)
Lemma start_edit_across_panes_counterexample :
  let st' :=
    startFolderRename_in (Tree.mkEl 7 "music" true false 0)
      (mkItem "music" "music" "folder" None None None) editing_a_file in
  being_edited editing_a_file (FileNode 1) /\
  st' <> editing_a_file /\
  being_edited st' (FileNode 1) /\ being_edited st' (FolderNode 7).
Proof.
  cbv zeta. repeat split. intros E. discriminate E.
Qed.

(** C9, amended.  Within a pane at most one node is renamed inline: while
    a file is being edited, starting the rename of any file changes
    nothing; while a folder is being edited, starting the rename of any
    other folder changes nothing, and so does starting any folder rename
    while the renaming flag is set.  Starting a rename in one pane never
    touches the edit state of the other pane. *)
Theorem start_edit_exclusive_within_pane :
  (forall st e li file has_file_info,
     Files.editingFileElement (fileEdit st) = Some e ->
     startFileRename_in li file has_file_info st = st)
  /\
  (forall st e el item,
     Tree.editingFolder (folderEdit st) = Some e ->
     Tree.el_id el <> e ->
     startFolderRename_in el item st = st)
  /\
  (forall st el item,
     Tree.isRenamingFolder (folderEdit st) = true ->
     startFolderRename_in el item st = st)
  /\
  (forall st el item,
     fileEdit (startFolderRename_in el item st) = fileEdit st)
  /\
  (forall st li file has_file_info,
     folderEdit (startFileRename_in li file has_file_info st) = folderEdit st).
Proof.
  repeat split.
  - intros [fo fi] e li file b H. simpl in H.
    unfold startFileRename_in, Files.startFileRename. simpl. rewrite H.
    now destruct (Nat.eqb e (Files.li_id li)).
  - intros [fo fi] e el item H N. simpl in H.
    unfold startFolderRename_in, Tree.startFolderRename. simpl. rewrite H.
    apply Nat.eqb_neq in N. rewrite Nat.eqb_sym in N. now rewrite N.
  - intros [fo fi] el item H. simpl in H.
    unfold startFolderRename_in, Tree.startFolderRename. simpl. rewrite H.
    now destruct (match Tree.editingFolder fo with Some _ => _ | None => _ end).
Qed.

Lemma start_edit_exclusive_within_pane_witness :
  (Files.editingFileElement (fileEdit editing_a_file) = Some 1%nat /\
   startFileRename_in (Files.mkLi 2 "dir/b.mp3" false false)
     (mkItem "dir/b.mp3" "b.mp3" "file" None None None) true editing_a_file
   = editing_a_file)
  /\
  (let st :=
     startFolderRename_in (Tree.mkEl 7 "music" true false 0)
       (mkItem "music" "music" "folder" None None None) editing_a_file in
   Tree.editingFolder (folderEdit st) = Some 7%nat /\
   Tree.el_id (Tree.mkEl 8 "video" true false 0) <> 7%nat /\
   startFolderRename_in (Tree.mkEl 8 "video" true false 0)
     (mkItem "video" "video" "folder" None None None) st = st /\
   Tree.isRenamingFolder (folderEdit st) = true /\
   startFolderRename_in (Tree.mkEl 7 "music" true false 0)
     (mkItem "music" "music" "folder" None None None) st = st).
Proof.
  pose proof start_edit_exclusive_within_pane as (Hfile & Hfolder & Hflag & _).
  split.
  - split; [reflexivity|].
    exact (Hfile editing_a_file 1%nat (Files.mkLi 2 "dir/b.mp3" false false)
             (mkItem "dir/b.mp3" "b.mp3" "file" None None None) true eq_refl).
  - cbv zeta. split; [reflexivity|]. split; [simpl; lia|]. split; [|split].
    + apply (Hfolder _ 7%nat); [reflexivity | simpl; lia].
    + reflexivity.
    + apply Hflag. reflexivity.
Defined.

End InlineEdit.

(* ================================================================== *)
(** ** Bulk operations: in order, and stopping at the first failure *)

Section BulkRunner.
Context {Item W E Remote : Type}.
Variable onItem : Item -> nat -> W -> W * option E.
Variable deleteFile : string -> Remote -> Remote * option (option string).

(** C5.  The runner starts the operations one at a time in list order,
    each in the world the one before it left.  When the operation of an
    item throws, the operations started are those up to and including it
    and no later one; the world is the one that operation left, with what
    the earlier ones did; and that one exception leaves the runner.  When
    none throws, all are started and no exception leaves the runner.  For a
    list of at most one item the progress bar is never mentioned.  When
    the delete of a selected file is rejected, [deleteSelectedFiles] shows
    that one error on the status line on top of the state the completed
    deletes left. *)
Theorem runBulkOperation_sequential_fail_stop :
  (forall label pre x post w w1 w2 e,
     Utilities.completes onItem 0 pre w w1 ->
     onItem x (List.length pre) w1 = (w2, Some e) ->
     exists log,
       Utilities.runBulkOperation onItem label (pre ++ x :: post)%list w []
         = (w2, log, Some e) /\
       Utilities.started log = (pre ++ [x])%list /\
       ((List.length (pre ++ x :: post)%list <= 1)%nat ->
        Utilities.mentions_progress log = false))
  /\
  (forall label items w w',
     Utilities.completes onItem 0 items w w' ->
     exists log,
       Utilities.runBulkOperation onItem label items w [] = (w', log, None) /\
       Utilities.started log = items /\
       ((List.length items <= 1)%nat -> Utilities.mentions_progress log = false))
  /\
  (forall m r pre x post m1 r1 r2 err,
     Files.deleteSelectedFiles_selectedPaths m = (pre ++ x :: post)%list ->
     Utilities.completes (Files.deleteFile_onItem deleteFile) 0 pre (m, r) (m1, r1) ->
     deleteFile x r1 = (r2, Some err) ->
     exists log,
       Files.deleteSelectedFiles_confirmed deleteFile m r
         = ((Files.showStatus (deleteFile_message err) "error" m1, r2), log) /\
       Utilities.started log = (pre ++ [x])%list).
Proof.
  split; [|split].
  - intros label pre x post w w1 w2 e C F.
    destruct (UtilitiesFacts.runBulkOperation_stops onItem label pre x post w w1 w2 e [] C F)
      as (log & Eq & St & Pr).
    exists log. auto.
  - intros label items w w' C.
    destruct (UtilitiesFacts.runBulkOperation_completes onItem label items w w' [] C)
      as (log & Eq & St & Pr).
    exists log. auto.
  - intros m r pre x post m1 r1 r2 err Sel C F.
    assert (F' : Files.deleteFile_onItem deleteFile x (List.length pre) (m1, r1)
                 = ((m1, r2), Some err)).
    { unfold Files.deleteFile_onItem. now rewrite F. }
    destruct (UtilitiesFacts.runBulkOperation_stops (Files.deleteFile_onItem deleteFile)
                "Deleting files" pre x post (m, r) (m1, r1) (m1, r2) err [] C F')
      as (log & Eq & St & _).
    exists log. split; [|exact St].
    unfold Files.deleteSelectedFiles_confirmed. rewrite Sel.
    destruct (pre ++ x :: post)%list eqn:Ne; [now destruct pre|].
    rewrite Eq. reflexivity.
Qed.

End BulkRunner.

Lemma runBulkOperation_sequential_fail_stop_witness :
  (exists log,
     Files.deleteSelectedFiles_confirmed refuses_b three_selected ["a"; "b"; "c"]
       = ((Files.showStatus "Permission denied" "error" three_selected, ["b"; "c"]), log) /\
     Utilities.started log = ["a"; "b"] /\
     Utilities.mentions_progress log = true)
  /\
  (exists log,
     Utilities.runBulkOperation (Files.deleteFile_onItem refuses_b) "Deleting files"
       ["c"] (three_selected, ["b"; "c"]) []
       = ((three_selected, ["b"]), log, None) /\
     Utilities.started log = ["c"] /\
     Utilities.mentions_progress log = false)
  /\
  (exists log,
     Utilities.runBulkOperation (Files.deleteFile_onItem refuses_b) "Deleting files"
       ["b"] (three_selected, ["b"; "c"]) []
       = ((three_selected, ["b"; "c"]), log, Some (Some "Permission denied")) /\
     Utilities.started log = ["b"] /\
     Utilities.mentions_progress log = false).
Proof.
  pose proof (runBulkOperation_sequential_fail_stop
                (Files.deleteFile_onItem refuses_b) refuses_b) as (Hstop & Hall & Hdel).
  split; [|split].
  - assert (C : Utilities.completes (Files.deleteFile_onItem refuses_b) 0 ["a"]
                  (three_selected, ["a"; "b"; "c"]) (three_selected, ["b"; "c"])).
    { econstructor; [reflexivity | constructor]. }
    destruct (Hdel three_selected ["a"; "b"; "c"] ["a"] "b" ["c"]
                three_selected ["b"; "c"] ["b"; "c"] (Some "Permission denied")
                eq_refl C eq_refl) as (log & Eq & St).
    exists log. split; [exact Eq|]. split; [exact St|].
    vm_compute in Eq. injection Eq as <-. reflexivity.
  - assert (C : Utilities.completes (Files.deleteFile_onItem refuses_b) 0 ["c"]
                  (three_selected, ["b"; "c"]) (three_selected, ["b"])).
    { econstructor; [reflexivity | constructor]. }
    destruct (Hall "Deleting files" ["c"] _ _ C) as (log & Eq & St & Pr).
    exists log. split; [exact Eq|]. split; [exact St|]. apply Pr. simpl. lia.
  - destruct (Hstop "Deleting files" [] "b" [] (three_selected, ["b"; "c"])
                (three_selected, ["b"; "c"]) (three_selected, ["b"; "c"])
                (Some "Permission denied")
                (Utilities.completes_nil _ _ _) eq_refl) as (log & Eq & St & Pr).
    exists log. split; [exact Eq|]. split; [exact St|]. apply Pr. simpl. lia.
Defined.

(* ================================================================== *)
(** ** The visible list: filter, then sort *)

(** C8, as stated, fails in the file pane: the filter is trimmed before it
    is matched, so for the filter [" a"] the file [ba.mp3] is shown although
    its name does not contain the filter string. *)
Lemma padded_filter_counterexample :
  let shown := snd (Files.renderFileList (mkSort "name" "asc") " a" two_files (Some 0%nat)) in
  exists f,
    In f shown /\
    JsString.includes (JsString.toLowerCase (name f)) (JsString.toLowerCase " a") = false.
Proof.
  exists (mkItem "ba.mp3" "ba.mp3" "file" None None None).
  vm_compute. split; [now left | reflexivity].
Qed.

Section VisibleList.
Context {engine : JsString.Engine}.

(** C8, amended.  Whatever the case mapping and the trimming of the engine
    are: the file pane shows the files of the cached list whose lower-cased
    name contains the lower-cased filter with the white space at its ends
    removed, each as often as the list has it, sorted by the chosen field
    and direction: ascending, no file stands before a file of a smaller
    key, otherwise no file stands before a file of a greater key.  The
    folder pane shows, of a cached listing, the folders whose lower-cased
    name contains the lower-cased filter; they are sorted by the chosen
    field and direction, and folders that compare equal keep the order
    they have in the cached listing.  (Only the order among files of the
    same key is left open: the comparator of the file pane reports no
    ties.) *)
Theorem rebuild_filters_then_sorts :
  forall localeCompare : string -> string -> Z,
    Consistent localeCompare ->
    (forall s filesFilter h files,
       let shown := snd (Files.renderFileList s filesFilter h (Some files)) in
       let fv := JsString.trim (JsString.toLowerCase filesFilter) in
       (forall f, In f shown <->
                  In f (Heap.read h files) /\
                  JsString.includes (JsString.toLowerCase (name f)) fv = true) /\
       Permutation shown (filter (Files.matchesFilter fv) (Heap.read h files)) /\
       StronglySorted
         (fun a b =>
            if String.eqb (direction s) "asc"
            then Files.key_gt (Files.sortKey s a) (Files.sortKey s b) = false
            else Files.key_gt (Files.sortKey s b) (Files.sortKey s a) = false)
         shown)
    /\
    (forall fuel p c r,
       JsObj.get (Tree.treeData c) p = Some r ->
       let shown := snd (Tree.rebuildChildren localeCompare fuel p c) in
       let cmp := Tree.sortItems_cmp localeCompare (Tree.foldersSort c) in
       let kept :=
         filter Tree.isFolder
           (filter (Tree.matchesFilter (Tree.foldersFilter c))
                   (Heap.read (Tree.heap c) r)) in
       (forall x, In x shown <->
                  In x (Heap.read (Tree.heap c) r) /\
                  JsString.includes (JsString.toLowerCase (name x))
                    (JsString.toLowerCase (Tree.foldersFilter c)) = true /\
                  type x = "folder") /\
       Permutation shown kept /\
       StronglySorted (cmp_le cmp) shown /\
       (forall z, filter (cmp_tie cmp z) shown = filter (cmp_tie cmp z) kept)).
Proof.
  intros localeCompare C. split.
  - intros s filesFilter h files. cbv zeta.
    rewrite FilesFacts.renderFileList_shown. split; [|split].
    + intros f. rewrite Array_sort_In, filter_In. reflexivity.
    + apply Array_sort_perm.
    + apply FilesFacts.sortFiles_in_key_order.
  - intros fuel p c r G. cbv zeta.
    rewrite (TreeFacts.rebuildChildren_shown localeCompare fuel p c r G).
    rewrite TreeFacts.filtered_is_filter.
    pose proof (TreeFacts.sortItems_cmp_consistent localeCompare (Tree.foldersSort c) C) as K.
    split; [|split; [|split]].
    + intros x. rewrite filter_In, Array_sort_In, filter_In.
      unfold Tree.isFolder, Tree.matchesFilter. rewrite String.eqb_eq. tauto.
    + apply Permutation_filter_compat, Array_sort_perm.
    + apply StronglySorted_filter. now apply Array_sort_strongly_sorted.
    + intros z. rewrite filter_swap, (Array_sort_ties _ _ _ K).
      apply filter_swap.
Qed.

End VisibleList.

(** The theorem applies to the engine of the examples and the order of
    strings by code units: the folders of a listing with the filter [MU];
    the file [ba.mp3] with the filter [" a"]; and three files without a
    filter, which come out by name, descending. *)
Lemma rebuild_filters_then_sorts_witness :
  Consistent codeunit_compare /\
  JsObj.get (Tree.treeData example_cache) "" = Some 0%nat /\
  map name (snd (Tree.rebuildChildren codeunit_compare 3 "" example_cache))
    = ["Music2"; "music1"] /\
  Permutation
    (snd (Tree.rebuildChildren codeunit_compare 3 "" example_cache))
    (filter Tree.isFolder
       (filter (Tree.matchesFilter "MU") (Heap.read (Tree.heap example_cache) 0%nat))) /\
  Permutation
    (snd (Files.renderFileList (mkSort "name" "asc") " a" two_files (Some 0%nat)))
    (filter (Files.matchesFilter "a") (Heap.read two_files 0%nat)) /\
  map name (snd (Files.renderFileList (mkSort "name" "desc") "" unsorted_files (Some 0%nat)))
    = ["c.mp3"; "b.mp3"; "A.mp3"] /\
  StronglySorted
    (fun a b =>
       Files.key_gt (Files.sortKey (mkSort "name" "desc") b)
                    (Files.sortKey (mkSort "name" "desc") a) = false)
    (snd (Files.renderFileList (mkSort "name" "desc") "" unsorted_files (Some 0%nat))).
Proof.
  pose proof (rebuild_filters_then_sorts codeunit_compare codeunit_compare_consistent)
    as [Hfiles Hfolders].
  split; [exact codeunit_compare_consistent|].
  split; [reflexivity|]. split; [reflexivity|]. split; [|split; [|split]].
  - exact (proj1 (proj2 (Hfolders 3%nat "" example_cache 0%nat eq_refl))).
  - exact (proj1 (proj2 (Hfiles (mkSort "name" "asc") " a" two_files 0%nat))).
  - reflexivity.
  - exact (proj2 (proj2 (Hfiles (mkSort "name" "desc") "" unsorted_files 0%nat))).
Defined.

(* ================================================================== *)
(** ** Sorting a copy, sorting in place *)

Section SortAliasing.

(** C10, as stated, fails: not every rebuild rearranges the cached arrays.
    With the filter [b] the rebuild of the root sorts a filtered copy; the
    cached array keeps the order [b], [a] and is not the sorted one.  With
    no filter the same rebuild leaves it in the order [a], [b]. *)
Lemma filtered_rebuild_counterexample :
  let c := unsorted_cache "b" in
  let c' := fst (Tree.buildTreeFromData codeunit_compare 3 c) in
  map name (Heap.read (Tree.heap c') 0%nat) = ["b"; "a"] /\
  Heap.read (Tree.heap c') 0%nat
  <> Array_sort (Tree.sortItems_cmp codeunit_compare (Tree.foldersSort c))
       (Heap.read (Tree.heap c) 0%nat) /\
  map name
    (Heap.read
       (Tree.heap (fst (Tree.buildTreeFromData codeunit_compare 3 (unsorted_cache ""))))
       0%nat) = ["a"; "b"].
Proof.
  vm_compute. split; [reflexivity|]. split; [discriminate | reflexivity].
Qed.

(** C10, amended.  [sortFiles] returns a new array holding a rearrangement
    of the content of its argument and leaves every array there was, its
    argument among them, unchanged in content and order.  [sortItems] returns its argument, which then holds
    the sorted content, and leaves the other arrays alone.  A rebuild of a
    listing hands the cached array itself to [sortItems] only when no
    folder filter is set: then the cached array is left sorted in place.
    With a filter set the rebuild sorts a filtered copy and leaves every
    array there was, the cached ones among them, unchanged. *)
Theorem sort_copy_or_in_place :
  forall localeCompare : string -> string -> Z,
    Consistent localeCompare ->
    (forall s h files,
       let h' := fst (Files.sortFiles s h files) in
       let sorted := snd (Files.sortFiles s h files) in
       ~ Heap.allocated h sorted /\
       Heap.allocated h' sorted /\
       (forall r, Heap.allocated h r -> Heap.read h' r = Heap.read h r) /\
       Permutation (Heap.read h' sorted) (Heap.read h files))
    /\
    (forall s h items,
       let h' := fst (Tree.sortItems localeCompare s h items) in
       snd (Tree.sortItems localeCompare s h items) = items /\
       Heap.read h' items
       = Array_sort (Tree.sortItems_cmp localeCompare s) (Heap.read h items) /\
       (forall r, r <> items -> Heap.read h' r = Heap.read h r))
    /\
    (forall fuel p c r,
       JsString.truthy (Tree.foldersFilter c) = false ->
       JsObj.get (Tree.treeData c) p = Some r ->
       Heap.read (Tree.heap (fst (Tree.rebuildChildren localeCompare fuel p c))) r
       = Array_sort (Tree.sortItems_cmp localeCompare (Tree.foldersSort c))
           (Heap.read (Tree.heap c) r))
    /\
    (forall fuel p c r,
       JsString.truthy (Tree.foldersFilter c) = true ->
       Heap.allocated (Tree.heap c) r ->
       Heap.read (Tree.heap (fst (Tree.rebuildChildren localeCompare fuel p c))) r
       = Heap.read (Tree.heap c) r).
Proof.
  intros localeCompare C. split; [|split; [|split]].
  - intros s h files.
    destruct (FilesFacts.sortFiles_fresh s h files) as (F1 & F2 & F3 & F4).
    cbv zeta. repeat split; try assumption.
    rewrite F4. apply Array_sort_perm.
  - intros s h items. cbv zeta. split; [reflexivity|]. split.
    + apply TreeFacts.read_sortItems.
    + intros r N. unfold Tree.sortItems. simpl.
      apply HeapFacts.read_write_other. congruence.
  - intros fuel p c r Tr G.
    now apply TreeFacts.rebuildChildren_unfiltered_sorts_cache.
  - intros fuel p c r Tr Al.
    now apply TreeFacts.rebuildChildren_filtered_frame.
Qed.

Lemma sort_copy_or_in_place_witness :
  Consistent codeunit_compare /\
  map name
    (Heap.read
       (Tree.heap (fst (Tree.rebuildChildren codeunit_compare 3 "" (unsorted_cache ""))))
       0%nat) = ["a"; "b"] /\
  Heap.read
    (Tree.heap (fst (Tree.rebuildChildren codeunit_compare 3 "" (unsorted_cache "b"))))
    0%nat
  = Heap.read (Tree.heap (unsorted_cache "b")) 0%nat /\
  Heap.read (fst (Files.sortFiles (mkSort "name" "asc") two_files 0%nat)) 0%nat
  = Heap.read two_files 0%nat.
Proof.
  pose proof (sort_copy_or_in_place codeunit_compare codeunit_compare_consistent)
    as (Hfiles & _ & Hplain & Hfiltered).
  split; [exact codeunit_compare_consistent|]. split; [|split].
  - rewrite (Hplain 3%nat "" (unsorted_cache "") 0%nat eq_refl eq_refl). reflexivity.
  - apply (Hfiltered 3%nat "" (unsorted_cache "b") 0%nat eq_refl).
    unfold Heap.allocated. simpl. lia.
  - apply (proj1 (proj2 (proj2 (Hfiles (mkSort "name" "asc") two_files 0%nat)))).
    unfold Heap.allocated. simpl. lia.
Defined.

End SortAliasing.

(* ================================================================== *)
(** ** The dialog *)

Module DialogFacts.
Import Dialog.

Lemma well_formed_focus (el : option Button) (d : T) :
  well_formed d -> well_formed (set_activeElement d el).
Proof. intros W. exact W. Qed.

Lemma well_formed_focus_button (b : Button) (d : T) :
  well_formed d -> well_formed (focus b d).
Proof.
  intros W. unfold focus. destruct b; try exact W.
  destruct (confirmBtn_disabled (view d)); exact W.
Qed.

Lemma well_formed_set_view (v : View) (d : T) :
  well_formed d -> well_formed (set_view d v).
Proof. intros W. exact W. Qed.

Lemma well_formed_close (r : bool) (d : T) :
  well_formed d -> well_formed (close r d).
Proof.
  intros W. unfold close, isOpen. destruct (isOpenFlag d) eqn:O; [|exact W].
  destruct W as (W1 & W2 & W3 & W4 & W5 & W6 & W7 & W8).
  rewrite O in *. cbn [negb]. cbn. rewrite W3. cbn.
  destruct (resolve d) as [p|] eqn:R.
  - destruct (W6 p eq_refl) as [Lt Fresh].
    unfold well_formed; cbn.
    assert (M : map fst (settledPromises d ++ [(p, r)])%list
                = (map fst (settledPromises d) ++ [p])%list)
      by (now rewrite map_app).
    rewrite M.
    repeat split; try congruence; try discriminate.
    all: try (rewrite W4; reflexivity).
    + clear - W7 Fresh. induction (map fst (settledPromises d)) as [|x l IH]; cbn.
      * constructor; [intros []|constructor].
      * inversion W7; subst. constructor.
        -- intros I. apply in_app_or in I. destruct I as [I|[->|[]]]; [auto|].
           apply Fresh. now left.
        -- apply IH; [assumption|]. intros I. apply Fresh. now right.
    + intros q Hq. apply in_app_or in Hq. destruct Hq as [Hq|[<-|[]]]; auto.
  - exfalso. apply (proj1 W5 eq_refl). reflexivity.
Qed.

Lemma well_formed_openBase (o : Options) (d : T) :
  well_formed d -> well_formed (fst (openBase o d)).
Proof.
  intros W. unfold openBase, isOpen.
  destruct (mounted d) eqn:Mo; cbn [negb orb]; [|exact W].
  destruct (isOpenFlag d) eqn:O; [exact W|].
  destruct W as (W1 & W2 & W3 & W4 & W5 & W6 & W7 & W8).
  rewrite O in *. unfold well_formed; cbn.
  repeat split; try congruence; try discriminate; auto.
  all: try (rewrite W4; reflexivity).

  - inversion H; subst. lia.
  - inversion H; subst. intros I. apply W8 in I. lia.
  - intros p I. apply W8 in I. lia.
Qed.

Lemma well_formed_keyHandler_body (layout : Button -> bool) (e : KeyEvent) (d : T) :
  well_formed d -> well_formed (fst (keyHandler_body layout e d)).
Proof.
  intros W. unfold keyHandler_body.
  destruct (negb (isOpen d)); [exact W|].
  destruct (key e); cbn [fst].
  - now apply well_formed_close.
  - destruct (activeElement d) as [[]|]; cbn [fst]; try exact W;
      destruct (confirmBtn_disabled (view d)); cbn [fst];
      try exact W; now apply well_formed_close.
  - destruct (focusable layout d) as [|b0 rest] eqn:F; [exact W|].
    match goal with
    | |- context [nth_error ?l ?i] => destruct (nth_error l i)
    end; cbn [fst]; [now apply well_formed_focus_button|exact W].
  - exact W.
Qed.

Lemma well_formed_run (d : T) (op : Op) : well_formed d -> well_formed (run d op).
Proof.
  intros W. destruct op; cbn [run].
  - now apply well_formed_openBase.
  - now apply well_formed_focus_button.
  - now apply well_formed_close.
  - unfold overlay_click. destruct (mounted d); [now apply well_formed_close|exact W].
  - unfold cancelBtn_click. destruct (mounted d); [now apply well_formed_close|exact W].
  - destruct (confirmBtn_disabled (view d)); [exact W|].
    unfold confirmBtn_click. destruct (mounted d); [now apply well_formed_close|exact W].
  - unfold keydown. destruct (0 <? listeners d)%nat; [|exact W].
    now apply well_formed_keyHandler_body.
  - unfold update. destruct (negb (isOpen d)); [exact W|]. exact W.
  - exact W.
Qed.

Lemma well_formed_initial (found : bool) : well_formed (initial found).
Proof.
  unfold well_formed, initial; cbn.
  repeat split; try congruence; try discriminate; try constructor.
  all: try (intros p []).
Qed.

(** X1.  Whatever is done to the dialog object from its first state on
    (opening dialogs of any kind, closing, clicks, keys, updates, focus
    changes, in any order), it stays well formed: it is open only when it
    was mounted; the box is shown, exactly one key listener is installed
    and a promise is pending exactly while it is open and none of these
    otherwise; the pending promise has not been resolved; and no promise is
    resolved twice. *)
Theorem dialog_stays_well_formed (found : bool) (ops : list Op) :
  well_formed (fold_left run ops (initial found)).
Proof.
  assert (G : forall d, well_formed d -> well_formed (fold_left run ops d)).
  { induction ops as [|op ops IH]; intros d W; cbn; [exact W|].
    apply IH. now apply well_formed_run. }
  apply G, well_formed_initial.
Qed.

Lemma focus_frame (b : Button) (d : T) :
  isOpenFlag (focus b d) = isOpenFlag d /\ mounted (focus b d) = mounted d /\
  view (focus b d) = view d /\ resolve (focus b d) = resolve d /\
  settledPromises (focus b d) = settledPromises d /\
  keyHandler (focus b d) = keyHandler d /\ listeners (focus b d) = listeners d.
Proof.
  unfold focus. destruct b; cbn; auto 10.
  destruct (confirmBtn_disabled (view d)); cbn; auto 10.
Qed.

(** An operation that keeps the dialog leaves an open dialog open, with
    the same texts, the same pending promise and the same resolved ones. *)
Lemma keeps_dialog_frame (op : Op) (d : T) :
  keeps_dialog op = true -> isOpenFlag d = true ->
  isOpenFlag (run d op) = true /\ mounted (run d op) = mounted d /\
  view (run d op) = view d /\ resolve (run d op) = resolve d /\
  settledPromises (run d op) = settledPromises d /\
  keyHandler (run d op) = keyHandler d /\ listeners (run d op) = listeners d.
Proof.
  intros K O. destruct op; cbn in K; try discriminate; cbn [run].
  - unfold openBase, isOpen. rewrite O, orb_true_r. cbn. auto 10.
  - unfold openBase_timeout. destruct (focus_frame ConfirmBtn d) as (A & B & C & D & E & F & G).
    rewrite A, B, C, D, E, F, G. auto 10.
  - unfold keydown. destruct (0 <? listeners d)%nat; [|auto 10].
    unfold keyHandler_body, isOpen. rewrite O. cbn [negb].
    destruct (key e); try discriminate; cbn [fst]; [|auto 10].
    destruct (focusable offsetParent d); [cbn; auto 10|].
    match goal with
    | |- context [nth_error ?l ?i] => destruct (nth_error l i) as [b'|]
    end; cbn [fst]; [|auto 10].
    destruct (focus_frame b' d) as (A & B & C & D & E & F & G).
    rewrite A, B, C, D, E, F, G. auto 10.
  - cbn. auto 10.
Qed.

Lemma keeps_dialog_frames (ops : list Op) :
  forall d,
    forallb keeps_dialog ops = true -> isOpenFlag d = true ->
    let d' := fold_left run ops d in
    isOpenFlag d' = true /\ view d' = view d /\ resolve d' = resolve d /\
    settledPromises d' = settledPromises d /\ keyHandler d' = keyHandler d /\
    listeners d' = listeners d.
Proof.
  induction ops as [|op ops IH]; intros d K O; cbn in *; [auto 10|].
  apply andb_true_iff in K. destruct K as [K1 K2].
  destruct (keeps_dialog_frame op d K1 O) as (A & B & C & D & E & F & G).
  destruct (IH (run d op) K2 A) as (A' & C' & D' & E' & F' & G').
  rewrite A', C', D', E', F', G'. auto 10.
Qed.

(** X2.  One dialog at a time.  Once [openBase] has opened a dialog and
    handed out its promise, and as long as only operations that keep the
    dialog happen, every further attempt to open a dialog (a confirm, an
    alert, a list) is answered [false] at once and leaves the texts of the
    open dialog as they are; the first [close] resolves the promise of the
    open dialog, and no other, with the value it is given; and a second
    [close] does nothing. *)
Theorem dialog_one_at_a_time
    (o : Options) (d d1 : T) (p : nat) (ops : list Op) (r : bool) :
  openBase o d = (d1, Later p) ->
  forallb keeps_dialog ops = true ->
  let d2 := fold_left run ops d1 in
  (forall o', openBase o' d2 = (d2, Already false)) /\
  view d2 = view d1 /\
  settledPromises (close r d2) = (settledPromises d ++ [(p, r)])%list /\
  isOpenFlag (close r d2) = false /\
  (forall r', close r' (close r d2) = close r d2).
Proof.
  intros Op K d2.
  assert (O1 : isOpenFlag d1 = true /\ resolve d1 = Some p /\
               settledPromises d1 = settledPromises d).
  { unfold openBase, isOpen in Op.
    destruct (negb (mounted d) || isOpenFlag d); [discriminate|].
    inversion Op; subst. cbn. auto. }
  destruct O1 as (O1 & R1 & S1).
  destruct (keeps_dialog_frames ops d1 K O1) as (A & C & D & E & F & G).
  fold d2 in A, C, D, E, F, G.
  assert (CL : settledPromises (close r d2) = (settledPromises d ++ [(p, r)])%list /\
               isOpenFlag (close r d2) = false).
  { unfold close, isOpen. rewrite A. cbn [negb].
    destruct (keyHandler (set_active d2 false)); cbn; rewrite D, R1; cbn;
      rewrite E, S1; auto. }
  destruct CL as [CL1 CL2].
  repeat split; auto.
  - intros o'. unfold openBase, isOpen. now rewrite A, orb_true_r.
  - intros r'. unfold close at 1. unfold isOpen. now rewrite CL2.
Qed.

(** The theorem applies to a confirmation opened on a fresh page, with a
    refused alert and a Tab key before the close. *)
Lemma dialog_one_at_a_time_witness :
  let d := initial true in
  let o := mkOptions "Delete file" "Sure?" "Delete" "Cancel" true false "" true false false in
  let d1 := fst (openBase o d) in
  let ops := [OpOpen (mkOptions "Error" "x" "OK" "" false false "" false false false);
              OpKeydown (fun _ => true) (mkKeyEvent Tab false)] in
  let d2 := fold_left run ops d1 in
  titleEl (view d2) = "Delete file" /\
  settledPromises (close true d2) = [(0%nat, true)].
Proof.
  cbv zeta.
  destruct (dialog_one_at_a_time
              (mkOptions "Delete file" "Sure?" "Delete" "Cancel" true false "" true false false)
              (initial true)
              (fst (openBase (mkOptions "Delete file" "Sure?" "Delete" "Cancel" true false ""
                                        true false false) (initial true)))
              0%nat
              [OpOpen (mkOptions "Error" "x" "OK" "" false false "" false false false);
               OpKeydown (fun _ => true) (mkKeyEvent Tab false)]
              true eq_refl eq_refl) as (_ & V & S & _).
  split; [now rewrite V|exact S].
Defined.

Lemma confirmed_close_false (d : T) : confirmed (close false d) = confirmed d.
Proof.
  unfold close, confirmed. destruct (negb (isOpen d)); [reflexivity|].
  destruct (keyHandler (set_active d false)); cbn;
    destruct (resolve d); cbn; try reflexivity;
    rewrite filter_app; cbn; now rewrite app_nil_r.
Qed.

Lemma view_close (r : bool) (d : T) : view (close r d) = view d.
Proof.
  unfold close. destruct (negb (isOpen d)); [reflexivity|].
  destruct (keyHandler (set_active d false)); cbn; destruct (resolve d); reflexivity.
Qed.

Lemma user_input_disabled_confirm (op : Op) (d : T) :
  is_user_input op = true -> confirmBtn_disabled (view d) = true ->
  confirmed (run d op) = confirmed d /\ view (run d op) = view d.
Proof.
  intros U Dis. destruct op; cbn in U; try discriminate; cbn [run].
  - unfold overlay_click. destruct (mounted d); [|auto].
    split; [apply confirmed_close_false|apply view_close].
  - unfold cancelBtn_click. destruct (mounted d); [|auto].
    split; [apply confirmed_close_false|apply view_close].
  - rewrite Dis. auto.
  - unfold keydown. destruct (0 <? listeners d)%nat; [|auto].
    unfold keyHandler_body. destruct (negb (isOpen d)); [auto|].
    destruct (key e); cbn [fst]; auto.
    + split; [apply confirmed_close_false|apply view_close].
    + rewrite Dis. destruct (activeElement d) as [[]|]; auto.
    + destruct (focusable offsetParent d); [auto|].
      match goal with
      | |- context [nth_error ?l ?i] => destruct (nth_error l i) as [b'|]
      end; cbn [fst]; [|auto].
      destruct (focus_frame b' d) as (A & B & C & D & E & F & G).
      unfold confirmed. rewrite C, E. auto.
  - auto.
Qed.

(** X3.  A dialog whose confirm button is disabled (the loading dialog)
    cannot be confirmed by the user: whatever sequence of clicks on the
    overlay and the buttons, keys (Enter and Escape among them) and focus
    changes happens, no promise is resolved with [true] and the button
    stays disabled. *)
Theorem disabled_confirm_never_confirmed (d : T) (ops : list Op) :
  confirmBtn_disabled (view d) = true ->
  forallb is_user_input ops = true ->
  confirmed (fold_left run ops d) = confirmed d /\
  confirmBtn_disabled (view (fold_left run ops d)) = true.
Proof.
  revert d. induction ops as [|op ops IH]; intros d Dis U; cbn in *; [auto|].
  apply andb_true_iff in U. destruct U as [U1 U2].
  destruct (user_input_disabled_confirm op d U1 Dis) as [C V].
  assert (Dis' : confirmBtn_disabled (view (run d op)) = true) by now rewrite V.
  destruct (IH (run d op) Dis' U2) as [C' V'].
  now rewrite C', C.
Qed.

(** The theorem applies to a loading dialog on which the user presses
    Enter and clicks the confirm button and the overlay. *)
Lemma disabled_confirm_never_confirmed_witness :
  let d := fst (showLoading "Please wait" "Working..." "Cancel" false (initial true)) in
  let ops := [OpKeydown (fun _ => true) (mkKeyEvent Enter false);
              OpConfirmClick; OpOverlayClick] in
  confirmBtn_disabled (view d) = true /\
  confirmed (fold_left run ops d) = [] /\
  settledPromises (fold_left run ops d) = [(0%nat, false)].
Proof.
  cbv zeta. split; [reflexivity|]. split; [|reflexivity].
  exact (proj1 (disabled_confirm_never_confirmed
                  (fst (showLoading "Please wait" "Working..." "Cancel" false (initial true)))
                  [OpKeydown (fun _ => true) (mkKeyEvent Enter false);
                   OpConfirmClick; OpOverlayClick]
                  eq_refl eq_refl)).
Defined.

(** X4.  The Tab key of an open dialog whose confirm button is enabled.
    When no button can take the focus the key is left to the browser.
    Otherwise the default is prevented and the focus lands on a button that
    can take it: the dialog keeps the focus.  And when the focus was on
    such a button, Tab followed by Shift+Tab brings it back there. *)
Theorem dialog_tab_cycle (layout : Button -> bool) (d : T) :
  isOpenFlag d = true ->
  confirmBtn_disabled (view d) = false ->
  let tab := keyHandler_body layout (mkKeyEvent Tab false) d in
  (focusable layout d = [] -> tab = (d, false)) /\
  (focusable layout d <> [] ->
     snd tab = true /\
     exists b, activeElement (fst tab) = Some b /\ In b (focusable layout d)) /\
  (forall b, activeElement d = Some b -> In b (focusable layout d) ->
     activeElement
       (fst (keyHandler_body layout (mkKeyEvent Tab true) (fst tab))) = Some b).
Proof.
  intros O En. cbv zeta. unfold keyHandler_body, isOpen, focusable.
  rewrite O. cbn [negb key shiftKey filter].
  destruct (layout CopyBtn), (layout CancelBtn), (layout ConfirmBtn),
    (copyBtn_shown (view d)) eqn:S1, (cancelBtn_shown (view d)) eqn:S2;
    cbn [andb filter].
  all: split; [try discriminate; reflexivity|].
  all: split;
    [ intros NE; try (now elim NE);
      destruct (activeElement d) as [[]|];
      cbn; rewrite ?En; cbn; split; try reflexivity; eexists; split;
        try reflexivity; cbn; tauto
    | intros b Eb Ib; cbn in Ib;
      destruct b; try (exfalso; intuition discriminate);
      rewrite ?Eb; cbn; rewrite ?En; cbn; rewrite ?O, ?S1, ?S2, ?En; cbn;
      rewrite ?En; reflexivity ].
Qed.

(** The theorem applies to a confirmation with the focus on its confirm
    button. *)
Lemma dialog_tab_cycle_witness :
  let d := openBase_timeout
             (fst (confirm "Merge folders" "Merge?" "Merge" "Cancel" true (initial true))) in
  activeElement (fst (keyHandler_body (fun _ => true) (mkKeyEvent Tab false) d))
    = Some CancelBtn /\
  activeElement
    (fst (keyHandler_body (fun _ => true) (mkKeyEvent Tab true)
            (fst (keyHandler_body (fun _ => true) (mkKeyEvent Tab false) d))))
    = Some ConfirmBtn.
Proof.
  cbv zeta. split; [reflexivity|].
  apply (proj2 (proj2 (dialog_tab_cycle (fun _ => true)
           (openBase_timeout
              (fst (confirm "Merge folders" "Merge?" "Merge" "Cancel" true (initial true))))
           eq_refl eq_refl)) ConfirmBtn eq_refl).
  cbn. tauto.
Defined.

End DialogFacts.

(* ================================================================== *)
(** ** Menus, the form and the status line *)

Module UIUtilsFacts.
Import UIUtils.

Lemma In_closeActionsMenus (exceptMenu : option nat) (dom : list MenuEl) (x : MenuEl) :
  In x (closeActionsMenus exceptMenu dom) ->
  menu_active x = true ->
  exceptMenu = Some (menu_id x) /\ In x dom.
Proof.
  unfold closeActionsMenus. intros I A. apply in_map_iff in I.
  destruct I as (m & E & I).
  destruct (menu_active m) eqn:Am; cbn in E.
  - destruct exceptMenu as [e|]; cbn in E.
    + destruct (Nat.eqb (menu_id m) e) eqn:Q; cbn in E; subst x.
      * apply Nat.eqb_eq in Q. now subst e.
      * cbn in A. discriminate.
    + subst x. cbn in A. discriminate.
  - subst x. congruence.
Qed.

Lemma map_id_closeActionsMenus (exceptMenu : option nat) (dom : list MenuEl) :
  map menu_id (closeActionsMenus exceptMenu dom) = map menu_id dom.
Proof.
  unfold closeActionsMenus. rewrite map_map. apply map_ext. intros m.
  destruct (menu_active m && _); reflexivity.
Qed.

Lemma map_id_menu_update (f : bool -> bool) (id : nat) (dom : list MenuEl) :
  map menu_id (menu_update f id dom) = map menu_id dom.
Proof.
  unfold menu_update. rewrite map_map. apply map_ext. intros m.
  destruct (Nat.eqb (menu_id m) id); reflexivity.
Qed.

(** X5.  At most one actions menu is open.  After [openActionsMenu] the
    menus that are open are exactly those with the identity of the one
    opened; after [toggleActionsMenu] no other menu is open and the menu
    itself is open exactly when it was not; after a click that reaches the
    document none is open.  None of them adds or removes a menu. *)
Theorem actions_menus_exclusive (menuEl : nat) (dom : list MenuEl) :
  (forall x, In x (openActionsMenu menuEl dom) ->
     (menu_active x = true <-> menu_id x = menuEl)) /\
  (forall x, In x (toggleActionsMenu menuEl dom) ->
     menu_active x = true -> menu_id x = menuEl) /\
  (forall x, In x dom -> menu_id x = menuEl ->
     In (mkMenu menuEl (negb (menu_active x))) (toggleActionsMenu menuEl dom)) /\
  (forall x, In x (document_click dom) -> menu_active x = false) /\
  map menu_id (openActionsMenu menuEl dom) = map menu_id dom /\
  map menu_id (toggleActionsMenu menuEl dom) = map menu_id dom /\
  map menu_id (document_click dom) = map menu_id dom.
Proof.
  repeat split.
  - intros A. unfold openActionsMenu, menu_update in H. apply in_map_iff in H.
    destruct H as (m & E & I).
    destruct (Nat.eqb (menu_id m) menuEl) eqn:Q.
    + apply Nat.eqb_eq in Q. subst x. exact Q.
    + subst x. destruct (In_closeActionsMenus _ _ _ I A) as [E _].
      inversion E; subst. now rewrite Nat.eqb_refl in Q.
  - intros E. unfold openActionsMenu, menu_update in H. apply in_map_iff in H.
    destruct H as (m & E' & I).
    destruct (Nat.eqb (menu_id m) menuEl) eqn:Q.
    + now subst x.
    + subst x. apply Nat.eqb_neq in Q. congruence.
  - intros x I A. unfold toggleActionsMenu, menu_update in I. apply in_map_iff in I.
    destruct I as (m & E & I).
    destruct (Nat.eqb (menu_id m) menuEl) eqn:Q.
    + apply Nat.eqb_eq in Q. now subst x.
    + subst x. destruct (In_closeActionsMenus _ _ _ I A) as [E _].
      inversion E; subst. now rewrite Nat.eqb_refl in Q.
  - intros x I E. unfold toggleActionsMenu, menu_update, closeActionsMenus.
    rewrite map_map. apply in_map_iff. exists x. split; [|exact I].
    rewrite E, Nat.eqb_refl. cbn. rewrite andb_false_r. cbn.
    now rewrite E, Nat.eqb_refl.
  - intros x I. destruct (menu_active x) eqn:A; [|reflexivity].
    destruct (In_closeActionsMenus None dom x I A) as [E _]. discriminate.
  - unfold openActionsMenu. now rewrite map_id_menu_update, map_id_closeActionsMenus.
  - unfold toggleActionsMenu. now rewrite map_id_menu_update, map_id_closeActionsMenus.
  - apply map_id_closeActionsMenus.
Qed.

(** X6.  Disabling the form and enabling it again does not restore it:
    every input ends enabled; a history button or a status button that is
    processing keeps the state it had; and every other button ends
    disabled exactly when its title carries the note of a format without
    album art, whatever its state was before. *)
Theorem setFormEnabled_off_on (f : FormDom) :
  setFormEnabled true (setFormEnabled false f)
  = mkForm (map (fun _ => false) (inputs_disabled f))
           (map (fun b => if skipped b then b
                          else set_btn_disabled b (art_restricted b))
                (buttons f)).
Proof.
  unfold setFormEnabled. cbn [inputs_disabled buttons negb andb].
  rewrite !map_map. f_equal. apply map_ext. intros b.
  unfold skipped, art_restricted, set_btn_disabled.
  destruct b as [h hc st pr t dis]. cbn.
  destruct h, hc, st, pr; cbn; try reflexivity;
    destruct (JsString.truthy t && JsString.includes t artNote); reflexivity.
Qed.

Lemma or_text_empty (s : string) : Dialog.or_text s "" = s.
Proof.
  unfold Dialog.or_text, JsString.truthy.
  destruct (String.eqb s "") eqn:E; [|reflexivity].
  apply String.eqb_eq in E. now subst.
Qed.

(** X7.  An error status and the dialog.  While a dialog is open (a
    confirmation that waits for its answer, say), [showStatus] with type
    [error] leaves it as it is: the message reaches the status element
    only.  With the dialog mounted and closed it opens an alert that
    shows the message under the title [Error], without a cancel button.  A
    status of another type never touches the dialog. *)
Theorem showStatus_error_and_dialog
    (message : string) (st : option (string * string)) (d : Dialog.T) :
  (Dialog.isOpenFlag d = true ->
     dialog (showStatus message "error" (mkPage st (Some d))) = Some d) /\
  (Dialog.isOpenFlag d = false -> Dialog.mounted d = true ->
     exists d',
       dialog (showStatus message "error" (mkPage st (Some d))) = Some d' /\
       Dialog.isOpenFlag d' = true /\
       Dialog.titleEl (Dialog.view d') = "Error" /\
       Dialog.bodyEl (Dialog.view d') = message /\
       Dialog.cancelBtn_shown (Dialog.view d') = false /\
       Dialog.resolve d' = Some (Dialog.nextPromise d)) /\
  (forall type, type <> "error" ->
     dialog (showStatus message type (mkPage st (Some d))) = Some d) /\
  (forall type text cls, st = Some (text, cls) ->
     statusEl (showStatus message type (mkPage st (Some d)))
     = Some (message, "status " ++ type)).
Proof.
  repeat split.
  - intros O. unfold showStatus. destruct st; cbn; unfold Dialog.isOpen; now rewrite O.
  - intros O M. unfold showStatus.
    assert (G : exists d',
               fst (Dialog.alert "Error" message "OK" d) = d' /\
               Dialog.isOpenFlag d' = true /\
               Dialog.titleEl (Dialog.view d') = "Error" /\
               Dialog.bodyEl (Dialog.view d') = message /\
               Dialog.cancelBtn_shown (Dialog.view d') = false /\
               Dialog.resolve d' = Some (Dialog.nextPromise d)).
    { eexists. split; [reflexivity|].
      unfold Dialog.alert, Dialog.openBase, Dialog.isOpen. rewrite O, M. cbn.
      rewrite or_text_empty. auto. }
    destruct G as (d' & E & G).
    exists d'. split; [|exact G].
    destruct st; cbn; unfold Dialog.isOpen; rewrite O; cbn; now rewrite E.
  - intros type N. unfold showStatus. apply String.eqb_neq in N.
    destruct st; cbn; now rewrite N.
  - intros type text cls ->. unfold showStatus. cbn.
    destruct (String.eqb type "error"); [|reflexivity].
    destruct (negb (Dialog.isOpen d)); reflexivity.
Qed.

(** X8.  Where an actions menu is put, in whole pixels.  When the window
    has room for the menu and a margin of 8 on both sides, the menu lies
    inside the window with those margins, to the left of the pointer when
    that fits.  When the window is narrower than that, the right margin is
    kept and the left edge falls short of the left margin. *)
Theorem actions_menu_within_window (x width innerWidth : Z) :
  ((width + 16 <= innerWidth)%Z ->
     (8 <= finalLeft x width innerWidth)%Z /\
     (finalLeft x width innerWidth + width <= innerWidth - 8)%Z /\
     ((8 <= x - width)%Z -> (x <= innerWidth - 8)%Z ->
        (finalLeft x width innerWidth + width = x)%Z)) /\
  ((innerWidth < width + 16)%Z ->
     (finalLeft x width innerWidth + width = innerWidth - 8)%Z /\
     (finalLeft x width innerWidth < 8)%Z).
Proof. unfold finalLeft. lia. Qed.

End UIUtilsFacts.

(* ================================================================== *)
(** ** The filter and sort controls *)

Module ControlsFacts.
Import Controls.

Ltac controls_cases C :=
  pose proof (C FilesPane) as (?F1 & ?F2 & ?F3 & ?F4);
  pose proof (C FoldersPane) as (?G1 & ?G2 & ?G3 & ?G4);
  cbn in *.

Lemma consistent_closed (filesSort foldersSort : SortSetting) :
  consistent (closed filesSort foldersSort).
Proof. intros []; cbn; repeat split; discriminate. Qed.

Lemma consistent_handle (c : T) (h : Handler) :
  consistent c -> consistent (handle c h).
Proof.
  intros C q. controls_cases C.
  destruct c as [[fa fb fd ft fs] [ga gb gd gt gs] afp asd fp cl]; cbn in *.
  destruct h as [p|p v|p|p|p s|p o|m]; cbn.
  - (* filter button *)
    destruct p, q; unfold filterBtn_click; cbn;
      destruct fa, fb, fd, ga, gb, gd; cbn in *;
      repeat split; intros; try discriminate; try reflexivity; auto;
      try (exfalso; auto; fail).
  - destruct p, q; cbn; repeat split; auto.
  - destruct p, q; unfold sortBtn_click; cbn;
      destruct fa, fb, fd, ga, gb, gd; cbn in *;
      repeat split; intros; try discriminate; try reflexivity; auto.
  - destruct p, q; cbn; repeat split; auto.
  - destruct p, q; unfold sortOption_click; cbn;
      repeat split; intros; try discriminate; auto;
      destruct fa, ga; cbn in *; auto.
  - destruct o; unfold document_click; cbn [negb]; [exact (C q)|].
    destruct asd as [name|];
      (destruct p; cbn;
       [ try (destruct (String.eqb name "files") eqn:Q)
       | try (destruct (String.eqb name "folders") eqn:Q) ]);
      destruct q; cbn; repeat split; rewrite ?andb_false_r; intros; auto;
      try discriminate;
      try (match goal with
           | H : Some _ = Some _ |- _ => inversion H; subst; cbn in *; discriminate
           end).
  - unfold setSortMethod; cbn. destruct q; cbn; repeat split; auto.
Qed.

(** X9.  From the page as it is loaded and through any sequence of the
    handlers of the two panes (filter button, filter box, sort button,
    direction toggle, sort option, click elsewhere, [setSortMethod]), in
    each pane the filter box and the sort dropdown are never open
    together, the filter button is highlighted exactly when the filter box
    is open, and when [State.activeFilterPane] or
    [State.activeSortDropdown] names a pane, the filter box or the dropdown
    of that pane is open. *)
Theorem controls_stay_consistent
    (filesSort foldersSort : SortSetting) (events : list Handler) :
  consistent (fold_left handle events (closed filesSort foldersSort)).
Proof.
  assert (G : forall c, consistent c -> consistent (fold_left handle events c)).
  { induction events as [|h events IH]; intros c C; cbn; [exact C|].
    apply IH. now apply consistent_handle. }
  apply G, consistent_closed.
Qed.

Section SortDirection.
Variable localeCompare : string -> string -> Z.

Lemma sortItems_cmp_flip (s : SortSetting) (a b : Item) :
  Tree.sortItems_cmp localeCompare (flip s) a b
  = (- Tree.sortItems_cmp localeCompare s a b)%Z.
Proof.
  unfold Tree.sortItems_cmp, flip. cbn [method direction].
  destruct (String.eqb (direction s) "asc"); cbn; lia.
Qed.

(** X10.  The direction toggle of the folder pane.  It keeps the sort
    field and leaves the direction [asc] or [desc]; it turns the comparator
    of [sortItems] into its opposite, so that, for a consistent
    [localeCompare], a listing sorted afterwards is in descending order of
    the comparator before; toggling twice restores a setting whose
    direction was [asc] or [desc]; and [setSortMethod] with the current
    field is the same toggle, while with another field it starts
    ascending. *)
Theorem direction_toggle_reverses_folder_order (c : T) (items : list Item) :
  Consistent localeCompare ->
  let old := sort (folders c) in
  let new := sort (folders (sortDirection_click FoldersPane c)) in
  method new = method old /\
  (direction new = "asc" \/ direction new = "desc") /\
  (forall a b,
     Tree.sortItems_cmp localeCompare new a b
     = (- Tree.sortItems_cmp localeCompare old a b)%Z) /\
  StronglySorted
    (fun x y => (0 <= Tree.sortItems_cmp localeCompare old x y)%Z)
    (Array_sort (Tree.sortItems_cmp localeCompare new) items) /\
  (direction old = "asc" \/ direction old = "desc" ->
     sort (folders (sortDirection_click FoldersPane (sortDirection_click FoldersPane c)))
     = old) /\
  sort (folders (setSortMethod (method old) c)) = new /\
  (forall m, m <> method old ->
     sort (folders (setSortMethod m c)) = mkSort m "asc").
Proof.
  intros C. cbv zeta. cbn [sortDirection_click set_pane folders pane call set_sort sort].
  split; [reflexivity|]. split.
  { unfold flip; cbn. destruct (String.eqb (direction (sort (folders c))) "asc"); auto. }
  split; [intros a b; apply sortItems_cmp_flip|]. split.
  { pose proof (Array_sort_strongly_sorted
                  (Tree.sortItems_cmp localeCompare (flip (sort (folders c)))) items
                  (TreeFacts.sortItems_cmp_consistent localeCompare _ C)) as S.
    induction S as [|x l S IH F]; constructor; [assumption|].
    rewrite Forall_forall in *. intros y Iy. specialize (F y Iy).
    unfold cmp_le in F. rewrite sortItems_cmp_flip in F. lia. }
  split.
  { destruct (sort (folders c)) as [m d]. cbn. intros [->| ->]; reflexivity. }
  split.
  { unfold setSortMethod. cbn. now rewrite String.eqb_refl. }
  intros m N. unfold setSortMethod. cbn.
  apply not_eq_sym in N. apply String.eqb_neq in N. now rewrite N.
Qed.

End SortDirection.

(** The theorem applies to the order of strings by code units: two
    folders listed by name come out in the other order after the toggle. *)
Lemma direction_toggle_reverses_folder_order_witness :
  let c := closed (mkSort "name" "asc") (mkSort "name" "asc") in
  let a := mkItem "a" "a" "folder" None None None in
  let b := mkItem "b" "b" "folder" None None None in
  Array_sort (Tree.sortItems_cmp codeunit_compare
                (sort (folders (sortDirection_click FoldersPane c)))) [a; b]
  = [b; a] /\
  StronglySorted
    (fun x y => (0 <= Tree.sortItems_cmp codeunit_compare (mkSort "name" "asc") x y)%Z)
    [b; a].
Proof.
  cbv zeta. split; [reflexivity|].
  exact (proj1 (proj2 (proj2 (proj2
           (direction_toggle_reverses_folder_order codeunit_compare
              (closed (mkSort "name" "asc") (mkSort "name" "asc"))
              [mkItem "a" "a" "folder" None None None;
               mkItem "b" "b" "folder" None None None]
              codeunit_compare_consistent))))).
Defined.

End ControlsFacts.

(* ================================================================== *)
(** ** Levels, ancestors and the reload of the tree *)

Module TreeOpsFacts.
Import JsString TreeOps.

(** *** Separators in a string *)

Lemma split_length (sep : ascii) (s : string) :
  List.length (JsStr.split sep s) = S (JsStr.count sep s).
Proof.
  induction s as [|c s IH]; cbn; [reflexivity|].
  destruct (Ascii.eqb c sep); cbn; [now rewrite IH|].
  destruct (JsStr.split sep s); cbn in *; [discriminate|exact IH].
Qed.

Lemma count_append (sep : ascii) (a b : string) :
  JsStr.count sep (a ++ b) = (JsStr.count sep a + JsStr.count sep b)%nat.
Proof. induction a as [|c a IH]; cbn; [reflexivity|]. rewrite IH. lia. Qed.

Lemma getLevel_count (p : string) : getLevel p = JsStr.count "/" p.
Proof.
  unfold getLevel, truthy. destruct p as [|c p]; [reflexivity|].
  cbn [String.eqb negb]. rewrite split_length. lia.
Qed.

Lemma under_level (a b : string) :
  PathRewrite.under a b = true -> (getLevel a < getLevel b)%nat.
Proof.
  unfold PathRewrite.under, startsWith. intros U.
  apply PathRewriteFacts.prefix_split in U. rewrite !getLevel_count.
  rewrite U, !count_append. cbn. lia.
Qed.

(** No prefix that ends in the separator fits a string without one. *)
Lemma prefix_sep_none (sep : ascii) (y t : string) :
  JsStr.count sep t = O ->
  String.prefix (y ++ String sep EmptyString) t = false.
Proof.
  revert t. induction y as [|d y IH]; intros t Z; destruct t as [|c t]; cbn in *;
    try reflexivity.
  - destruct (Ascii.ascii_dec sep c) as [<-|]; [|reflexivity].
    rewrite Ascii.eqb_refl in Z. discriminate.
  - destruct (Ascii.ascii_dec d c); [|reflexivity].
    apply IH. destruct (Ascii.eqb c sep); [discriminate|exact Z].
Qed.

(** A prefix that ends in the separator, against a string whose last
    separator follows [P]. *)
Lemma prefix_sep_last (sep : ascii) (t : string) :
  JsStr.count sep t = O ->
  forall P y,
    String.prefix (y ++ String sep EmptyString) (P ++ String sep t) = true <->
    y = P \/ String.prefix (y ++ String sep EmptyString) P = true.
Proof.
  assert (PE : forall s, String.prefix "" s = true) by (now destruct s).
  intros Z. induction P as [|c P IH]; intros y.
  - destruct y as [|d y]; cbn.
    + destruct (Ascii.ascii_dec sep sep); [|congruence]. rewrite PE. split; auto.
    + destruct (Ascii.ascii_dec d sep).
      * rewrite (prefix_sep_none sep y t Z). split; [discriminate|].
        intros [E|E]; discriminate.
      * split; [discriminate|]. intros [E|E]; discriminate.
  - destruct y as [|d y]; cbn.
    + destruct (Ascii.ascii_dec sep c); rewrite ?PE; split; auto;
        intros [E|E]; discriminate.
    + destruct (Ascii.ascii_dec d c) as [->|N].
      * rewrite IH. split.
        -- intros [->|E]; auto.
        -- intros [E|E]; [inversion E; auto|auto].
      * split; [discriminate|]. intros [E|E]; [inversion E; congruence|discriminate].
Qed.

Lemma substring0_cons (c : ascii) (s : string) (i : nat) :
  JsStr.substring0 (S i) (String c s) = String c (JsStr.substring0 i s).
Proof. reflexivity. Qed.

Lemma lastIndexOf_None (sep : ascii) (s : string) :
  JsStr.lastIndexOf sep s = None -> JsStr.count sep s = O.
Proof.
  induction s as [|c s IH]; cbn; [reflexivity|].
  destruct (JsStr.lastIndexOf sep s); [discriminate|].
  destruct (Ascii.eqb c sep); [discriminate|]. intros _. now apply IH.
Qed.

(** The last separator cuts a string into what [substring(0, idx)] keeps
    and a tail without separator. *)
Lemma lastIndexOf_Some (sep : ascii) (s : string) (i : nat) :
  JsStr.lastIndexOf sep s = Some i ->
  exists t, s = JsStr.substring0 i s ++ String sep t /\ JsStr.count sep t = O.
Proof.
  revert i. induction s as [|c s IH]; intros i E; cbn in E; [discriminate|].
  destruct (JsStr.lastIndexOf sep s) as [j|] eqn:L.
  - inversion E; subst i. destruct (IH j eq_refl) as (t & Es & Z).
    exists t. split; [|exact Z]. rewrite substring0_cons.
    change (String c s = String c (JsStr.substring0 j s ++ String sep t)).
    now rewrite <- Es.
  - destruct (Ascii.eqb c sep) eqn:Q; [|discriminate].
    inversion E; subst i. apply Ascii.eqb_eq in Q. subst c.
    exists s. split; [|now apply lastIndexOf_None].
    unfold JsStr.substring0. now destruct s.
Qed.

Lemma parentPath_shorter (p : string) :
  truthy p = true -> (String.length (parentPath p) < String.length p)%nat.
Proof.
  unfold parentPath, truthy. intros T.
  destruct (JsStr.lastIndexOf "/" p) as [i|] eqn:L.
  - destruct (lastIndexOf_Some _ _ _ L) as (t & E & _).
    rewrite E at 2. rewrite PathRewriteFacts.length_append. cbn. lia.
  - destruct p; [discriminate|cbn; lia].
Qed.

(** A folder lies under [y] exactly when its parent is [y] or lies under
    [y]. *)
Lemma under_parentPath (y cur : string) :
  truthy y = true ->
  PathRewrite.under y cur = PathRewrite.selfOrUnder y (parentPath cur).
Proof.
  intros T. unfold PathRewrite.under, PathRewrite.selfOrUnder, startsWith, parentPath.
  destruct (JsStr.lastIndexOf "/" cur) as [i|] eqn:L.
  - destruct (lastIndexOf_Some _ _ _ L) as (t & E & Z).
    set (P := JsStr.substring0 i cur) in *.
    pose proof (prefix_sep_last "/" t Z P y) as K. rewrite <- E in K.
    destruct (String.prefix (y ++ "/") cur) eqn:U.
    + symmetry. apply orb_true_iff. destruct (proj1 K eq_refl) as [Q|K'].
      * left. rewrite Q. apply String.eqb_refl.
      * right. exact K'.
    + symmetry.
      destruct (String.eqb P y || String.prefix (y ++ "/") P) eqn:O; [|reflexivity].
      exfalso. apply orb_true_iff in O.
      assert (F : false = true); [|discriminate].
      apply K. destruct O as [O|O]; [left|right; exact O].
      apply String.eqb_eq in O. now symmetry.
  - rewrite (prefix_sep_none "/" y cur (lastIndexOf_None _ _ L)).
    destruct y; [discriminate|]. reflexivity.
Qed.

(** *** The expansion set of a reload *)

Lemma selfOrUnder_empty (y : string) :
  truthy y = true -> PathRewrite.selfOrUnder y "" = false.
Proof.
  unfold truthy, PathRewrite.selfOrUnder, startsWith.
  destruct y; [discriminate|reflexivity].
Qed.

Lemma In_addAncestors_loop (fuel : nat) :
  forall cur s y,
    (String.length cur < fuel)%nat ->
    (In y (addAncestors_loop fuel cur s) <->
     In y s \/ (truthy y = true /\ PathRewrite.selfOrUnder y cur = true)).
Proof.
  induction fuel as [|fuel IH]; intros cur s y L; [lia|].
  cbn [addAncestors_loop]. destruct (truthy cur) eqn:T.
  - rewrite IH by (pose proof (parentPath_shorter cur T); lia).
    rewrite JsSetFacts.In_add. split.
    + intros [[I|E]|[Ty U]]; auto.
      * subst y. right. split; [exact T|].
        unfold PathRewrite.selfOrUnder. now rewrite String.eqb_refl.
      * right. split; [exact Ty|].
        rewrite <- (under_parentPath y cur Ty) in U.
        unfold PathRewrite.selfOrUnder. unfold PathRewrite.under in U.
        rewrite U. apply orb_true_r.
    + intros [I|[Ty U]]; auto.
      unfold PathRewrite.selfOrUnder in U. apply orb_true_iff in U.
      destruct U as [U|U].
      * apply String.eqb_eq in U. auto.
      * right. split; [exact Ty|]. rewrite <- (under_parentPath y cur Ty). exact U.
  - split; auto. intros [I|[Ty U]]; auto.
    unfold truthy in T. apply negb_false_iff, String.eqb_eq in T. subst cur.
    rewrite (selfOrUnder_empty y Ty) in U. discriminate.
Qed.

Lemma NoDup_addAncestors_loop (fuel : nat) :
  forall cur s, NoDup s -> NoDup (addAncestors_loop fuel cur s).
Proof.
  induction fuel as [|fuel IH]; intros cur s N; cbn; [exact N|].
  destruct (truthy cur); [|exact N]. apply IH. now apply JsSetFacts.NoDup_add.
Qed.

Lemma In_addAncestors (p : string) (s : JsSet.t) (y : string) :
  In y (addAncestors p s) <->
  In y s \/ (truthy y = true /\ PathRewrite.selfOrUnder y p = true).
Proof. unfold addAncestors. apply In_addAncestors_loop. lia. Qed.

Lemma In_fold_addAncestors (l : list string) :
  forall s y,
    In y (fold_left (fun acc p => addAncestors p acc) l s) <->
    In y s \/ (truthy y = true /\
               exists p, In p l /\ PathRewrite.selfOrUnder y p = true).
Proof.
  induction l as [|p l IH]; intros s y; cbn [fold_left].
  - split; auto. intros [I|(_ & q & [] & _)]; auto.
  - rewrite IH, In_addAncestors. split.
    + intros [[I|[T U]]|(T & q & I & U)].
      * now left.
      * right. split; [exact T|]. exists p. split; [now left|exact U].
      * right. split; [exact T|]. exists q. split; [now right|exact U].
    + intros [I|(T & q & [E|I] & U)].
      * left. now left.
      * subst q. left. right. now split.
      * right. split; [exact T|]. now exists q.
Qed.

Lemma NoDup_fold_addAncestors (l : list string) :
  forall s, NoDup s -> NoDup (fold_left (fun acc p => addAncestors p acc) l s).
Proof.
  induction l as [|p l IH]; intros s N; cbn [fold_left]; [exact N|].
  apply IH. now apply NoDup_addAncestors_loop.
Qed.

Lemma selfOrUnder_truthy (y p : string) :
  truthy y = true -> PathRewrite.selfOrUnder y p = true -> truthy p = true.
Proof.
  intros T U. destruct p; [|reflexivity].
  rewrite (selfOrUnder_empty y T) in U. discriminate.
Qed.

Lemma prefix_trans (a b c : string) :
  String.prefix a b = true -> String.prefix b c = true -> String.prefix a c = true.
Proof.
  revert b c. induction a as [|x a IH]; intros b c A B; [now destruct c|].
  destruct b as [|y b]; cbn in A; [discriminate|].
  destruct (Ascii.ascii_dec x y) as [->|]; [|discriminate].
  destruct c as [|z c]; cbn in B; [discriminate|].
  destruct (Ascii.ascii_dec y z) as [->|]; [|discriminate].
  cbn. destruct (Ascii.ascii_dec z z); [|congruence]. now apply (IH b).
Qed.

Lemma under_selfOrUnder_trans (q y p : string) :
  PathRewrite.under q y = true -> PathRewrite.selfOrUnder y p = true ->
  PathRewrite.under q p = true.
Proof.
  unfold PathRewrite.under, PathRewrite.selfOrUnder, startsWith. intros A B.
  apply orb_true_iff in B. destruct B as [B|B].
  - apply String.eqb_eq in B. now subst.
  - apply (prefix_trans _ y); [exact A|].
    now apply (PathRewriteFacts.prefix_app_l y "/").
Qed.

Lemma reload_expandedSet_In
    (expandedPaths : list string) (selectedPath : option string) (y : string) :
  In y (reload_expandedSet expandedPaths selectedPath) <->
  truthy y = true /\
  exists p, (In p expandedPaths \/ selectedPath = Some p) /\
            PathRewrite.selfOrUnder y p = true.
Proof.
  unfold reload_expandedSet.
  assert (Base : In y (fold_left (fun acc p => addAncestors p acc)
                         (filter truthy expandedPaths) []) <->
                 truthy y = true /\
                 exists p, In p expandedPaths /\ PathRewrite.selfOrUnder y p = true).
  { rewrite In_fold_addAncestors. split.
    - intros [[]|(T & p & I & U)]. apply filter_In in I. destruct I as [I _]. eauto.
    - intros (T & p & I & U). right. split; [exact T|]. exists p. split; [|exact U].
      apply filter_In. split; [exact I|]. now apply (selfOrUnder_truthy y). }
  destruct selectedPath as [sp|].
  - destruct (truthy sp) eqn:Ts.
    + rewrite In_addAncestors, Base. split.
      * intros [(T & p & I & U)|(T & U)]; eauto 6.
      * intros (T & p & [I|E] & U); [eauto 6|]. inversion E; subst. auto.
    + rewrite Base. split.
      * intros (T & p & I & U); eauto 6.
      * intros (T & p & [I|E] & U); [eauto|]. inversion E; subst.
        rewrite (selfOrUnder_truthy y p T U) in Ts. discriminate.
  - rewrite Base. split.
    + intros (T & p & I & U); eauto 6.
    + intros (T & p & [I|E] & U); [eauto|discriminate].
Qed.

Lemma reload_expandedSet_NoDup
    (expandedPaths : list string) (selectedPath : option string) :
  NoDup (reload_expandedSet expandedPaths selectedPath).
Proof.
  unfold reload_expandedSet.
  assert (N : NoDup (fold_left (fun acc p => addAncestors p acc)
                       (filter truthy expandedPaths) []))
    by (apply NoDup_fold_addAncestors; constructor).
  destruct selectedPath as [sp|]; [|exact N].
  destruct (truthy sp); [|exact N]. now apply NoDup_addAncestors_loop.
Qed.

Lemma under_own_parent (y : string) :
  truthy (parentPath y) = true -> PathRewrite.under (parentPath y) y = true.
Proof.
  intros Tq. rewrite (under_parentPath _ y Tq). unfold PathRewrite.selfOrUnder.
  now rewrite String.eqb_refl.
Qed.

Lemma reload_expandedSet_parent
    (expandedPaths : list string) (selectedPath : option string) (y : string) :
  In y (reload_expandedSet expandedPaths selectedPath) ->
  truthy (parentPath y) = true ->
  In (parentPath y) (reload_expandedSet expandedPaths selectedPath).
Proof.
  intros I Tq. apply reload_expandedSet_In in I. destruct I as (T & p & I & U).
  apply reload_expandedSet_In. split; [exact Tq|]. exists p. split; [exact I|].
  pose proof (under_selfOrUnder_trans _ _ _ (under_own_parent y Tq) U) as V.
  unfold PathRewrite.selfOrUnder. unfold PathRewrite.under in V.
  rewrite V. apply orb_true_r.
Qed.

(** X11.  The expansion set that a reload of the tree restores.  It holds
    exactly the non-empty paths that are one of the paths to keep expanded
    or the path to select, or that one of these lies under: every ancestor
    folder of a folder to expand is expanded as well.  It holds no path
    twice, and with a folder it holds the parent of that folder, unless
    the folder is at the top. *)
Theorem reload_expands_all_ancestors
    (expandedPaths : list string) (selectedPath : option string) :
  let expandedSet := reload_expandedSet expandedPaths selectedPath in
  (forall y,
     In y expandedSet <->
     truthy y = true /\
     exists p, (In p expandedPaths \/ selectedPath = Some p) /\
               PathRewrite.selfOrUnder y p = true) /\
  NoDup expandedSet /\
  (forall y, In y expandedSet -> truthy (parentPath y) = true ->
     In (parentPath y) expandedSet).
Proof.
  cbv zeta. split; [intros y; apply reload_expandedSet_In|].
  split; [apply reload_expandedSet_NoDup|].
  intros y. apply reload_expandedSet_parent.
Qed.

(** *** The requests of a reload and the cache it fills *)

Lemma StronglySorted_nth {A : Type} (R : A -> A -> Prop) (l : list A) :
  StronglySorted R l ->
  forall i j x y,
    (i < j)%nat -> nth_error l i = Some x -> nth_error l j = Some y -> R x y.
Proof.
  induction 1 as [|a l S IH F]; intros i j x y L X Y.
  - destruct i; discriminate.
  - destruct j as [|j]; [lia|]. cbn in Y. destruct i as [|i]; cbn in X.
    + inversion X; subst. rewrite Forall_forall in F. apply F.
      eapply nth_error_In, Y.
    + apply (IH i j); [lia|assumption|assumption].
Qed.

Lemma getLevel_cmp_consistent : Consistent getLevel_cmp.
Proof. exact (Consistent_sub (fun a => Z.of_nat (getLevel a))). Qed.

Section ReloadFacts.
Variable loadTreeChildren : string -> Settled (list Item).

Lemma get_set (o : JsObj.t (list Item)) (k q : string) (v : list Item) :
  JsObj.get (JsObj.set o k v) q = if String.eqb k q then Some v else JsObj.get o q.
Proof.
  induction o as [|[k' v'] o IH]; cbn.
  - reflexivity.
  - destruct (String.eqb k' k) eqn:E; cbn.
    + apply String.eqb_eq in E. subst k'. destruct (String.eqb k q); reflexivity.
    + destruct (String.eqb k' q) eqn:Q; [|exact IH].
      apply String.eqb_eq in Q. subst k'.
      rewrite String.eqb_sym in E. now rewrite E.
Qed.

Lemma get_reload_fold (paths : list string) :
  forall treeData q,
    JsObj.get
      (fold_left
         (fun td p =>
            match loadTreeChildren p with
            | Fulfilled items => JsObj.set td p items
            | Rejected => td
            end)
         paths treeData) q
    = if existsb (String.eqb q) paths
      then match loadTreeChildren q with
           | Fulfilled items => Some items
           | Rejected => JsObj.get treeData q
           end
      else JsObj.get treeData q.
Proof.
  induction paths as [|p paths IH]; intros td q; cbn [fold_left existsb]; [reflexivity|].
  rewrite IH. destruct (String.eqb q p) eqn:E; cbn [orb].
  - apply String.eqb_eq in E. subst p.
    destruct (loadTreeChildren q) eqn:Lq.
    + rewrite get_set, String.eqb_refl. now destruct (existsb (String.eqb q) paths).
    + now destruct (existsb (String.eqb q) paths).
  - assert (G : JsObj.get
                  match loadTreeChildren p with
                  | Fulfilled items => JsObj.set td p items
                  | Rejected => td
                  end q = JsObj.get td q).
    { destruct (loadTreeChildren p); [|reflexivity].
      rewrite get_set. rewrite String.eqb_sym in E. now rewrite E. }
    now rewrite G.
Qed.

(** X12.  The requests of a reload.  The listings asked for are those of
    the folders of the restored expansion set, each once; a folder is
    asked for after every folder it lies under, so that parents come
    before children whatever the order of the paths handed in; and with a
    folder its parent is asked for too. *)
Theorem reload_requests_parents_first
    (rootItems : list Item) (expandedPaths : list string) (selectedPath : option string) :
  let r := reloadTreePreservingState_loaded loadTreeChildren rootItems
             expandedPaths selectedPath in
  Permutation (r_requests r) (r_expandedFolders r) /\
  NoDup (r_requests r) /\
  (forall i j a b,
     nth_error (r_requests r) i = Some a ->
     nth_error (r_requests r) j = Some b ->
     PathRewrite.under a b = true -> (i < j)%nat) /\
  (forall b, In b (r_requests r) -> truthy (parentPath b) = true ->
     In (parentPath b) (r_requests r)).
Proof.
  cbv zeta. cbn [r_requests r_expandedFolders reloadTreePreservingState_loaded].
  set (es := reload_expandedSet expandedPaths selectedPath).
  assert (P : Permutation (pathsToLoad es) es) by apply Array_sort_perm.
  split; [exact P|]. split.
  { apply (Permutation_NoDup (Permutation_sym P)). apply reload_expandedSet_NoDup. }
  split.
  - intros i j a b A B U.
    pose proof (Array_sort_strongly_sorted getLevel_cmp es getLevel_cmp_consistent) as S.
    pose proof (under_level a b U) as Lv.
    destruct (Nat.lt_trichotomy i j) as [Lt|[Eq|Gt]]; [exact Lt| |].
    + subst j. unfold pathsToLoad in *. rewrite A in B. inversion B; subst.
      rewrite TreeFacts.under_irrefl in U. discriminate.
    + pose proof (StronglySorted_nth _ _ S j i b a Gt B A) as Le.
      unfold cmp_le, getLevel_cmp in Le. lia.
  - intros b I T. apply (Permutation_in _ (Permutation_sym P)).
    apply reload_expandedSet_parent; [|exact T].
    apply (Permutation_in _ P). exact I.
Qed.

(** X13.  The cache after a reload.  The root listing is the one the
    service sent.  A folder of the restored expansion set has the listing
    the service sent for it, and no entry when its request failed: the
    failure is passed over in silence and the folder stays in the
    expansion set.  No other folder has an entry. *)
Theorem reload_cache
    (rootItems : list Item) (expandedPaths : list string) (selectedPath : option string)
    (q : string) :
  let r := reloadTreePreservingState_loaded loadTreeChildren rootItems
             expandedPaths selectedPath in
  JsObj.get (r_treeData r) q
  = if String.eqb q "" then Some rootItems
    else if JsSet.has (r_expandedFolders r) q
    then match loadTreeChildren q with
         | Fulfilled items => Some items
         | Rejected => None
         end
    else None.
Proof.
  cbv zeta. cbn [r_treeData r_expandedFolders reloadTreePreservingState_loaded].
  set (es := reload_expandedSet expandedPaths selectedPath).
  unfold reload_treeData. rewrite get_reload_fold.
  assert (Ex : existsb (String.eqb q) (pathsToLoad es) = JsSet.has es q).
  { unfold JsSet.has.
    destruct (existsb (String.eqb q) es) eqn:H1.
    - apply existsb_exists in H1. destruct H1 as (x & I & E).
      apply existsb_exists. exists x. split; [|exact E].
      now apply Array_sort_In.
    - destruct (existsb (String.eqb q) (pathsToLoad es)) eqn:H2; [|reflexivity].
      apply existsb_exists in H2. destruct H2 as (x & I & E).
      apply Array_sort_In in I.
      assert (existsb (String.eqb q) es = true)
        by (apply existsb_exists; eauto).
      congruence. }
  rewrite Ex. cbn [JsObj.get].
  destruct (String.eqb q "") eqn:Q.
  - apply String.eqb_eq in Q. subst q.
    destruct (JsSet.has es "") eqn:H; [|reflexivity].
    apply JsSetFacts.has_In, reload_expandedSet_In in H. destruct H as [T _].
    discriminate.
  - rewrite String.eqb_sym in Q. rewrite Q.
    destruct (JsSet.has es q); [|reflexivity].
    now destruct (loadTreeChildren q).
Qed.

End ReloadFacts.

(** *** The selection after a rebuild *)







End TreeOpsFacts.

(* ================================================================== *)
(** ** Roots of a selection, merged stats, deletes and drops *)

Module TreeMoreFacts.
Import JsString Tree TreeOps.

Lemma under_shorter (a b : string) :
  PathRewrite.under a b = true -> (String.length a < String.length b)%nat.
Proof.
  unfold PathRewrite.under, startsWith. intros U.
  apply PathRewriteFacts.prefix_split in U. rewrite U.
  rewrite !PathRewriteFacts.length_append. cbn. lia.
Qed.

Lemma selfOrUnder_refl (p : string) : PathRewrite.selfOrUnder p p = true.
Proof. unfold PathRewrite.selfOrUnder. now rewrite String.eqb_refl. Qed.

Lemma under_trans (a b c : string) :
  PathRewrite.under a b = true -> PathRewrite.under b c = true ->
  PathRewrite.under a c = true.
Proof.
  intros A B. apply (TreeOpsFacts.under_selfOrUnder_trans a b c A).
  unfold PathRewrite.selfOrUnder. unfold PathRewrite.under in B. rewrite B.
  apply orb_true_r.
Qed.

Lemma uniqueRoots_cover_aux (sel : list string) (k : nat) :
  forall p, (String.length p < k)%nat -> In p sel ->
    exists r, In r (uniqueRoots sel) /\ PathRewrite.selfOrUnder r p = true.
Proof.
  induction k as [|k IH]; intros p L I; [lia|].
  destruct (existsb (fun other => PathRewrite.under other p) sel) eqn:X.
  - apply existsb_exists in X. destruct X as (other & Io & U).
    destruct (IH other) as (r & Ir & Ur); [pose proof (under_shorter _ _ U); lia|exact Io|].
    exists r. split; [exact Ir|].
    unfold PathRewrite.selfOrUnder in *. apply orb_true_iff in Ur.
    destruct Ur as [E|Ur].
    + apply String.eqb_eq in E. subst other. unfold PathRewrite.under in U.
      rewrite U. apply orb_true_r.
    + pose proof (under_trans r other p Ur U) as V. unfold PathRewrite.under in V.
      rewrite V. apply orb_true_r.
  - exists p. split; [|apply selfOrUnder_refl].
    apply TreeFacts.uniqueRoots_In. split; [exact I|].
    intros other Io. destruct (PathRewrite.under other p) eqn:U; [|reflexivity].
    assert (existsb (fun other => PathRewrite.under other p) sel = true)
      by (apply existsb_exists; eauto).
    congruence.
Qed.

(** X15.  The roots of a selection, for which the stats are asked and the
    deletes are sent.  Every selected folder is a root or lies under one,
    so that what is done to the roots reaches the whole selection; no root
    lies under another; and taking the roots of the roots changes
    nothing. *)
Theorem uniqueRoots_cover (sel : list string) :
  (forall p, In p sel ->
     exists r, In r (uniqueRoots sel) /\ PathRewrite.selfOrUnder r p = true) /\
  (forall a b, In a (uniqueRoots sel) -> In b (uniqueRoots sel) ->
     PathRewrite.under a b = false) /\
  uniqueRoots (uniqueRoots sel) = uniqueRoots sel.
Proof.
  split; [|split].
  - intros p I. apply (uniqueRoots_cover_aux sel (S (String.length p))); [lia|exact I].
  - intros a b Ia Ib. apply TreeFacts.uniqueRoots_In in Ia, Ib.
    destruct Ia as [Ia _], Ib as [_ Ib]. now apply Ib.
  - set (roots := uniqueRoots sel).
    assert (G : forall l, (forall x, In x l -> In x roots) ->
                          filter
                            (fun p =>
                               negb (existsb
                                       (fun other => negb (String.eqb other p)
                                                     && startsWith p (other ++ "/"))
                                       roots)) l = l).
    { induction l as [|x l IH]; intros Sub; cbn; [reflexivity|].
      assert (E : existsb (fun other => negb (String.eqb other x)
                                        && startsWith x (other ++ "/")) roots = false).
      { destruct (existsb _ roots) eqn:X; [|reflexivity].
        apply existsb_exists in X. destruct X as (o & Io & C).
        apply andb_true_iff in C. destruct C as [_ C].
        assert (Ix : In x roots) by (apply Sub; now left).
        apply TreeFacts.uniqueRoots_In in Ix. destruct Ix as [_ Ix].
        apply TreeFacts.uniqueRoots_In in Io. destruct Io as [Io _].
        specialize (Ix o Io). unfold PathRewrite.under in Ix. congruence. }
      rewrite E. cbn. f_equal. apply IH. intros y Iy. apply Sub. now right. }
    unfold uniqueRoots at 1. fold roots. apply G. auto.
Qed.

(** *** Merged stats *)

Lemma mergeStats_fold (results : list (option Stats)) :
  forall acc,
    fold_left
      (fun acc r =>
         match r with
         | Some s =>
             if String.eqb (status s) "success"
             then mkStats (status acc)
                          (folderCount acc + folderCount s)
                          (fileCount acc + fileCount s)
                          (totalSizeBytes acc + totalSizeBytes s)
             else acc
         | None => acc
         end)
      results acc
    = mkStats (status acc)
              (folderCount acc + total folderCount (successes results))
              (fileCount acc + total fileCount (successes results))
              (totalSizeBytes acc + total totalSizeBytes (successes results)).
Proof.
  induction results as [|r results IH]; intros acc; cbn [fold_left successes flat_map].
  - unfold total. cbn. destruct acc; cbn. now rewrite !Z.add_0_r.
  - rewrite IH. destruct r as [s|]; [|reflexivity].
    destruct (String.eqb (status s) "success"); [|reflexivity].
    unfold total. cbn. now rewrite !Z.add_assoc.
Qed.

Lemma total_perm (f : Stats -> Z) (l l' : list Stats) :
  Permutation l l' -> total f l = total f l'.
Proof. unfold total. induction 1; cbn; lia. Qed.

Lemma successes_perm (l l' : list (option Stats)) :
  Permutation l l' -> Permutation (successes l) (successes l').
Proof.
  induction 1; cbn.
  - constructor.
  - now apply Permutation_app_head.
  - rewrite !app_assoc. apply Permutation_app_tail, Permutation_app_comm.
  - eapply Permutation_trans; eassumption.
Qed.

(** X16.  The footer for a selection, when the replies of the latest
    request arrive.  It shows the sums of the folder counts, file counts
    and sizes of the replies whose status is [success], whatever the order
    of the replies; the count it shows as the selection is the number of
    roots, not of selected folders; and replies that all failed give
    zeros, not dashes. *)
Theorem selection_footer_sums
    (requestId : Z) (roots : list string) (results : list (option Stats)) (n : Nav) :
  same_id (statsRequestId n) requestId = true ->
  footer (statsOfSelection_settled requestId roots (Fulfilled results) n)
  = FooterCounts
      (match List.length roots with
       | O => None
       | S k => Some (S k)
       end)
      (total folderCount (successes results))
      (total fileCount (successes results))
      (total totalSizeBytes (successes results)) /\
  (forall results',
     Permutation results results' ->
     statsOfSelection_settled requestId roots (Fulfilled results') n
     = statsOfSelection_settled requestId roots (Fulfilled results) n) /\
  (successes results = [] ->
   footer (statsOfSelection_settled requestId roots (Fulfilled results) n)
   = FooterCounts (match List.length roots with
                   | O => None
                   | S k => Some (S k)
                   end) 0 0 0).
Proof.
  intros Id.
  assert (M : forall rs, mergeStats rs
                         = mkStats "success" (total folderCount (successes rs))
                                   (total fileCount (successes rs))
                                   (total totalSizeBytes (successes rs))).
  { intros rs. unfold mergeStats. rewrite mergeStats_fold. reflexivity. }
  assert (F : footer (statsOfSelection_settled requestId roots (Fulfilled results) n)
              = FooterCounts
                  (match List.length roots with
                   | O => None
                   | S k => Some (S k)
                   end)
                  (total folderCount (successes results))
                  (total fileCount (successes results))
                  (total totalSizeBytes (successes results))).
  { unfold statsOfSelection_settled. rewrite Id. cbn [negb]. rewrite M.
    unfold updateFolderStatsFooter. cbn. now destruct (List.length roots). }
  split; [exact F|]. split.
  - intros results' P. unfold statsOfSelection_settled. rewrite Id. cbn [negb].
    rewrite !M.
    pose proof (successes_perm _ _ P) as Ps.
    now rewrite (total_perm folderCount _ _ Ps), (total_perm fileCount _ _ Ps),
      (total_perm totalSizeBytes _ _ Ps).
  - intros E. rewrite F, E. reflexivity.
Qed.

(** The theorem applies to the replies for two roots of which one
    failed. *)
Lemma selection_footer_sums_witness :
  let n := mkNav ["A"; "A/x"; "B"] (Some "A") (Some 4%Z) None [] "A" None
                 FooterDashes [] [] in
  footer (statsOfSelection_settled 4 ["A"; "B"]
            (Fulfilled [Some (mkStats "success" 2 10 100); Some (mkStats "error" 9 9 9)]) n)
  = FooterCounts (Some 2%nat) 2 10 100.
Proof.
  cbv zeta.
  exact (proj1 (selection_footer_sums 4 ["A"; "B"]
                  [Some (mkStats "success" 2 10 100); Some (mkStats "error" 9 9 9)]
                  (mkNav ["A"; "A/x"; "B"] (Some "A") (Some 4%Z) None [] "A" None
                         FooterDashes [] [])
                  eq_refl)).
Defined.

(** *** Dropping a folder on a folder *)

Lemma prefix_longer (a b : string) :
  (String.length b < String.length a)%nat -> String.prefix a b = false.
Proof.
  revert b. induction a as [|x a IH]; intros b L; [cbn in L; lia|].
  destruct b as [|y b]; cbn; [reflexivity|].
  destruct (Ascii.ascii_dec x y); [|reflexivity]. apply IH. cbn in L. lia.
Qed.

(** X17.  What [handleDrop] lets through.  A folder dropped on itself, on
    its parent or on any folder it lies under is ignored: a folder cannot
    be moved up to one of its ancestors by a drop.  A folder dropped on a
    folder that lies under it is not held back: the move into its own
    subtree is sent to the remote service.  So is every other drop of a
    folder. *)
Theorem handleDrop_folder_guard (item : Item) (p : Payload) (isCopy : bool) :
  payload_type p = "folder" ->
  truthy (payload_path p) = true ->
  (PathRewrite.selfOrUnder (path item) (payload_path p) = true ->
     handleDrop_request item (Some p) isCopy = DropIgnored) /\
  (PathRewrite.selfOrUnder (path item) (payload_path p) = false ->
     handleDrop_request item (Some p) isCopy
     = MoveFolder (payload_path p) (path item) false isCopy) /\
  (PathRewrite.under (payload_path p) (path item) = true ->
     handleDrop_request item (Some p) isCopy
     = MoveFolder (payload_path p) (path item) false isCopy).
Proof.
  intros Ty Tp.
  assert (R : handleDrop_request item (Some p) isCopy
              = if PathRewrite.selfOrUnder (path item) (payload_path p)
                then DropIgnored
                else MoveFolder (payload_path p) (path item) false isCopy).
  { unfold handleDrop_request. rewrite Ty, Tp. cbn. reflexivity. }
  split; [|split].
  - intros G. now rewrite R, G.
  - intros G. now rewrite R, G.
  - intros U. rewrite R.
    assert (G : PathRewrite.selfOrUnder (path item) (payload_path p) = false).
    { unfold PathRewrite.selfOrUnder. apply orb_false_iff. split.
      - apply String.eqb_neq. intros E. rewrite E in U.
        rewrite TreeFacts.under_irrefl in U. discriminate.
      - unfold startsWith. apply prefix_longer.
        pose proof (under_shorter _ _ U). rewrite PathRewriteFacts.length_append. lia. }
    now rewrite G.
Qed.

(** The theorem applies to the drop of [music/rock/live] on [music], and to
    the drop of [music] on [music/rock]. *)
Lemma handleDrop_folder_guard_witness :
  handleDrop_request (mkItem "music" "music" "folder" None None None)
    (Some (mkPayload "folder" "music/rock/live" "live")) false = DropIgnored /\
  handleDrop_request (mkItem "music/rock" "rock" "folder" None None None)
    (Some (mkPayload "folder" "music" "music")) false
  = MoveFolder "music" "music/rock" false false.
Proof.
  split.
  - exact (proj1 (handleDrop_folder_guard
                    (mkItem "music" "music" "folder" None None None)
                    (mkPayload "folder" "music/rock/live" "live") false
                    eq_refl eq_refl) eq_refl).
  - exact (proj2 (proj2 (handleDrop_folder_guard
                    (mkItem "music/rock" "rock" "folder" None None None)
                    (mkPayload "folder" "music" "music") false
                    eq_refl eq_refl)) eq_refl).
Defined.

(** *** The state after a delete of folders *)

Lemma selfOrUnder_trans (a b c : string) :
  PathRewrite.selfOrUnder a b = true -> PathRewrite.selfOrUnder b c = true ->
  PathRewrite.selfOrUnder a c = true.
Proof.
  intros A B. unfold PathRewrite.selfOrUnder in A. apply orb_true_iff in A.
  destruct A as [A|A].
  - apply String.eqb_eq in A. now subst.
  - pose proof (TreeOpsFacts.under_selfOrUnder_trans a b c A B) as U.
    unfold PathRewrite.selfOrUnder. unfold PathRewrite.under in U.
    rewrite U. apply orb_true_r.
Qed.

Section DeleteState.
Context {Remote : Type}.
Variable deleteFolder : string -> bool -> Remote -> Remote * option (option string).

Lemma completes_delete_state (items : list string) :
  forall i w w',
    Utilities.completes (deleteFolder_onItem deleteFolder) i items w w' ->
    selectedFolderPaths (fst w') = selectedFolderPaths (fst w) /\
    selectedTreeItem (fst w') = selectedTreeItem (fst w) /\
    expandedFolders (fst w') = expandedFolders (fst w) /\
    currentPath (fst w')
      = (if truthy (currentPath (fst w)) && gone items (currentPath (fst w))
         then "" else currentPath (fst w)) /\
    currentFile (fst w')
      = match currentFile (fst w) with
        | Some f => if truthy f && gone items f then None else Some f
        | None => None
        end.
Proof.
  induction items as [|x items IH]; intros i w w' C; inversion C; subst.
  - unfold gone. cbn. rewrite andb_false_r. repeat split.
    destruct (currentFile (fst w')) as [f|]; [now rewrite andb_false_r|reflexivity].
  - match goal with
    | H : Utilities.completes _ _ items _ _ |- _ =>
        destruct (IH _ _ _ H) as (A1 & A2 & A3 & A4 & A5)
    end.
    match goal with
    | H : deleteFolder_onItem _ _ _ _ = _ |- _ => rename H into Step
    end.
    destruct w as [n r]. unfold deleteFolder_onItem in Step.
    destruct (deleteFolder x false r) as [r1 [err|]]; [discriminate|].
    inversion Step; subst w1; clear Step. cbn [fst] in *.
    rewrite A1, A2, A3, A4, A5. clear A1 A2 A3 A4 A5.
    unfold gone. cbn [existsb].
    destruct (truthy (currentPath n)) eqn:Tp,
             (PathRewrite.selfOrUnder x (currentPath n)) eqn:Up; cbn [andb orb];
      (destruct (currentFile n) as [f|] eqn:Cf;
       [ destruct (truthy f) eqn:Tf, (PathRewrite.selfOrUnder x f) eqn:Uf;
         repeat progress (cbn; rewrite ?Cf, ?Tp, ?Tf, ?Uf, ?Up);
         repeat split; reflexivity
       | repeat progress (cbn; rewrite ?Cf, ?Tp, ?Up);
         repeat split; reflexivity ]).
Qed.

(** X18.  The state after a delete of folders in which no request was
    rejected.  The selection is empty.  The current folder is reset to
    the root exactly when it was one of the deleted roots or lay under
    one, and the current file is forgotten exactly when it lay under one.
    The reload that follows restores the expanded folders that are not
    gone: none of them is a selected folder or lies under one; and it
    keeps the current tree item unless that one is gone. *)
Theorem deleteSelectedFolders_success (n : Nav) (r : Remote) :
  (forall p rem, snd (deleteFolder p false rem) = None) ->
  deleteSelectedFolders_selectedPaths n <> [] ->
  let sel := deleteSelectedFolders_selectedPaths n in
  let roots := uniqueRoots sel in
  exists n' r' log expandedPaths,
    deleteSelectedFolders_confirmed deleteFolder n r
    = ((n', r'), log,
       Some (DeleteReload expandedPaths
               (match selectedTreeItem n with
                | Some el =>
                    if truthy (selected_path el) && gone roots (selected_path el)
                    then None else Some (selected_path el)
                | None => None
                end))) /\
    expandedPaths = filter (fun p => negb (gone roots p)) (expandedFolders n) /\
    (forall p s, In p expandedPaths -> In s sel -> PathRewrite.selfOrUnder s p = false) /\
    selectedFolderPaths n' = [] /\
    currentPath n'
      = (if truthy (currentPath n) && gone roots (currentPath n)
         then "" else currentPath n) /\
    currentFile n'
      = match currentFile n with
        | Some f => if truthy f && gone roots f then None else Some f
        | None => None
        end.
Proof.
  intros T Ne. cbv zeta.
  set (sel := deleteSelectedFolders_selectedPaths n) in *.
  set (roots := uniqueRoots sel).
  destruct (UtilitiesFacts.completes_total (deleteFolder_onItem deleteFolder)
              (TreeFacts.deleteFolder_onItem_total deleteFolder T) roots 0 (n, r))
    as ([n1 r1] & C).
  destruct (UtilitiesFacts.runBulkOperation_completes (deleteFolder_onItem deleteFolder)
              "Deleting folders" _ _ _ [] C) as (log & Eq & _).
  destruct (completes_delete_state roots 0 (n, r) (n1, r1) C)
    as (A1 & A2 & A3 & A4 & A5). cbn [fst] in *.
  exists (clearFolderSelection n1), r1, log,
    (filter (fun p => negb (gone roots p)) (expandedFolders n)).
  split.
  { unfold deleteSelectedFolders_confirmed. fold sel.
    destruct sel as [|p0 rest] eqn:S; [now elim Ne|].
    fold roots. rewrite Eq. rewrite A2, A3. reflexivity. }
  split; [reflexivity|]. split.
  { intros p s Ip Is. apply filter_In in Ip. destruct Ip as [_ G].
    apply negb_true_iff in G.
    destruct (PathRewrite.selfOrUnder s p) eqn:U; [|reflexivity].
    destruct (uniqueRoots_cover_aux sel (S (String.length s)) s) as (rt & Ir & Ur);
      [lia|exact Is|].
    assert (gone roots p = true).
    { unfold gone. apply existsb_exists. exists rt. split; [exact Ir|].
      now apply (selfOrUnder_trans rt s p). }
    congruence. }
  unfold clearFolderSelection.
  split; [now rewrite TreeFacts.selectedFolderPaths_stats|].
  unfold updateSelectedFolderStats. cbn. now rewrite A4, A5.
Qed.

End DeleteState.

(** The theorem applies to the selection of [Z], [Z/A] and [Z/A/B] with a
    service that deletes what it is asked to. *)
Lemma deleteSelectedFolders_success_witness :
  exists n' r' log,
    deleteSelectedFolders_confirmed deletes_all nested_selection ["Z"; "Z/A"; "Y"]
    = ((n', r'), log, Some (DeleteReload [] None)) /\
    selectedFolderPaths n' = [].
Proof.
  destruct (deleteSelectedFolders_success deletes_all nested_selection
              ["Z"; "Z/A"; "Y"])
    as (n' & r' & log & eps & E & Ee & _ & S & _).
  - intros p rem. reflexivity.
  - discriminate.
  - exists n', r', log. split; [|exact S]. rewrite E, Ee. reflexivity.
Defined.

End TreeMoreFacts.

(* ================================================================== *)
(** ** Loading the file list, loading metadata, and the rows *)

Module FilePaneFacts.
Import JsString FilePane.

(** [renderFileList] on a pane whose files are the array [r]. *)
Lemma renderFileList_pane (fp : T) (r : Heap.ref) :
  currentFiles fp = Some r -> Heap.allocated (heap fp) r ->
  let fp' := renderFileList fp in
  currentPath fp' = currentPath fp /\
  filesFilter fp' = filesFilter fp /\
  filesSort fp' = filesSort fp /\
  currentFiles fp' = Some r /\
  calls fp' = calls fp /\
  Heap.read (heap fp') r = Heap.read (heap fp) r /\
  listed fp'
    = Array_sort (Files.sortFiles_cmp (filesSort fp))
        (filter (Files.matchesFilter (trim (toLowerCase (filesFilter fp))))
                (Heap.read (heap fp) r)) /\
  fileCount fp'
    = (if Nat.eqb (List.length (Heap.read (heap fp) r)) 0 then fileCount fp
       else CountOf (List.length (listed fp'))).
Proof.
  intros Cf Al. cbv zeta. unfold renderFileList. rewrite Cf.
  pose proof (FilesFacts.renderFileList_shown (filesSort fp) (filesFilter fp)
                (heap fp) r) as Sh.
  pose proof (FilesFacts.renderFileList_frame (filesSort fp) (filesFilter fp) (heap fp)
                (Some r) r Al) as Fr.
  destruct (Files.renderFileList (filesSort fp) (filesFilter fp) (heap fp) (Some r))
    as [h2 shown].
  cbn [fst snd] in Sh, Fr.
  cbn [currentPath filesFilter filesSort currentFiles calls heap listed fileCount].
  repeat split; try reflexivity; assumption.
Qed.

(** What a reply to [loadFiles] does. *)
Lemma loadFiles_settled_applies (files : list Item) (fp : T) :
  let fp' := loadFiles_settled (Fulfilled files) fp in
  currentPath fp' = currentPath fp /\
  filesFilter fp' = filesFilter fp /\
  filesSort fp' = filesSort fp /\
  (exists r, currentFiles fp' = Some r /\ Heap.read (heap fp') r = files) /\
  listed fp'
    = Array_sort (Files.sortFiles_cmp (filesSort fp))
        (filter (Files.matchesFilter (trim (toLowerCase (filesFilter fp)))) files) /\
  fileCount fp' = CountOf (List.length (listed fp')).
Proof.
  cbv zeta. unfold loadFiles_settled, Heap.alloc.
  remember (mkFilePane (currentPath fp) (heap fp ++ [files])%list
                       (Some (List.length (heap fp))) (filesFilter fp) (filesSort fp)
                       (CountOf (List.length files)) (listed fp) (calls fp)) as fp1 eqn:E1.
  set (r := List.length (heap fp)).
  assert (R1 : Heap.read (heap fp1) r = files)
    by (subst fp1; unfold Heap.read, r; cbn; now rewrite nth_middle).
  assert (Al : Heap.allocated (heap fp1) r)
    by (subst fp1; unfold Heap.allocated, r; cbn; rewrite length_app; cbn; lia).
  assert (Cf : currentFiles fp1 = Some r) by now subst fp1.
  destruct (renderFileList_pane fp1 r Cf Al)
    as (A1 & A2 & A3 & A4 & A5 & A6 & A7 & A8).
  rewrite R1 in A6, A7, A8.
  assert (B1 : currentPath fp1 = currentPath fp) by now subst fp1.
  assert (B2 : filesFilter fp1 = filesFilter fp) by now subst fp1.
  assert (B3 : filesSort fp1 = filesSort fp) by now subst fp1.
  assert (B4 : fileCount fp1 = CountOf (List.length files)) by now subst fp1.
  rewrite B1 in A1. rewrite B2 in A2, A7. rewrite B3 in A3, A7. rewrite B4 in A8.
  unfold call.
  cbn [currentPath filesFilter filesSort currentFiles calls heap listed fileCount].
  subst fp1. unfold r in *. clear r.
  split; [exact A1|]. split; [exact A2|]. split; [exact A3|].
  split; [exists (List.length (heap fp)); split; [exact A4|exact A6]|].
  split; [exact A7|].
  etransitivity; [exact A8|]. destruct (Nat.eqb (List.length files) 0) eqn:Z; [|reflexivity].
  apply Nat.eqb_eq in Z. apply length_zero_iff_nil in Z. subst files.
  do 2 f_equal. symmetry. etransitivity; [exact A7|reflexivity].
Qed.

(** X19.  A reply to [loadFiles] is stored and drawn whatever folder is
    current when it arrives.  When folder [A] and then folder [B] are asked
    for and the reply for [A] arrives last, the pane ends with [B] as
    the current folder while the cached files, the list and the count in
    the header are those of [A]. *)
Theorem loadFiles_reply_overtaken
    (A B : string) (filesA filesB : list Item) (fp : T) :
  let asked := loadFiles B (loadFiles A fp) in
  let ended :=
    loadFiles_settled (Fulfilled filesA) (loadFiles_settled (Fulfilled filesB) asked) in
  currentPath ended = B /\
  (exists r, currentFiles ended = Some r /\ Heap.read (heap ended) r = filesA) /\
  Permutation (listed ended)
    (filter (Files.matchesFilter (trim (toLowerCase (filesFilter fp)))) filesA) /\
  fileCount ended = CountOf (List.length (listed ended)).
Proof.
  cbv zeta.
  set (asked := loadFiles B (loadFiles A fp)).
  set (mid := loadFiles_settled (Fulfilled filesB) asked).
  destruct (loadFiles_settled_applies filesB asked) as (P1 & F1 & S1 & _).
  destruct (loadFiles_settled_applies filesA mid) as (P2 & F2 & S2 & C2 & L2 & N2).
  fold mid in P1, F1, S1.
  cbv zeta in P2, F2, S2, C2, L2, N2.
  repeat split.
  - rewrite P2, P1. reflexivity.
  - exact C2.
  - rewrite L2, F1. apply Array_sort_perm.
  - exact N2.
Qed.

Section Metadata.
Variable selectFileItemCallback : Files.ListItemEl -> option bool -> Files.Mgr -> Files.Mgr.
Hypothesis callback_keeps_request_id :
  forall li flag m,
    Files.loadFileRequestId (selectFileItemCallback li flag m) = Files.loadFileRequestId m.

Lemma loadFile_settled_id (req : Files.MetadataRequest) (res : Settled Files.Metadata)
    (m : Files.Mgr) :
  Files.loadFileRequestId (Files.loadFile_settled req res m) = Files.loadFileRequestId m.
Proof.
  unfold Files.loadFile_settled. destruct res as [data|].
  - destruct (negb (Z.eqb _ _)); [reflexivity|].
    destruct (Files.md_hasLimitedMetadata data), (Files.md_supportedFields data),
      (Files.md_supportsAlbumArt data), (Files.md_hasArt data && truthy (Files.md_art data)),
      (Files.keyboard_focus (Files.req_listItem req)); reflexivity.
  - destruct (Z.eqb _ _); reflexivity.
Qed.

Lemma loadFile_settled_metadata (req : Files.MetadataRequest) (data : Files.Metadata)
    (m : Files.Mgr) :
  Files.requestId req = Files.loadFileRequestId m ->
  Files.metadata (Files.loadFile_settled req (Fulfilled data) m) = Some data.
Proof.
  intros E. unfold Files.loadFile_settled. rewrite E, Z.eqb_refl. cbn [negb].
  destruct (Files.md_hasLimitedMetadata data), (Files.md_supportedFields data),
    (Files.md_supportsAlbumArt data), (Files.md_hasArt data && truthy (Files.md_art data)),
    (Files.keyboard_focus (Files.req_listItem req)); reflexivity.
Qed.

(** X20.  Of two metadata requests issued one after the other, only the
    reply to the second is applied, in whatever order the replies arrive:
    the reply to the first, success or failure, changes nothing once the
    second is issued, before or after the reply to the second; and the
    reply to the second is stored. *)
Theorem metadata_latest_reply_only
    (f1 f2 : string) (li1 li2 : Files.ListItemEl)
    (res1 : Settled Files.Metadata) (data2 : Files.Metadata) (m : Files.Mgr) :
  let first := Files.loadFile selectFileItemCallback f1 li1 m in
  let second := Files.loadFile selectFileItemCallback f2 li2 (fst first) in
  let applied := Files.loadFile_settled (snd second) (Fulfilled data2) (fst second) in
  Files.loadFile_settled (snd first) res1 (fst second) = fst second /\
  Files.loadFile_settled (snd first) res1 applied = applied /\
  Files.metadata applied = Some data2.
Proof.
  cbv zeta.
  set (first := Files.loadFile selectFileItemCallback f1 li1 m).
  set (second := Files.loadFile selectFileItemCallback f2 li2 (fst first)).
  destruct (loadFile_takes_next_id selectFileItemCallback f1 li1 m
              callback_keeps_request_id) as [R1 I1].
  destruct (loadFile_takes_next_id selectFileItemCallback f2 li2 (fst first)
              callback_keeps_request_id) as [R2 I2].
  fold first in R1, I1. fold second in R2, I2.
  split; [|split].
  - apply loadFile_stale_reply_discarded. rewrite R1, I2, I1. lia.
  - apply loadFile_stale_reply_discarded. rewrite loadFile_settled_id, R1, I2, I1. lia.
  - apply loadFile_settled_metadata. now rewrite R2, I2.
Qed.

End Metadata.

(** The theorem applies to a callback that records the row as the
    selected one. *)
Lemma metadata_latest_reply_only_witness :
  let callback := fun li (flag : option bool) m => Files.set_selectedListItem m (Some li) in
  let li1 := Files.mkLi 1 "a.mp3" false false in
  let li2 := Files.mkLi 2 "b.mp3" false false in
  let first := Files.loadFile callback "a.mp3" li1 (example_mgr None) in
  let second := Files.loadFile callback "b.mp3" li2 (fst first) in
  Files.requestId (snd first) = 1%Z /\ Files.requestId (snd second) = 2%Z /\
  Files.loadFile_settled (snd first) Rejected (fst second) = fst second.
Proof.
  cbv zeta. split; [reflexivity|]. split; [reflexivity|].
  exact (proj1 (metadata_latest_reply_only
                  (fun li (flag : option bool) m => Files.set_selectedListItem m (Some li))
                  (fun _ _ _ => eq_refl)
                  "a.mp3" "b.mp3" (Files.mkLi 1 "a.mp3" false false)
                  (Files.mkLi 2 "b.mp3" false false) Rejected
                  (Files.mkMetadata "" "" "" "" "" "" "" "" "" [] "" false true None false "")
                  (example_mgr None))).
Defined.

(** *** What a reply that is current stores *)

Lemma get_set_value {V : Type} (o : JsObj.t V) (k q : string) (v : V) :
  JsObj.get (JsObj.set o k v) q = if String.eqb k q then Some v else JsObj.get o q.
Proof.
  induction o as [|[k' v'] o IH]; cbn.
  - reflexivity.
  - destruct (String.eqb k' k) eqn:E; cbn.
    + apply String.eqb_eq in E. subst k'. destruct (String.eqb k q); reflexivity.
    + destruct (String.eqb k' q) eqn:Q; [|exact IH].
      apply String.eqb_eq in Q. subst k'.
      rewrite String.eqb_sym in E. now rewrite E.
Qed.

Lemma get_store_other (fields : list (string * option string)) :
  forall o k,
    ~ In k (map fst fields) ->
    JsObj.get (Files.store_all_fields fields o) k = JsObj.get o k.
Proof.
  unfold Files.store_all_fields.
  induction fields as [|[id v] fields IH]; intros o k N; cbn [fold_left]; [reflexivity|].
  rewrite IH by (intros I; apply N; now right).
  cbn [fst snd]. destruct v as [v|]; [|reflexivity].
  destruct (negb (existsb (String.eqb id) Files.standardFields)); [|reflexivity].
  rewrite get_set_value.
  destruct (String.eqb id k) eqn:E; [|reflexivity].
  apply String.eqb_eq in E. subst id. exfalso. apply N. now left.
Qed.

Lemma get_store_standard (fields : list (string * option string)) :
  forall o k,
    existsb (String.eqb k) Files.standardFields = true ->
    JsObj.get (Files.store_all_fields fields o) k = JsObj.get o k.
Proof.
  unfold Files.store_all_fields.
  induction fields as [|[id v] fields IH]; intros o k St; cbn [fold_left]; [reflexivity|].
  rewrite IH by exact St.
  cbn [fst snd]. destruct v as [v|]; [|reflexivity].
  destruct (existsb (String.eqb id) Files.standardFields) eqn:Si; cbn [negb];
    [reflexivity|].
  rewrite get_set_value.
  destruct (String.eqb id k) eqn:E; [|reflexivity].
  apply String.eqb_eq in E. subst id. congruence.
Qed.

Lemma get_store_present (fields : list (string * option string)) :
  forall o k v,
    NoDup (map fst fields) ->
    existsb (String.eqb k) Files.standardFields = false ->
    In (k, Some v) fields ->
    JsObj.get (Files.store_all_fields fields o) k = Some v.
Proof.
  induction fields as [|[id w] fields IH]; intros o k v N St I; [destruct I|].
  inversion N as [|? ? Nid Nf]; subst.
  destruct I as [E|I].
  - inversion E; subst. unfold Files.store_all_fields. cbn [fold_left fst snd].
    rewrite St. cbn [negb].
    change (JsObj.get (Files.store_all_fields fields (JsObj.set o k v)) k = Some v).
    rewrite get_store_other by exact Nid.
    now rewrite get_set_value, String.eqb_refl.
  - unfold Files.store_all_fields. cbn [fold_left].
    apply (IH _ k v Nf St I).
Qed.

(** X21.  What the reply to the current metadata request stores.  The
    nine standard fields of the original metadata are those of the reply
    itself: an entry of [all_fields] under a standard name never replaces
    them.  An entry of [all_fields] under another name whose value is
    present is stored under that name.  And for a format without album
    art, the album art in [State] stays as the request left it, whatever
    art the reply carries, and the upload is disabled. *)
Theorem current_reply_stores_metadata
    (req : Files.MetadataRequest) (data : Files.Metadata) (m : Files.Mgr) :
  Files.requestId req = Files.loadFileRequestId m ->
  NoDup (map fst (Files.md_all_fields data)) ->
  let m' := Files.loadFile_settled req (Fulfilled data) m in
  let original := Files.originalMetadata m' in
  (JsObj.get original "title" = Some (Files.md_title data) /\
   JsObj.get original "artist" = Some (Files.md_artist data) /\
   JsObj.get original "album" = Some (Files.md_album data) /\
   JsObj.get original "albumartist" = Some (Files.md_albumartist data) /\
   JsObj.get original "date" = Some (Files.md_date data) /\
   JsObj.get original "genre" = Some (Files.md_genre data) /\
   JsObj.get original "composer" = Some (Files.md_composer data) /\
   JsObj.get original "track" = Some (Files.md_track data) /\
   JsObj.get original "disc" = Some (Files.md_disc data)) /\
  (forall k v,
     existsb (String.eqb k) Files.standardFields = false ->
     In (k, Some v) (Files.md_all_fields data) ->
     JsObj.get original k = Some v) /\
  (forall k,
     existsb (String.eqb k) Files.standardFields = false ->
     ~ In k (map fst (Files.md_all_fields data)) ->
     JsObj.get original k = None) /\
  (Files.md_supportsAlbumArt data = false ->
     Files.currentAlbumArt m' = Files.currentAlbumArt m /\
     Files.uploadEnabled (Files.panel m') = false /\
     Files.art (Files.panel m') = Files.ArtUnsupported (toUpperCase (Files.md_format data))).
Proof.
  intros Id N. cbv zeta.
  set (base := [("title", Files.md_title data); ("artist", Files.md_artist data);
                ("album", Files.md_album data); ("albumartist", Files.md_albumartist data);
                ("date", Files.md_date data); ("genre", Files.md_genre data);
                ("composer", Files.md_composer data); ("track", Files.md_track data);
                ("disc", Files.md_disc data)]).
  assert (Om : Files.originalMetadata (Files.loadFile_settled req (Fulfilled data) m)
               = Files.store_all_fields (Files.md_all_fields data) base).
  { unfold Files.loadFile_settled. rewrite Id, Z.eqb_refl. cbn [negb].
    destruct (Files.md_hasLimitedMetadata data), (Files.md_supportedFields data),
      (Files.md_supportsAlbumArt data), (Files.md_hasArt data && truthy (Files.md_art data)),
      (Files.keyboard_focus (Files.req_listItem req)); reflexivity. }
  rewrite Om. split; [|split; [|split]].
  - repeat split; rewrite get_store_standard; reflexivity.
  - intros k v St I. now apply get_store_present.
  - intros k St NI. rewrite get_store_other by exact NI.
    unfold Files.standardFields in St. cbn [existsb] in St.
    repeat (apply orb_false_iff in St; destruct St as [? St]).
    unfold base. cbn [JsObj.get].
    repeat match goal with
           | H : String.eqb k ?a = false |- _ =>
               rewrite (String.eqb_sym a k), H; clear H
           end.
    reflexivity.
  - intros Art. unfold Files.loadFile_settled. rewrite Id, Z.eqb_refl, Art. cbn [negb].
    destruct (Files.md_hasLimitedMetadata data), (Files.md_supportedFields data),
      (Files.keyboard_focus (Files.req_listItem req)); cbn; auto.
Qed.

(** The theorem applies to a reply for a WAV file that carries art and an
    entry of [all_fields] under the standard name [title]. *)
Lemma current_reply_stores_metadata_witness :
  let data := Files.mkMetadata "T" "" "" "" "" "" "" "" ""
                [("title", Some "other"); ("mood", Some "calm")]
                "wav" true false None true "AAAA" in
  let req := Files.mkRequest 0 "x.wav" (Files.mkLi 1 "x.wav" false false) in
  let m' := Files.loadFile_settled req (Fulfilled data) (example_mgr None) in
  JsObj.get (Files.originalMetadata m') "title" = Some "T" /\
  JsObj.get (Files.originalMetadata m') "mood" = Some "calm" /\
  Files.currentAlbumArt m' = None.
Proof.
  cbv zeta.
  pose proof (current_reply_stores_metadata
                (Files.mkRequest 0 "x.wav" (Files.mkLi 1 "x.wav" false false))
                (Files.mkMetadata "T" "" "" "" "" "" "" "" ""
                   [("title", Some "other"); ("mood", Some "calm")]
                   "wav" true false None true "AAAA")
                (example_mgr None) eq_refl) as W.
  assert (N : NoDup (map fst [("title", Some "other"); ("mood", Some "calm")])).
  { cbn. constructor; [intros [E|[]]; discriminate|].
    constructor; [intros []|constructor]. }
  specialize (W N). cbv zeta in W.
  destruct W as ((T & _) & P & _ & A).
  split; [exact T|]. split.
  - apply P; [reflexivity|]. right. now left.
  - exact (proj1 (A eq_refl)).
Defined.

(** *** The state after a delete of files *)

Section FileDelete.
Context {Remote : Type}.
Variable deleteFile : string -> Remote -> Remote * option (option string).

Lemma deleteFile_onItem_total :
  (forall p rem, snd (deleteFile p rem) = None) ->
  forall p i w, snd (Files.deleteFile_onItem deleteFile p i w) = None.
Proof.
  intros Tt p i [m r]. unfold Files.deleteFile_onItem.
  pose proof (Tt p r) as Tp. destruct (deleteFile p r) as [r1 [e|]];
    [discriminate|reflexivity].
Qed.

Lemma completes_deleteFile_state (items : list string) :
  forall i w w',
    Utilities.completes (Files.deleteFile_onItem deleteFile) i items w w' ->
    Files.selectedFilePaths (fst w') = Files.selectedFilePaths (fst w) /\
    Files.currentPath (fst w') = Files.currentPath (fst w) /\
    Files.statusLine (fst w') = Files.statusLine (fst w) /\
    Files.currentFile (fst w')
      = match Files.currentFile (fst w) with
        | Some f => if existsb (String.eqb f) items then None else Some f
        | None => None
        end /\
    (forall c, In c (Files.calls (fst w')) ->
       In c (Files.calls (fst w)) \/ c = Files.StopPlayback).
Proof.
  induction items as [|x items IH]; intros i w w' C; inversion C; subst.
  - cbn. repeat split; auto. now destruct (Files.currentFile (fst w')).
  - match goal with
    | H : Utilities.completes _ _ items _ _ |- _ =>
        destruct (IH _ _ _ H) as (A1 & A2 & A3 & A4 & A5)
    end.
    match goal with
    | H : Files.deleteFile_onItem _ _ _ _ = _ |- _ => rename H into Step
    end.
    destruct w as [m r]. unfold Files.deleteFile_onItem in Step.
    destruct (deleteFile x r) as [r1 [err|]]; [discriminate|].
    inversion Step; subst w1; clear Step. cbn [fst] in *.
    rewrite A1, A2, A3, A4. clear A1 A2 A3 A4.
    destruct (Files.currentFile m) as [f|] eqn:Cf.
    + destruct (String.eqb f x) eqn:E; cbn [existsb orb].
      * cbn. rewrite ?E. cbn. repeat split; try reflexivity.
        intros c I. apply A5 in I. destruct I as [I|I]; [|now right].
        cbn in I. apply in_app_or in I. destruct I as [I|[I|[]]]; auto.
      * rewrite Cf, ?E. cbn. repeat split; try reflexivity. exact A5.
    + rewrite Cf. repeat split; try reflexivity. exact A5.
Qed.

(** X22.  The state after a delete of files.  When no request is
    rejected, the selection is emptied, the file list of the current
    folder and the history are asked for again, and the current file is
    forgotten exactly when it was one of the deleted files.  When a
    request is rejected, the selection stays as it was, with the files
    that were deleted before the rejection still in it, and no reload of
    the file list is asked for. *)
Theorem deleteSelectedFiles_outcome (m : Files.Mgr) (r : Remote) :
  let paths := Files.deleteSelectedFiles_selectedPaths m in
  ((forall p rem, snd (deleteFile p rem) = None) -> paths <> [] ->
   exists m' r' log before,
     Files.deleteSelectedFiles_confirmed deleteFile m r = ((m', r'), log) /\
     Files.selectedFilePaths m' = [] /\
     Files.calls m'
       = (before ++ [Files.LoadFiles (Files.currentPath m); Files.LoadHistory])%list /\
     Files.currentFile m'
       = match Files.currentFile m with
         | Some f => if existsb (String.eqb f) paths then None else Some f
         | None => None
         end) /\
  (forall pre x post m1 r1 r2 err,
     paths = (pre ++ x :: post)%list ->
     Utilities.completes (Files.deleteFile_onItem deleteFile) 0 pre (m, r) (m1, r1) ->
     deleteFile x r1 = (r2, Some err) ->
     exists m' log,
       Files.deleteSelectedFiles_confirmed deleteFile m r = ((m', r2), log) /\
       Files.selectedFilePaths m' = Files.selectedFilePaths m /\
       (forall c, In c (Files.calls m') ->
          In c (Files.calls m) \/ c = Files.StopPlayback) /\
       Files.currentFile m'
         = match Files.currentFile m with
           | Some f => if existsb (String.eqb f) pre then None else Some f
           | None => None
           end).
Proof.
  cbv zeta. split.
  - intros Tt Ne.
    set (paths := Files.deleteSelectedFiles_selectedPaths m) in *.
    destruct (UtilitiesFacts.completes_total (Files.deleteFile_onItem deleteFile)
                (deleteFile_onItem_total Tt) paths 0 (m, r)) as ([m1 r1] & C).
    destruct (UtilitiesFacts.runBulkOperation_completes
                (Files.deleteFile_onItem deleteFile) "Deleting files" _ _ _ [] C)
      as (log & Eq & _).
    destruct (completes_deleteFile_state paths 0 (m, r) (m1, r1) C)
      as (A1 & A2 & A3 & A4 & A5). cbn [fst] in *.
    eexists _, r1, log, (Files.calls m1).
    split.
    { unfold Files.deleteSelectedFiles_confirmed. fold paths.
      destruct paths as [|p0 rest] eqn:S; [now elim Ne|]. rewrite Eq. reflexivity. }
    split; [reflexivity|]. split.
    { cbn. rewrite A2, <- app_assoc. reflexivity. }
    cbn. exact A4.
  - intros pre x post m1 r1 r2 err Sel C F.
    assert (F' : Files.deleteFile_onItem deleteFile x (List.length pre) (m1, r1)
                 = ((m1, r2), Some err)).
    { unfold Files.deleteFile_onItem. now rewrite F. }
    destruct (UtilitiesFacts.runBulkOperation_stops (Files.deleteFile_onItem deleteFile)
                "Deleting files" pre x post (m, r) (m1, r1) (m1, r2) err [] C F')
      as (log & Eq & _).
    destruct (completes_deleteFile_state pre 0 (m, r) (m1, r1) C)
      as (A1 & A2 & A3 & A4 & A5). cbn [fst] in *.
    eexists _, log. split.
    { unfold Files.deleteSelectedFiles_confirmed. rewrite Sel.
      destruct (pre ++ x :: post)%list eqn:Ne; [now destruct pre|].
      rewrite Eq. reflexivity. }
    cbn. repeat split; assumption.
Qed.

End FileDelete.

(** The theorem applies to the selection of [a], [b] and [c]: with a
    service that refuses [b], and with one that deletes all three. *)
Lemma deleteSelectedFiles_outcome_witness :
  (exists m' log,
     Files.deleteSelectedFiles_confirmed refuses_b three_selected ["a"; "b"; "c"]
     = ((m', ["b"; "c"]), log) /\
     Files.selectedFilePaths m' = ["a"; "b"; "c"]) /\
  (exists m' r' log,
     Files.deleteSelectedFiles_confirmed
       (fun p (rem : list string) => (JsSet.delete rem p, None))
       three_selected ["a"; "b"; "c"]
     = ((m', r'), log) /\
     Files.selectedFilePaths m' = []).
Proof.
  split.
  - destruct (proj2 (deleteSelectedFiles_outcome refuses_b three_selected ["a"; "b"; "c"])
                ["a"] "b" ["c"] three_selected ["b"; "c"] ["b"; "c"]
                (Some "Permission denied") eq_refl)
      as (m' & log & E & S & _).
    + econstructor; [reflexivity|constructor].
    + reflexivity.
    + exists m', log. split; [exact E|exact S].
  - destruct (proj1 (deleteSelectedFiles_outcome
                       (fun p (rem : list string) => (JsSet.delete rem p, None))
                       three_selected ["a"; "b"; "c"]))
      as (m' & r' & log & before & E & S & _).
    + intros p rem. reflexivity.
    + discriminate.
    + exists m', r', log. split; [exact E|exact S].
Defined.

(** *** The rows of the file list *)

Lemma anchor_toggle (li : Files.ListItemEl) (f : option bool) (m : Files.Mgr) :
  Files.selectionAnchorPath (Files.toggleFileSelected li f m) = Files.selectionAnchorPath m.
Proof. reflexivity. Qed.

Lemma anchor_fold_toggle (items : list Files.ListItemEl) (l : list nat) :
  forall m,
    Files.selectionAnchorPath
      (fold_left
         (fun acc i =>
            match nth_error items i with
            | Some item => Files.toggleFileSelected item (Some true) acc
            | None => acc
            end) l m)
    = Files.selectionAnchorPath m.
Proof.
  induction l as [|i l IH]; intros m; cbn [fold_left]; [reflexivity|].
  rewrite IH. now destruct (nth_error items i).
Qed.

Lemma selectFileRange_anchor
    (dom : list Files.ListItemEl) (li : Files.ListItemEl) (additive : bool) (m : Files.Mgr) :
  Files.selectionAnchorPath (Files.selectFileRange dom li additive m)
  = Files.selectionAnchorPath m.
Proof.
  unfold Files.selectFileRange.
  destruct (Files.getVisibleFileItems dom) as [|x items]; [reflexivity|].
  destruct (Files.indexOf (x :: items) li); [|reflexivity].
  unfold for_incl. rewrite anchor_fold_toggle. now destruct additive.
Qed.

Section RowFacts.
Variable selectFileItemCallback : Files.ListItemEl -> option bool -> Files.Mgr -> Files.Mgr.
Variable selectTreeItemCallback : Tree.TreeItemEl -> option bool -> Tree.Nav -> Tree.Nav.
Hypothesis file_callback_keeps_selection :
  forall li flag m,
    Files.selectedFilePaths (selectFileItemCallback li flag m) = Files.selectedFilePaths m /\
    Files.selectionAnchorPath (selectFileItemCallback li flag m)
      = Files.selectionAnchorPath m.
Hypothesis tree_callback_keeps_anchor :
  forall el flag n,
    Tree.selectionAnchorPath (selectTreeItemCallback el flag n) = Tree.selectionAnchorPath n.

(** X23.  The context menu of a row of the file list.  On a row that is
    selected it leaves the selection, with all its other files, as it is;
    on a row that is not selected it makes that row the whole selection
    and the anchor.  Either way the file of the row is selected when the
    menu opens, so that a delete from the menu applies to it; and the menu
    of the row is the only one that is open. *)
Theorem context_menu_targets_row
    (li : Files.ListItemEl) (file : Item) (actionsMenu : nat)
    (m : Files.Mgr) (menus : list UIUtils.MenuEl) :
  Files.dataset_filepath li = path file ->
  let w := li_oncontextmenu selectFileItemCallback li file actionsMenu false (m, menus) in
  In (path file) (Files.deleteSelectedFiles_selectedPaths (fst w)) /\
  (JsSet.has (Files.selectedFilePaths m) (path file) = true -> fst w = m) /\
  (JsSet.has (Files.selectedFilePaths m) (path file) = false ->
     Files.selectedFilePaths (fst w) = [path file] /\
     Files.selectionAnchorPath (fst w) = Some (path file)) /\
  (forall x, In x (snd w) ->
     UIUtils.menu_active x = true -> UIUtils.menu_id x = actionsMenu).
Proof.
  intros E. cbv zeta. unfold li_oncontextmenu, select_unselected. cbn [fst snd].
  assert (Sel : forall s, In (path file) s ->
                  In (path file)
                     (match s with
                      | [] => match Files.selectedListItem m with
                              | Some l => [Files.dataset_filepath l]
                              | None => []
                              end
                      | _ => s
                      end)).
  { intros s I. destruct s; [destruct I|exact I]. }
  split; [|split; [|split]].
  - unfold Files.deleteSelectedFiles_selectedPaths.
    destruct (JsSet.has (Files.selectedFilePaths m) (path file)) eqn:H; cbn [negb].
    + apply JsSetFacts.has_In in H.
      destruct (Files.selectedFilePaths m); [destruct H|exact H].
    + rewrite (proj1 (file_callback_keeps_selection _ _ _)).
      cbn. rewrite E. now left.
  - intros H. now rewrite H.
  - intros H. rewrite H. cbn [negb].
    destruct (file_callback_keeps_selection li (Some false)
                (Files.set_selectionAnchorPath
                   (Files.toggleFileSelected li (Some true) (Files.clearFileSelection m))
                   (Some (Files.dataset_filepath li)))) as [K1 K2].
    rewrite K1, K2. cbn. now rewrite E.
  - intros x I A. unfold UIUtils.openActionsMenu, UIUtils.menu_update in I.
    apply in_map_iff in I. destruct I as (y & Ey & I).
    destruct (Nat.eqb (UIUtils.menu_id y) actionsMenu) eqn:Q.
    + apply Nat.eqb_eq in Q. now subst x.
    + subst x. destruct (UIUtilsFacts.In_closeActionsMenus _ _ _ I A) as [Ex _].
      inversion Ex; subst. now rewrite Nat.eqb_refl in Q.
Qed.

(** X24.  Where the anchor of a range selection goes on a Shift-click.
    In the file list it stays where it was, so that successive
    Shift-clicks stretch the range from the same row; in the folder tree
    it moves to the clicked folder, so that the next Shift-click starts
    from there. *)
Theorem shift_click_anchor :
  (forall dom li file ctrlKey m,
     Files.selectionAnchorPath
       (fst (li_onclick selectFileItemCallback dom li file false true ctrlKey m))
     = Files.selectionAnchorPath m) /\
  (forall dom div item ctrlKey n,
     Tree.selectionAnchorPath
       (fst (Tree.content_onclick selectTreeItemCallback dom div item true ctrlKey n))
     = Some (Tree.dataset_path div)).
Proof.
  split.
  - intros dom li file ctrlKey m. unfold li_onclick. cbn [fst].
    rewrite (proj2 (file_callback_keeps_selection _ _ _)).
    apply selectFileRange_anchor.
  - intros dom div item ctrlKey n. unfold Tree.content_onclick. cbn [fst].
    now rewrite tree_callback_keeps_anchor.
Qed.

End RowFacts.

(** The theorems apply to callbacks that record the clicked row. *)
Lemma context_menu_targets_row_witness :
  let callback := fun li (flag : option bool) m => Files.set_selectedListItem m (Some li) in
  let li := Files.mkLi 4 "d.mp3" false false in
  let file := mkItem "d.mp3" "d.mp3" "file" None None None in
  let w := li_oncontextmenu callback li file 7 false
             (three_selected, [UIUtils.mkMenu 5 true; UIUtils.mkMenu 7 false]) in
  Files.selectedFilePaths (fst w) = ["d.mp3"] /\
  snd w = [UIUtils.mkMenu 5 false; UIUtils.mkMenu 7 true].
Proof.
  cbv zeta. split; [|reflexivity].
  refine (proj1 (proj1 (proj2 (proj2
           (context_menu_targets_row
              (fun li (flag : option bool) m => Files.set_selectedListItem m (Some li))
              (fun _ _ _ => conj eq_refl eq_refl)
              (Files.mkLi 4 "d.mp3" false false)
              (mkItem "d.mp3" "d.mp3" "file" None None None) 7 three_selected
              [UIUtils.mkMenu 5 true; UIUtils.mkMenu 7 false] eq_refl))) eq_refl)).
Defined.

Lemma shift_click_anchor_witness :
  Files.selectionAnchorPath
    (fst (li_onclick (fun li (flag : option bool) m => Files.set_selectedListItem m (Some li))
            example_file_dom (Files.mkLi 3 "c.mp3" false false)
            (mkItem "c.mp3" "c.mp3" "file" None None None) false true false
            (example_mgr (Some "a.mp3"))))
  = Some "a.mp3" /\
  Tree.selectionAnchorPath
    (fst (Tree.content_onclick Tree.shell_selectTreeItem example_tree_dom
            (Tree.mkEl 3 "B" true false 0) (mkItem "B" "B" "folder" None None None)
            true false (example_nav (Some "A"))))
  = Some "B".
Proof.
  pose proof (shift_click_anchor
                (fun li (flag : option bool) m => Files.set_selectedListItem m (Some li))
                Tree.shell_selectTreeItem
                (fun _ _ _ => conj eq_refl eq_refl)
                (fun _ _ _ => eq_refl)) as [F T].
  split; [apply F|apply T].
Defined.

(** *** Asking before a delete *)

(** X25.  A delete of files asks first, and only one dialog can be open.
    While another dialog is open, or when the dialog is not mounted, the
    question is answered [false] at once: nothing is deleted and the open
    dialog is left as it is.  Otherwise the question is put in a dialog of
    its own, with a confirm button marked as dangerous, and the delete
    goes on exactly when that dialog is confirmed. *)
Theorem delete_asks_in_one_dialog
    (intro : string) (items : list string) (trashIcon : string)
    (m : Files.Mgr) (d : Dialog.T) (later : bool) :
  Files.deleteSelectedFiles_selectedPaths m <> [] ->
  let asked := deleteSelectedFiles_ask intro items trashIcon m (Some d) in
  (Dialog.isOpenFlag d = true \/ Dialog.mounted d = false ->
     asked = Some (d, Dialog.Already false) /\ goes_on asked later = false) /\
  (Dialog.isOpenFlag d = false -> Dialog.mounted d = true ->
     exists d',
       asked = Some (d', Dialog.Later (Dialog.nextPromise d)) /\
       Dialog.isOpenFlag d' = true /\
       Dialog.bodyEl (Dialog.view d') = Dialog.listBody intro items /\
       Dialog.confirmBtn_text (Dialog.view d') = "Delete" /\
       Dialog.confirmBtn_danger (Dialog.view d') = true /\
       Dialog.copyBtn_shown (Dialog.view d') = false /\
       goes_on asked later = later).
Proof.
  intros Ne. cbv zeta. unfold deleteSelectedFiles_ask.
  destruct (Files.deleteSelectedFiles_selectedPaths m) as [|p0 rest] eqn:S;
    [now elim Ne|].
  unfold Dialog.confirmList, Dialog.openBase, Dialog.isOpen. split.
  - intros [O|M].
    + rewrite O, orb_true_r. now split.
    + rewrite M. now split.
  - intros O M. rewrite O, M. cbn [negb orb]. eexists. split; [reflexivity|].
    cbn. rewrite UIUtilsFacts.or_text_empty. auto 10.
Qed.

(** The theorem applies to a delete that is asked for while an error
    alert is open. *)
Lemma delete_asks_in_one_dialog_witness :
  let d := fst (Dialog.alert "Error" "Error loading files" "OK" (Dialog.initial true)) in
  goes_on (deleteSelectedFiles_ask "Delete these 3 files?" ["a"; "b"; "c"] "x"
             three_selected (Some d)) true = false.
Proof.
  cbv zeta.
  refine (proj2 (proj1 (delete_asks_in_one_dialog "Delete these 3 files?" ["a"; "b"; "c"] "x"
                   three_selected
                   (fst (Dialog.alert "Error" "Error loading files" "OK"
                           (Dialog.initial true)))
                   true _) (or_introl eq_refl))).
  discriminate.
Defined.

End FilePaneFacts.
(* ================================================================== *)
(** ** The progress bar of a bulk operation *)

Module ProgressFacts.
Import Utilities.

Section Progress.
Context {Item W E : Type}.
Variable onItem : Item -> nat -> W -> W * option E.

Lemma bar_events_app (l1 l2 : list (Event Item)) :
  UIUtils.bar_events (l1 ++ l2) = (UIUtils.bar_events l1 ++ UIUtils.bar_events l2)%list.
Proof. apply flat_map_app. Qed.

(** The loop with the bar in use: it reports [i + 1], [i + 2], ... once
    for each operation that completed, and never hides the bar. *)
Lemma bulk_loop_bar (label : string) (total : nat) :
  forall rest i w log,
    exists k w' log' r,
      bulk_loop onItem label true total i rest w log = (w', log', r) /\
      UIUtils.bar_events log'
      = (UIUtils.bar_events log
         ++ map (fun d => Some (label, d, total)) (seq (S i) k))%list /\
      started log' = (started log ++ firstn (match r with None => k | Some _ => S k end) rest)%list /\
      match r with None => k = List.length rest | Some _ => (k < List.length rest)%nat end.
Proof.
  induction rest as [|x rest IH]; intros i w log.
  - exists 0%nat, w, log, None. cbn. now rewrite !app_nil_r.
  - cbn [bulk_loop]. destruct (onItem x i w) as [w1 [e|]] eqn:O.
    + exists 0%nat, w1, (log ++ [OnItem x i])%list, (Some e). cbn [seq map firstn].
      rewrite bar_events_app, UtilitiesFacts.started_app. cbn.
      rewrite !app_nil_r. repeat split. lia.
    + destruct (IH (S i) w1 ((log ++ [OnItem x i]) ++ [ShowBulkProgress label (S i) total])%list)
        as (k & w' & log' & r & Eq & B & St & K).
      exists (S k), w', log', r. split; [exact Eq|]. split; [|split].
      * rewrite B, !bar_events_app. cbn. now rewrite app_nil_r, <- app_assoc.
      * rewrite St, !UtilitiesFacts.started_app. cbn. rewrite app_nil_r, <- app_assoc.
        now destruct r.
      * destruct r; cbn; lia.
Qed.

(** X26.  The progress bar of a bulk operation on more than one item.  It
    is shown with 0 done before the first operation starts, then again
    after each operation that completes, with the number completed so far
    and the same label and total; and it is hidden exactly once, as the
    last thing the runner does, also when an operation throws.  When none
    throws the last count shown is the total; when one throws the count
    stays below the total and the operations started are those counted
    and the one that threw. *)
Theorem bulk_progress_protocol (label : string) (items : list Item) (w : W) :
  (1 < List.length items)%nat ->
  exists k w' log r,
    runBulkOperation onItem label items w [] = (w', log, r) /\
    UIUtils.bar_events log
    = (map (fun d => Some (label, d, List.length items)) (seq 0 (S k)) ++ [None])%list /\
    match r with
    | None => k = List.length items /\ started log = items
    | Some _ => (k < List.length items)%nat /\ started log = firstn (S k) items
    end.
Proof.
  intros L. unfold runBulkOperation.
  destruct (Nat.eqb (List.length items) 0) eqn:Z; [apply Nat.eqb_eq in Z; lia|].
  assert (B : Nat.ltb 1 (List.length items) = true) by (apply Nat.ltb_lt; lia).
  rewrite B.
  destruct (bulk_loop_bar label (List.length items) items 0 w
              ([] ++ [ShowBulkProgress label 0 (List.length items)])%list)
    as (k & w' & log' & r & Eq & Bar & St & K).
  rewrite Eq. exists k, w', (log' ++ [HideBulkProgress])%list, r.
  split; [reflexivity|]. split.
  - rewrite bar_events_app, Bar. reflexivity.
  - rewrite UtilitiesFacts.started_app, St. cbn. rewrite app_nil_r.
    destruct r; split; try exact K; try reflexivity.
    subst k. apply firstn_all.
Qed.

End Progress.

(** The theorem applies to the delete of three files of which the second
    is refused: the bar shows 0 and 1 of 3 and is hidden. *)
Lemma bulk_progress_protocol_witness :
  exists k w' log r,
    runBulkOperation (Files.deleteFile_onItem refuses_b) "Deleting files"
      ["a"; "b"; "c"] (three_selected, ["a"; "b"; "c"]) [] = (w', log, r) /\
    UIUtils.bar_events log
    = (map (fun d => Some ("Deleting files", d, 3%nat)) (seq 0 (S k)) ++ [None])%list /\
    match r with
    | None => k = 3%nat /\ started log = ["a"; "b"; "c"]
    | Some _ => (k < 3)%nat /\ started log = firstn (S k) ["a"; "b"; "c"]
    end.
Proof.
  apply (bulk_progress_protocol (Files.deleteFile_onItem refuses_b) "Deleting files"
           ["a"; "b"; "c"] (three_selected, ["a"; "b"; "c"])).
  simpl. lia.
Defined.

End ProgressFacts.
(* ================================================================== *)
(** ** The current folder and file after a folder rename *)

Module RenameRefsFacts.
Import JsString PathRewrite.

Lemma key_keeps_current (oldPath newPath : string) (st : State) (key : string) :
  currentPath (updateFolderReferences_key oldPath newPath st key) = currentPath st /\
  currentFile (updateFolderReferences_key oldPath newPath st key) = currentFile st.
Proof.
  unfold updateFolderReferences_key.
  destruct (under oldPath key); [|now split].
  destruct (JsObj.get (treeData st) key); cbn;
    match goal with |- context [if ?b then _ else _] => destruct b end; now split.
Qed.

Lemma keys_keep_current (oldPath newPath : string) (keys : list string) :
  forall st,
    currentPath (fold_left (updateFolderReferences_key oldPath newPath) keys st)
    = currentPath st /\
    currentFile (fold_left (updateFolderReferences_key oldPath newPath) keys st)
    = currentFile st.
Proof.
  induction keys as [|k keys IH]; intros st; cbn [fold_left]; [now split|].
  destruct (IH (updateFolderReferences_key oldPath newPath st k)) as [A B].
  destruct (key_keeps_current oldPath newPath st k) as [C D].
  split; congruence.
Qed.

Lemma slice_length (s : string) : slice s (String.length s) = "".
Proof. induction s as [|c s IH]; [reflexivity | exact IH]. Qed.

Lemma slice_append (a r : string) : slice (a ++ r) (String.length a) = r.
Proof. induction a as [|c a IH]; [now destruct r | exact IH]. Qed.

Lemma append_assoc (a b c : string) : (a ++ b) ++ c = a ++ (b ++ c).
Proof. induction a as [|x a IH]; cbn; [reflexivity | now rewrite IH]. Qed.

Lemma append_empty (a : string) : a ++ "" = a.
Proof. induction a as [|x a IH]; cbn; [reflexivity | now rewrite IH]. Qed.

Lemma under_empty (oldPath : string) : under oldPath "" = false.
Proof. unfold under, startsWith. now destruct oldPath. Qed.

Lemma under_rebase (oldPath newPath p : string) :
  under oldPath p = true -> under newPath (rebase oldPath newPath p) = true.
Proof.
  unfold under, startsWith, rebase. intros U.
  apply PathRewriteFacts.prefix_split in U.
  rewrite append_assoc in U. rewrite U, slice_append, <- append_assoc.
  apply PathRewriteFacts.prefix_app.
Qed.

Lemma under_nonempty (oldPath p : string) : under oldPath p = true -> truthy p = true.
Proof.
  intros U. destruct p; [now rewrite under_empty in U | reflexivity].
Qed.

Section RenameRefs.
Context {El : Type}.
Variable dataset_path : El -> string.
Variable set_dataset_path : El -> string -> El.
Variable select : string -> option (El -> bool).

(** What the rename has made of the current folder and the current file
    when it reaches the elements of the page. *)
Lemma updateFolderReferences_current (oldPath newPath : string) (st : State) (dom : list El) :
  let st' := fst (updateFolderReferences dataset_path set_dataset_path select
                    oldPath newPath st dom) in
  currentPath st' = movePath oldPath newPath (currentPath st) /\
  currentFile st'
  = option_map (fun f => if under oldPath f then rebase oldPath newPath f else f)
               (currentFile st).
Proof.
  cbv zeta. unfold updateFolderReferences. cbn [fst].
  set (st1 := match JsObj.get (treeData st) oldPath with
              | Some v => set_treeData st (JsObj.delete (JsObj.set (treeData st) newPath v) oldPath)
              | None => st
              end).
  assert (P1 : currentPath st1 = currentPath st /\ currentFile st1 = currentFile st).
  { unfold st1. now destruct (JsObj.get (treeData st) oldPath). }
  set (st2 := if JsSet.has (expandedFolders st1) oldPath
              then set_expandedFolders st1
                     (JsSet.add (JsSet.delete (expandedFolders st1) oldPath) newPath)
              else st1).
  assert (P2 : currentPath st2 = currentPath st /\ currentFile st2 = currentFile st).
  { unfold st2. now destruct (JsSet.has (expandedFolders st1) oldPath). }
  set (st3 := if String.eqb (currentPath st2) oldPath then set_currentPath st2 newPath
              else if truthy (currentPath st2) && under oldPath (currentPath st2)
              then set_currentPath st2 (rebase oldPath newPath (currentPath st2))
              else st2).
  assert (P3 : currentPath st3 = movePath oldPath newPath (currentPath st) /\
               currentFile st3 = currentFile st).
  { unfold st3. destruct P2 as [P2a P2b]. rewrite P2a.
    unfold movePath, selfOrUnder. fold (under oldPath (currentPath st)).
    destruct (String.eqb (currentPath st) oldPath) eqn:Q.
    - apply String.eqb_eq in Q. cbn. unfold rebase. rewrite Q, slice_length.
      split; [|exact P2b]. now rewrite append_empty.
    - cbn [orb]. destruct (under oldPath (currentPath st)) eqn:U.
      + rewrite (under_nonempty _ _ U). cbn. split; [reflexivity|exact P2b].
      + rewrite andb_false_r. split; [exact P2a|exact P2b]. }
  set (st4 := match currentFile st3 with
              | Some f =>
                  if truthy f && under oldPath f
                  then set_currentFile st3 (Some (rebase oldPath newPath f))
                  else st3
              | None => st3
              end).
  assert (P4 : currentPath st4 = movePath oldPath newPath (currentPath st) /\
               currentFile st4
               = option_map (fun f => if under oldPath f then rebase oldPath newPath f else f)
                            (currentFile st)).
  { unfold st4. destruct P3 as [P3a P3b]. rewrite <- P3b.
    destruct (currentFile st3) as [f|] eqn:F; cbn [option_map]; [|now split].
    destruct (under oldPath f) eqn:U.
    - rewrite (under_nonempty _ _ U). cbn. split; [exact P3a|reflexivity].
    - rewrite andb_false_r. split; [exact P3a|exact F]. }
  destruct (keys_keep_current oldPath newPath (JsObj.keys (treeData st4)) st4) as [K1 K2].
  destruct P4 as [P4 P4']. rewrite K1, K2. now split.
Qed.

(** The current folder after a move of a folder it is, or lies under, is
    the new folder or lies under it. *)
Lemma movePath_lands_under (oldPath newPath p : string) :
  selfOrUnder oldPath p = true ->
  String.eqb (movePath oldPath newPath p) newPath
  || (truthy (movePath oldPath newPath p) && under newPath (movePath oldPath newPath p))
  = true.
Proof.
  intros S. unfold movePath. rewrite S.
  unfold selfOrUnder in S. fold (under oldPath p) in S.
  apply orb_true_iff in S as [Q|U].
  - apply String.eqb_eq in Q. unfold rebase. rewrite Q, slice_length.
    now rewrite append_empty, String.eqb_refl.
  - pose proof (under_rebase oldPath newPath _ U) as U'.
    rewrite U', (under_nonempty _ _ U'). apply orb_true_r.
Qed.

(** X27.  What [updateFolderReferences] does to the current folder and the
    current file, and how it ends.  The current folder is rewritten as a
    move rewrites a path: the renamed folder becomes the new one, a folder
    under it keeps its remainder, any other is left alone.  The current
    file is rewritten when it lies under the renamed folder.  Both are
    done before the elements of the page are looked up.  When one of the
    two selectors built from the old path is no selector, the function
    ends with a [SyntaxError] and the file list is not reloaded, although
    [State] has been rewritten.  When both are selectors: whenever the
    current folder was the renamed one or under it, the file list is
    reloaded for its new path; and when nothing is reloaded the current
    folder is the one it was. *)
Theorem rename_follows_current (oldPath newPath : string) (st : State) (dom : list El) :
  let result := updateFolderReferences dataset_path set_dataset_path select
                  oldPath newPath st dom in
  let st' := fst result in
  let ending := snd (snd result) in
  currentPath st' = movePath oldPath newPath (currentPath st) /\
  currentFile st'
  = option_map (fun f => if under oldPath f then rebase oldPath newPath f else f)
               (currentFile st) /\
  (select (selector "=" oldPath) = None \/ select (selector "^=" (oldPath ++ "/")) = None ->
   ending = Thrown SyntaxError) /\
  (select (selector "=" oldPath) <> None ->
   select (selector "^=" (oldPath ++ "/")) <> None ->
   (selfOrUnder oldPath (currentPath st) = true ->
    ending = Reloads (Some (currentPath st'))) /\
   (ending = Reloads None -> currentPath st' = currentPath st)).
Proof.
  cbv zeta.
  destruct (updateFolderReferences_current oldPath newPath st dom) as [P Q].
  cbv zeta in P, Q. split; [exact P|]. split; [exact Q|].
  revert P. unfold updateFolderReferences. cbn [fst snd].
  set (st5 := fold_left (updateFolderReferences_key oldPath newPath) _ _).
  intros P. unfold updateDOMPaths.
  destruct (select (selector "=" oldPath)) as [renamed|];
    [destruct (select (selector "^=" (oldPath ++ "/"))) as [below|]|];
    cbn [fst snd]; (split; [intros [N|N]; try discriminate; reflexivity|]);
    intros V1 V2; try (now elim V1); try (now elim V2).
  rewrite P. split.
  - intros S. now rewrite (movePath_lands_under oldPath newPath _ S).
  - intros N. destruct (selfOrUnder oldPath (currentPath st)) eqn:S.
    + rewrite (movePath_lands_under oldPath newPath _ S) in N. discriminate.
    + unfold movePath. now rewrite S.
Qed.

End RenameRefs.

(** The theorem applies to the rename of the current folder [a] to [c],
    with [a] and its child [a/b] in the tree: both selectors are
    selectors, the two elements carry [c] and [c/b] afterwards, and the
    file list is reloaded for [c].  It also applies to a folder whose name
    holds a double quote, where the example engine finds no selector. *)
Lemma rename_follows_current_witness :
  let result :=
    updateFolderReferences Tree.dataset_path Tree.set_dataset_path example_select
      "a" "c" uncached_child_state rows_of_a in
  fst (snd result) = [Tree.mkEl 1 "c" true true 1; Tree.mkEl 2 "c/b" true false 0] /\
  snd (snd result) = Reloads (Some "c") /\
  snd (snd (updateFolderReferences Tree.dataset_path Tree.set_dataset_path example_select
              (String quote "a") "c" uncached_child_state rows_of_a))
  = Thrown SyntaxError.
Proof.
  pose proof (rename_follows_current Tree.dataset_path Tree.set_dataset_path example_select
                "a" "c" uncached_child_state rows_of_a) as (_ & _ & _ & Valid).
  destruct (Valid ltac:(discriminate) ltac:(discriminate)) as [Reload _].
  pose proof (rename_follows_current Tree.dataset_path Tree.set_dataset_path example_select
                (String quote "a") "c" uncached_child_state rows_of_a)
    as (_ & _ & Throws & _).
  cbv zeta. split; [reflexivity|]. split.
  - exact (Reload eq_refl).
  - apply Throws. left. reflexivity.
Defined.

End RenameRefsFacts.
